(** * Caption serialisation of [scripts/transcribe.py]

    A shallow embedding of the caption engine of the transcription script:
    the timestamp formatter [format_timestamp], the two serialisers
    [generate_srt] and [generate_vtt], the resolution of the output path and
    the format dispatch of [transcribe].

    Python values are modelled as the interpreter has them:
    - [str] is a sequence of Unicode code points;
    - [int] is [Z];
    - [float] is IEEE 754 binary64 with round-to-nearest-even, a finite value
      being kept as the integer number of units of 2^-1074 it is made of;
    - exceptions are an error monad. *)

From Stdlib Require Import String Ascii.
From Stdlib Require Import ZArith NArith List Bool Lia Znumtheory.
From Stdlib Require Import Floats.SpecFloat.
Import ListNotations.

Local Open Scope string_scope.
Local Open Scope list_scope.
Local Open Scope Z_scope.

(* ================================================================= *)
(** ** Python strings *)

Module Str.

(** A character is a Unicode code point, a [str] a sequence of them. *)
Abbreviation char := N (only parsing).
Abbreviation str := (list N) (only parsing).

(** The code points of a literal of the development (ASCII only). *)
Definition u (s : string) : str := map N_of_ascii (list_ascii_of_string s).

Definition nl : str := [10%N].

Definition char_eqb (a b : char) : bool := N.eqb a b.

Fixpoint eqb (s t : str) : bool :=
  match s, t with
  | [], [] => true
  | a :: s', b :: t' => char_eqb a b && eqb s' t'
  | _, _ => false
  end.

(** [str.isspace] on one character: general category Zs or bidirectional
    class WS, B or S of the Unicode character database. *)
Definition isspace (c : char) : bool :=
  ((9 <=? c) && (c <=? 13) || (28 <=? c) && (c <=? 32)
   || (c =? 133) || (c =? 160) || (c =? 5760)
   || (8192 <=? c) && (c <=? 8202)
   || (c =? 8232) || (c =? 8233) || (c =? 8239) || (c =? 8287)
   || (c =? 12288))%N.

Fixpoint lstrip (s : str) : str :=
  match s with
  | c :: s' => if isspace c then lstrip s' else s
  | [] => []
  end.

Definition rstrip (s : str) : str := rev (lstrip (rev s)).

(** [s.strip()] *)
Definition strip (s : str) : str := rstrip (lstrip s).

(** [sep.join(parts)] *)
Fixpoint join (sep : str) (parts : list str) : str :=
  match parts with
  | [] => []
  | [p] => p
  | p :: rest => p ++ sep ++ join sep rest
  end.

(** [s.split(sep)] for a one-character separator. *)
Fixpoint split_on (sep : char) (s : str) : list str :=
  match s with
  | [] => [[]]
  | c :: s' =>
      if char_eqb c sep then [] :: split_on sep s'
      else match split_on sep s' with
           | w :: ws => (c :: w) :: ws
           | [] => [[c]]
           end
  end.

(** [c in s] *)
Definition contains (c : char) (s : str) : bool := existsb (char_eqb c) s.

(** [s.rfind(c)], -1 when [c] does not occur. *)
Fixpoint rfind_from (i : Z) (c : char) (s : str) (found : Z) : Z :=
  match s with
  | [] => found
  | d :: s' => rfind_from (i + 1) c s' (if char_eqb d c then i else found)
  end.

Definition rfind (c : char) (s : str) : Z := rfind_from 0 c s (-1).

Definition len (s : str) : Z := Z.of_nat (length s).

(** [s[i:]] and [s[:i]] for [0 <= i]. *)
Definition slice_from (i : Z) (s : str) : str := skipn (Z.to_nat i) s.
Definition slice_to (i : Z) (s : str) : str := firstn (Z.to_nat i) s.

(** Comparison of two strings, code point by code point ([s <= t]). *)
Fixpoint leb (s t : str) : bool :=
  match s, t with
  | [], _ => true
  | _ :: _, [] => false
  | a :: s', b :: t' => (a <? b)%N || ((a =? b)%N && leb s' t')
  end.

Definition is_digit (c : char) : bool := ((48 <=? c) && (c <=? 57))%N.

End Str.

Import Str.

(* ================================================================= *)
(** ** Python integers as text *)

Module PyInt.

Definition digit_char (d : Z) : char := (48 + Z.to_N d)%N.

(** Decimal digits of a non-negative integer, most significant first. *)
Fixpoint decimal_digits (fuel : nat) (n : Z) (acc : str) : str :=
  match fuel with
  | O => acc
  | S fuel' =>
      let acc' := digit_char (n mod 10) :: acc in
      if n <? 10 then acc' else decimal_digits fuel' (n / 10) acc'
  end.

Definition str_of_nonneg (n : Z) : str :=
  decimal_digits (S (Z.to_nat (Z.log2 n))) n [].

(** [str(n)], as in [f"{n}"]. *)
Definition str_of_int (n : Z) : str :=
  if n <? 0 then 45%N :: str_of_nonneg (- n) else str_of_nonneg n.

(** [format(n, "0<width>d")]: the sign first, then zeros up to the width. *)
Definition format_0d (width : nat) (n : Z) : str :=
  let digits := str_of_nonneg (Z.abs n) in
  let sign := if n <? 0 then [45%N] else [] in
  sign ++ repeat 48%N (width - length sign - length digits) ++ digits.

End PyInt.

Import PyInt.

(* ================================================================= *)
(** ** Exceptions *)

(** Errors raised by the interpreter and its library; the text of their
    messages is not part of the model. *)
Inductive builtin_error :=
| NaNToInteger          (* ValueError: int() of a NaN *)
| InfinityToInteger     (* OverflowError: int() of an infinity *)
| IntTooLargeForFloat   (* OverflowError: int operand beyond the float range *)
| FloatDivisionByZero   (* ZeroDivisionError *)
| InvalidSuffix (suffix : str)  (* ValueError of Path.with_suffix *)
| EmptyName.                    (* ValueError of Path.with_suffix *)

Inductive exn :=
| FileNotFoundError (msg : str)
| ValueError (msg : str)
| Builtin (e : builtin_error)
| External (msg : str).   (* raised inside the speech-recognition library *)

Inductive result (A : Type) :=
| Ok (a : A)
| Raise (e : exn).

Arguments Ok {A} a.
Arguments Raise {A} e.

Definition bind {A B} (m : result A) (k : A -> result B) : result B :=
  match m with
  | Ok a => k a
  | Raise e => Raise e
  end.

Notation "x <- m ;; k" := (bind m (fun x => k))
  (at level 61, m at next level, right associativity).

Definition is_ok {A} (m : result A) : bool :=
  match m with Ok _ => true | Raise _ => false end.

(* ================================================================= *)
(** ** Python floats: IEEE 754 binary64 *)

Module Float.

(** Every finite binary64 number is an integer multiple of 2^-1074, the
    smallest subnormal.  [Finite a] stands for a * 2^-1074.  The sign of a
    zero is dropped: no operation of the program tells the two zeros apart
    ([int], [<] and [!=] give the same for both). *)
Inductive pyfloat :=
| Finite (a : Z)
| Inf (negative : bool)
| NaN.

Definition scale : Z := 1074.
Definition one : Z := 2 ^ scale.           (* 1.0 *)
Definition prec : Z := 53.
Definition overflow_threshold : Z := 2 ^ (1024 + scale).

(** Number of binary digits of a non-negative integer. *)
Definition bitlen (n : Z) : Z := if n =? 0 then 0 else Z.log2 n + 1.

(** A non-negative multiple [a] of 2^-1074 is a binary64 number when it has
    at most 53 significant bits and lies below 2^1024. *)
Definition ulp_shift (a : Z) : Z := Z.max 0 (bitlen a - prec).

Definition is_double_abs (a : Z) : bool :=
  (a mod 2 ^ ulp_shift a =? 0) && (a <? overflow_threshold).

Definition is_double (x : pyfloat) : bool :=
  match x with
  | Finite a => is_double_abs (Z.abs a)
  | _ => true
  end.

(** Nearest integer to n/d, ties to the even one ([0 <= n], [0 < d]). *)
Definition round_half_even (n d : Z) : Z :=
  let '(q, r) := Z.div_eucl n d in
  if 2 * r <? d then q
  else if d <? 2 * r then q + 1
  else if Z.even q then q else q + 1.

(** Round the non-negative rational n/d (in units of 2^-1074) to 53
    significant bits, the exponent range being unbounded above. *)
Definition rne (n d : Z) : Z :=
  let p := 2 ^ ulp_shift (n / d) in
  round_half_even n (d * p) * p.

(** The binary64 result of an operation whose exact value is n/d units. *)
Definition round64 (n d : Z) : pyfloat :=
  let a := rne (Z.abs n) d in
  if overflow_threshold <=? a then Inf (n <? 0)
  else Finite (Z.sgn n * a).

Definition fneg (x : pyfloat) : pyfloat :=
  match x with
  | Finite a => Finite (- a)
  | Inf s => Inf (negb s)
  | NaN => NaN
  end.

Definition fadd (x y : pyfloat) : pyfloat :=
  match x, y with
  | NaN, _ | _, NaN => NaN
  | Inf s, Inf t => if Bool.eqb s t then Inf s else NaN
  | Inf s, Finite _ => Inf s
  | Finite _, Inf t => Inf t
  | Finite a, Finite b => round64 (a + b) 1
  end.

Definition fsub (x y : pyfloat) : pyfloat := fadd x (fneg y).

Definition fmul (x y : pyfloat) : pyfloat :=
  match x, y with
  | NaN, _ | _, NaN => NaN
  | Inf s, Inf t => Inf (xorb s t)
  | Inf s, Finite b => if b =? 0 then NaN else Inf (xorb s (b <? 0))
  | Finite a, Inf t => if a =? 0 then NaN else Inf (xorb (a <? 0) t)
  | Finite a, Finite b => round64 (a * b) one
  end.

(** C division of doubles. *)
Definition fdiv (x y : pyfloat) : pyfloat :=
  match x, y with
  | NaN, _ | _, NaN => NaN
  | Inf _, Inf _ => NaN
  | Inf s, Finite b => Inf (xorb s (b <? 0))
  | Finite _, Inf _ => Finite 0
  | Finite a, Finite b =>
      if b =? 0 then (if a =? 0 then NaN else Inf (a <? 0))
      else round64 (Z.sgn b * a * one) (Z.abs b)
  end.

(** C [fmod]: the remainder of the truncated quotient, always exact. *)
Definition fmod (x y : pyfloat) : pyfloat :=
  match x, y with
  | NaN, _ | _, NaN => NaN
  | Inf _, _ => NaN
  | Finite a, Inf _ => Finite a
  | Finite a, Finite b => if b =? 0 then NaN else Finite (Z.rem a b)
  end.

(** C [floor]. *)
Definition ffloor (x : pyfloat) : pyfloat :=
  match x with
  | Finite a => Finite (a / one * one)
  | _ => x
  end.

(** [x < y], [x != 0] on doubles. *)
Definition flt (x y : pyfloat) : bool :=
  match x, y with
  | NaN, _ | _, NaN => false
  | Inf s, Inf t => s && negb t
  | Inf s, Finite _ => s
  | Finite _, Inf t => negb t
  | Finite a, Finite b => a <? b
  end.

Definition nonzero (x : pyfloat) : bool :=
  match x with
  | Finite a => negb (a =? 0)
  | _ => true
  end.

Definition of_Z (n : Z) : pyfloat := round64 (n * one) 1.

(** The double written as the decimal fraction n/d in the program text or
    in a test. *)
Definition of_decimal (n d : Z) : pyfloat := round64 (n * one) d.

(** Conversion of an [int] operand of a float operation. *)
Definition of_int (n : Z) : result pyfloat :=
  match of_Z n with
  | Inf _ => Raise (Builtin IntTooLargeForFloat)
  | x => Ok x
  end.

(** [int(x)]: truncation towards zero. *)
Definition to_int (x : pyfloat) : result Z :=
  match x with
  | Finite a => Ok (Z.quot a one)
  | Inf _ => Raise (Builtin InfinityToInteger)
  | NaN => Raise (Builtin NaNToInteger)
  end.

(** The interpreter's [_float_div_mod]: floored quotient and remainder with
    the sign of the divisor. *)
Definition float_div_mod (vx wx : pyfloat) : pyfloat * pyfloat :=
  let mod0 := fmod vx wx in
  let div0 := fdiv (fsub vx mod0) wx in
  let '(mod1, div1) :=
    if nonzero mod0 then
      if xorb (flt wx (Finite 0)) (flt mod0 (Finite 0))
      then (fadd mod0 wx, fsub div0 (Finite one))
      else (mod0, div0)
    else (Finite 0, div0) in
  let floordiv :=
    if nonzero div1 then
      let fl := ffloor div1 in
      if flt (Finite (one / 2)) (fsub div1 fl) then fadd fl (Finite one)
      else fl
    else Finite 0 in
  (floordiv, mod1).

(** [x // n] for a float [x] and an int [n]. *)
Definition floordiv_int (x : pyfloat) (n : Z) : result pyfloat :=
  wx <- of_int n ;;
  if nonzero wx then Ok (fst (float_div_mod x wx))
  else Raise (Builtin FloatDivisionByZero).

(** [x % n] for a float [x] and an int [n]. *)
Definition mod_int (x : pyfloat) (n : Z) : result pyfloat :=
  wx <- of_int n ;;
  if nonzero wx then
    let m := fmod x wx in
    Ok (if nonzero m then
          if xorb (flt wx (Finite 0)) (flt m (Finite 0)) then fadd m wx else m
        else Finite 0)
  else Raise (Builtin FloatDivisionByZero).

(** [x - n] and [x * n] for a float [x] and an int [n]. *)
Definition sub_int (x : pyfloat) (n : Z) : result pyfloat :=
  y <- of_int n ;; Ok (fsub x y).

Definition mul_int (x : pyfloat) (n : Z) : result pyfloat :=
  y <- of_int n ;; Ok (fmul x y).

End Float.

Import Float.

(* ================================================================= *)
(** ** The timestamp formatter *)

(** [format_timestamp(seconds, use_comma)] *)
Definition format_timestamp (seconds : pyfloat) (use_comma : bool) : result str :=
  q <- floordiv_int seconds 3600 ;;
  hours <- to_int q ;;
  r <- mod_int seconds 3600 ;;
  q' <- floordiv_int r 60 ;;
  minutes <- to_int q' ;;
  r' <- mod_int seconds 60 ;;
  secs <- to_int r' ;;
  whole <- to_int seconds ;;
  frac <- sub_int seconds whole ;;
  p <- mul_int frac 1000 ;;
  millis <- to_int p ;;
  let sep := if use_comma then u "," else u "." in
  Ok (format_0d 2 hours ++ u ":" ++ format_0d 2 minutes ++ u ":"
      ++ format_0d 2 secs ++ sep ++ format_0d 3 millis).

(* ================================================================= *)
(** ** The serialisers *)

(** A segment of the recogniser's output: [segment["start"]],
    [segment["end"]] and [segment["text"]]. *)
Record segment := mkSegment {
  start : pyfloat;
  end_ : pyfloat;
  text : str
}.

(** The loop of [generate_srt]: [i] is the counter of [enumerate(segments, 1)]
    and [lines] the list the loop appends to. *)
Fixpoint srt_loop (i : Z) (segments : list segment) (lines : list str)
  : result (list str) :=
  match segments with
  | [] => Ok lines
  | segment :: rest =>
      start <- format_timestamp (start segment) true ;;
      end_ <- format_timestamp (end_ segment) true ;;
      let text := strip (text segment) in
      srt_loop (i + 1) rest
        (lines ++ [str_of_int i ++ nl ++ start ++ u " --> " ++ end_ ++ nl
                   ++ text ++ nl])
  end.

Definition generate_srt (segments : list segment) : result str :=
  lines <- srt_loop 1 segments [] ;;
  Ok (join nl lines).

Fixpoint vtt_loop (segments : list segment) (lines : list str)
  : result (list str) :=
  match segments with
  | [] => Ok lines
  | segment :: rest =>
      start <- format_timestamp (start segment) false ;;
      end_ <- format_timestamp (end_ segment) false ;;
      let text := strip (text segment) in
      vtt_loop rest (lines ++ [start ++ u " --> " ++ end_ ++ nl ++ text ++ nl])
  end.

Definition generate_vtt (segments : list segment) : result str :=
  lines <- vtt_loop segments [u "WEBVTT" ++ nl] ;;
  Ok (join nl lines).

(* ================================================================= *)
(** ** Paths: [pathlib.Path] on a POSIX system *)

Module PosixPath.

Definition slash : char := 47%N.
Definition dot : char := 46%N.

(** A parsed path: the root (empty, one slash or two slashes) and the
    components after it. *)
Record path := mkPath {
  root : str;
  parts : list str
}.

Fixpoint lstrip_slash (s : str) : str :=
  match s with
  | c :: s' => if char_eqb c slash then lstrip_slash s' else s
  | [] => []
  end.

(** Exactly two leading slashes are kept as a root of their own. *)
Definition splitroot (p : str) : str * str :=
  match p with
  | c :: _ =>
      if char_eqb c slash then
        let stripped := lstrip_slash p in
        if len p - len stripped =? 2 then ([slash; slash], stripped)
        else ([slash], stripped)
      else ([], p)
  | [] => ([], [])
  end.

Definition is_component (x : str) : bool :=
  match x with
  | [] => false
  | _ => negb (eqb x [dot])
  end.

(** [Path(s)]: empty components and ["."] components are dropped. *)
Definition Path (s : str) : path :=
  let '(r, rel) := splitroot s in
  mkPath r (filter is_component (split_on slash rel)).

(** [str(p)] *)
Definition to_str (p : path) : str :=
  match root p ++ join [slash] (parts p) with
  | [] => [dot]
  | s => s
  end.

(** [p.name] *)
Definition name (p : path) : str := last (parts p) [].

(** [p.suffix] *)
Definition suffix (p : path) : str :=
  let name := name p in
  let i := rfind dot name in
  if (0 <? i) && (i <? len name - 1) then slice_from i name else [].

(** [p.with_suffix(suffix)] *)
Definition with_suffix (p : path) (new_suffix : str) : result path :=
  if contains slash new_suffix then Raise (Builtin (InvalidSuffix new_suffix))
  else if (match new_suffix with
           | [] => false
           | c :: _ => negb (char_eqb c dot)
           end) || eqb new_suffix [dot]
  then Raise (Builtin (InvalidSuffix new_suffix))
  else
    let name := name p in
    match name with
    | [] => Raise (Builtin EmptyName)
    | _ =>
        let old_suffix := suffix p in
        let name' :=
          match old_suffix with
          | [] => name ++ new_suffix
          | _ => slice_to (len name - len old_suffix) name ++ new_suffix
          end in
        Ok (mkPath (root p) (removelast (parts p) ++ [name']))
    end.

End PosixPath.

Import PosixPath.

(* ================================================================= *)
(** ** [transcribe] *)

(** What a call leaves behind: the lines printed and the files written,
    each with the text it holds after the call that wrote it, in the order
    of the calls. *)
Record world := mkWorld {
  stdout : list str;
  written : list (path * str)
}.

(** What the file system and the encoder make of a [write_text]. *)
Inductive write_outcome :=
| Written                               (* the whole text is in the file *)
| OpenFailed (e : exn)                  (* [open] raised: no file is touched *)
| WriteFailed (kept : str) (e : exn).   (* opened, so created or emptied;
                                           the encoding or the writing raised
                                           and [kept] is in the file *)

Definition M (A : Type) : Type := world -> world * result A.

Definition ret {A} (a : A) : M A := fun w => (w, Ok a).

Definition raise {A} (e : exn) : M A := fun w => (w, Raise e).

Definition lift {A} (r : result A) : M A := fun w => (w, r).

Definition bindM {A B} (m : M A) (k : A -> M B) : M B :=
  fun w =>
    match m w with
    | (w', Ok a) => k a w'
    | (w', Raise e) => (w', Raise e)
    end.

Notation "x <~ m ;; k" := (bindM m (fun x => k))
  (at level 61, m at next level, right associativity).
Notation "m ;;; k" := (bindM m (fun _ => k))
  (at level 61, right associativity).

Definition print (line : str) : M unit :=
  fun w => (mkWorld (stdout w ++ [line]) (written w), Ok tt).

(** Determine output path: the choice between the given output path and
    the input path with the suffix of the format. *)
Definition resolve_output_path (input_path : path) (output_path : option str)
           (output_format : str) : result path :=
  match output_path with
  | Some (c :: o) => Ok (Path (c :: o))
  | _ => with_suffix input_path (u "." ++ output_format)
  end.

Section Transcribe.

(** The speech-recognition library and the file system are outside the
    program: the model object, the dictionary [model.transcribe] returns
    with its entries [segments] and [text], [json.dumps], [Path.exists]
    and what the system makes of the writing of a file. *)
Variable whisper_model : Type.
Variable whisper_result : Type.
Variable load_model : str -> result whisper_model.
Variable model_transcribe : whisper_model -> str -> result whisper_result.
Variable result_segments : whisper_result -> list segment.
Variable result_text : whisper_result -> str.
Variable json_dumps : whisper_result -> result str.
Variable path_exists : path -> bool.
Variable write_file : path -> str -> write_outcome.

(** [out_path.write_text(content)]: the file is opened for writing, which
    creates or empties it, then the text is encoded and written. *)
Definition write_text (p : path) (content : str) : M unit :=
  fun w =>
    match write_file p content with
    | Written => (mkWorld (stdout w) (written w ++ [(p, content)]), Ok tt)
    | OpenFailed e => (w, Raise e)
    | WriteFailed kept e =>
        (mkWorld (stdout w) (written w ++ [(p, kept)]), Raise e)
    end.

(** Generate output based on format. *)
Definition render (res : whisper_result) (output_format : str) : result str :=
  if eqb output_format (u "srt") then generate_srt (result_segments res)
  else if eqb output_format (u "vtt") then generate_vtt (result_segments res)
  else if eqb output_format (u "txt") then Ok (result_text res)
  else if eqb output_format (u "json") then json_dumps res
  else Raise (ValueError (u "Unsupported format: " ++ output_format)).

Definition transcribe (input_file model_name : str) (output_path : option str)
           (output_format : str) : M path :=
  let input_path := Path input_file in
  if negb (path_exists input_path)
  then raise (FileNotFoundError (u "Input file not found: " ++ input_file))
  else
    out_path <~ lift (resolve_output_path input_path output_path output_format) ;;
    print (u "Loading Whisper model: " ++ model_name) ;;;
    model <~ lift (load_model model_name) ;;
    print (u "Transcribing: " ++ input_file) ;;;
    res <~ lift (model_transcribe model (to_str input_path)) ;;
    content <~ lift (render res output_format) ;;
    write_text out_path content ;;;
    print (u "Output written to: " ++ to_str out_path) ;;;
    ret out_path.

End Transcribe.

(* ================================================================= *)
(** ** The command line: [main] *)

(** The namespace [parser.parse_args()] returns: [args.input],
    [args.model], [args.output] ([None] when the option is absent) and
    [args.format]. *)
Record namespace := mkNamespace {
  args_input : str;
  args_model : str;
  args_output : option str;
  args_format : str
}.

(** The [choices] of the options [--model] and [--format]. *)
Definition model_choices : list str :=
  [u "tiny"; u "base"; u "small"; u "medium"; u "large-v3"; u "turbo"].


Section Main.

Variable whisper_model : Type.
Variable whisper_result : Type.
Variable load_model : str -> result whisper_model.
Variable model_transcribe : whisper_model -> str -> result whisper_result.
Variable result_segments : whisper_result -> list segment.
Variable result_text : whisper_result -> str.
Variable json_dumps : whisper_result -> result str.
Variable path_exists : path -> bool.
Variable write_file : path -> str -> write_outcome.

(** [str(e)] of an error of the interpreter or of a library; the errors
    the program raises itself carry their message. *)
Variable library_text : exn -> str.

Definition exception_str (e : exn) : str :=
  match e with
  | FileNotFoundError msg => msg
  | ValueError msg => msg
  | _ => library_text e
  end.

(** [main()] from the point where [parser.parse_args()] has returned
    [args] (on a usage error the parser ends the run itself): the lines
    printed, the files written, the lines of the error stream and the
    exit status of the script. *)
Definition main (args : namespace) (w : world) (stderr : list str)
  : world * list str * Z :=
  match transcribe whisper_model whisper_result load_model model_transcribe
          result_segments result_text json_dumps path_exists write_file
          (args_input args) (args_model args) (args_output args)
          (args_format args) w with
  | (w', Ok _) => (w', stderr, 0)
  | (w', Raise e) => (w', stderr ++ [u "Error: " ++ exception_str e], 1)
  end.

End Main.

(* ================================================================= *)
(** ** Quantities the properties are stated with *)

(* ================================================================= *)
(** ** Rounding: arithmetic facts *)

Definition rep (a : Z) : Prop :=
  exists m k, 0 <= k /\ 0 <= m < 2 ^ prec /\ a = m * 2 ^ k.

(** The fields of a timestamp, from the number [a] of units of 2^-1074 of
    a non-negative time. *)
Definition hours_of (a : Z) : Z := a / (3600 * one).
Definition minutes_of (a : Z) : Z := a mod (3600 * one) / (60 * one).
Definition secs_of (a : Z) : Z := a mod (60 * one) / one.
Definition millis_of (a : Z) : Z := rne (a mod one * 1000) 1 / one.

Definition fields_text (h m s ms : Z) (use_comma : bool) : str :=
  format_0d 2 h ++ u ":" ++ format_0d 2 m ++ u ":" ++ format_0d 2 s
  ++ (if use_comma then u "," else u ".") ++ format_0d 3 ms.

(** The number a string of decimal digits denotes. *)
Definition decimal_value (s : str) : Z :=
  fold_left (fun v c => 10 * v + (Z.of_N c - 48)) s 0.

Definition all_digits (s : str) : bool := forallb is_digit s.

(** The pattern [\d{2,}:\d{2}:\d{2}[,.]\d{3}], matched against the whole
    string: the longest run of digits, then the fixed-width rest. *)
Fixpoint span_digits (s : str) : str * str :=
  match s with
  | c :: s' =>
      if is_digit c then let '(d, r) := span_digits s' in (c :: d, r)
      else ([], s)
  | [] => ([], [])
  end.

Definition matches_timestamp_pattern (s : str) : bool :=
  let '(h, rest) := span_digits s in
  (2 <=? length h)%nat &&
  match rest with
  | [c1; m1; m2; c2; s1; s2; sep; f1; f2; f3] =>
      char_eqb c1 58%N && is_digit m1 && is_digit m2
      && char_eqb c2 58%N && is_digit s1 && is_digit s2
      && (char_eqb sep 44%N || char_eqb sep 46%N)
      && is_digit f1 && is_digit f2 && is_digit f3
  | _ => false
  end.

Definition two_digits (n : Z) : str := [digit_char (n / 10); digit_char (n mod 10)].
Definition three_digits (n : Z) : str :=
  [digit_char (n / 100); digit_char (n / 10 mod 10); digit_char (n mod 10)].

Definition below (n : nat) : list Z := map Z.of_nat (seq 0 n).

(** The clock time a timestamp denotes, in milliseconds. *)
Definition clock_millis (h m s ms : Z) : Z := ((h * 60 + m) * 60 + s) * 1000 + ms.

(** Reading a timestamp back: its four fields. *)
Definition parse_fields (t : str) : option (Z * Z * Z * Z) :=
  let '(h, rest) := span_digits t in
  match h, rest with
  | _ :: _, [c1; m1; m2; c2; s1; s2; sep; f1; f2; f3] =>
      if char_eqb c1 58%N && all_digits [m1; m2]
         && char_eqb c2 58%N && all_digits [s1; s2]
         && (char_eqb sep 44%N || char_eqb sep 46%N)
         && all_digits [f1; f2; f3]
      then Some (decimal_value h, decimal_value [m1; m2],
                 decimal_value [s1; s2], decimal_value [f1; f2; f3])
      else None
  | _, _ => None
  end.

(** [n / d] on two ints: the correctly rounded quotient. *)
Definition int_truediv (n d : Z) : result pyfloat :=
  if d =? 0 then Raise (Builtin FloatDivisionByZero)
  else match round64 (Z.sgn d * n * one) (Z.abs d) with
       | Inf _ => Raise (Builtin IntTooLargeForFloat)
       | x => Ok x
       end.

(** [n + x] for an int [n] and a float [x]. *)
Definition int_add_float (n : Z) (x : pyfloat) : result pyfloat :=
  y <- of_int n ;; Ok (fadd y x).

(** Reading a timestamp back into seconds, as the round-trip property
    words it: hours*3600 + minutes*60 + secs + millis/1000. *)
Definition spec_parse_timestamp (t : str) : result pyfloat :=
  match parse_fields t with
  | Some (hours, minutes, secs, millis) =>
      f <- int_truediv millis 1000 ;;
      int_add_float (hours * 3600 + minutes * 60 + secs) f
  | None => Raise (ValueError (u "not a timestamp"))
  end.

(** The timing line of a segment, one SubRip block and one WebVTT cue. *)
Definition timing_line (seg : segment) (use_comma : bool) : result str :=
  s <- format_timestamp (start seg) use_comma ;;
  e <- format_timestamp (end_ seg) use_comma ;;
  Ok (s ++ u " --> " ++ e).

Definition srt_block (i : Z) (seg : segment) : result str :=
  line <- timing_line seg true ;;
  Ok (str_of_int i ++ nl ++ line ++ nl ++ strip (text seg) ++ nl).

Definition vtt_cue (seg : segment) : result str :=
  line <- timing_line seg false ;;
  Ok (line ++ nl ++ strip (text seg) ++ nl).

(** The blocks of a sequence, numbered from [i]. *)
Fixpoint srt_blocks (i : Z) (segments : list segment) : result (list str) :=
  match segments with
  | [] => Ok []
  | seg :: rest =>
      b <- srt_block i seg ;;
      bs <- srt_blocks (i + 1) rest ;;
      Ok (b :: bs)
  end.

Fixpoint vtt_cues (segments : list segment) : result (list str) :=
  match segments with
  | [] => Ok []
  | seg :: rest =>
      c <- vtt_cue seg ;;
      cs <- vtt_cues rest ;;
      Ok (c :: cs)
  end.

(** [p.stem]: the final component without its suffix. *)
Definition stem (p : path) : str :=
  match suffix p with
  | [] => name p
  | _ => slice_to (len (name p) - len (suffix p)) (name p)
  end.

(** A path string in normal form: components that are neither empty nor
    ["."] and hold no slash, joined by single slashes. *)
Definition plain_component (x : str) : bool :=
  is_component x && negb (contains slash x).

Definition canonical_formats : list str := [u "srt"; u "vtt"; u "txt"; u "json"].

(** A non-negative finite double, and one below 2^32 seconds. *)
Definition nonneg_double (x : pyfloat) : bool :=
  match x with
  | Finite a => (0 <=? a) && is_double_abs a
  | _ => false
  end.

Definition short_time (x : pyfloat) : bool :=
  match x with
  | Finite a => (0 <=? a) && is_double_abs a && (a <? 2 ^ 32 * one)
  | _ => false
  end.

(** The number of units of 2^-1074 of a finite double. *)
Definition units (x : pyfloat) : Z :=
  match x with
  | Finite a => a
  | _ => 0
  end.

(** The fields in the words of the description, on the exact value of
    the time: [hours_of], [minutes_of] and [secs_of] are floor(seconds /
    3600), floor((seconds mod 3600) / 60) and floor(seconds mod 60);
    [floor_millis] is floor((seconds - floor(seconds)) * 1000). *)
Definition floor_millis (a : Z) : Z := a mod one * 1000 / one.

(** [f] is the decimal writing of [n] zero-padded to [width]: digits only,
    of value [n], [width] of them or more when [n] needs more. *)
Definition padded (width : nat) (n : Z) (f : str) : bool :=
  all_digits f && (decimal_value f =? n)
  && ((length f =? width)%nat
      || ((width <? length f)%nat && (10 ^ (Z.of_nat (length f) - 1) <=? n))).

(** The two segments of the scenario: 0.0 to 1.5 and 1.5 to 3.25. *)
Definition hello_world : list segment :=
  Eval vm_compute in
    [ mkSegment (of_decimal 0 1) (of_decimal 15 10) (u "Hello");
      mkSegment (of_decimal 15 10) (of_decimal 325 100) (u "World") ].

Definition one_and_a_half : pyfloat := Eval vm_compute in of_decimal 15 10.

(** The double nearest to 0.009, which lies below 0.009. *)
Definition nine_thousandths : pyfloat := Eval vm_compute in of_decimal 9 1000.

(** 360000.001 and 360000.0015: two times of the same second, past one
    hundred hours. *)
Definition hundred_hours : pyfloat :=
  Eval vm_compute in of_decimal 360000001 1000.

Definition hundred_hours_later : pyfloat :=
  Eval vm_compute in of_decimal 3600000015 10000.

Definition hello_world_srt : str :=
  u "1" ++ nl ++ u "00:00:00,000 --> 00:00:01,500" ++ nl ++ u "Hello" ++ nl
  ++ nl
  ++ u "2" ++ nl ++ u "00:00:01,500 --> 00:00:03,250" ++ nl ++ u "World" ++ nl.

Definition hello_world_vtt : str :=
  u "WEBVTT" ++ nl
  ++ nl
  ++ u "00:00:00.000 --> 00:00:01.500" ++ nl ++ u "Hello" ++ nl
  ++ nl
  ++ u "00:00:01.500 --> 00:00:03.250" ++ nl ++ u "World" ++ nl.

(** The same double in the Standard Library's specification of binary64
    ([SpecFloat], precision 53 and maximal exponent 1024). *)
Definition to_spec (x : pyfloat) : spec_float :=
  match x with
  | Finite a =>
      let s := ulp_shift (Z.abs a) in
      match Z.abs a / 2 ^ s with
      | Zpos m => S754_finite (a <? 0) m (s - scale)
      | _ => S754_zero false
      end
  | Inf s => S754_infinity s
  | NaN => S754_nan
  end.

(** Doubles the two models are compared on: 0.009, 0.0015, 1/3 and the
    subnormal 1e-320; sums and quotients the formatter and the reading
    back of a timestamp meet. *)
Definition sample_thousand : pyfloat := Eval vm_compute in of_Z 1000.

Definition sample_fractions : list pyfloat :=
  Eval vm_compute in
    [of_decimal 9 1000; of_decimal 15 10000; of_decimal 1 3;
     of_decimal 1 (10 ^ 320)].

Definition sample_sums : list (pyfloat * pyfloat) :=
  Eval vm_compute in
    [(of_Z 1, of_decimal 1 1000); (of_decimal 36610015 10000, of_Z 3661)].

Definition sample_quotients : list (pyfloat * pyfloat) :=
  Eval vm_compute in
    [(of_Z 1, of_Z 1000); (of_Z (10 ^ 300), of_Z 3600); (of_Z 1, of_Z 3)].

(** 3661.999, 0.009, -0.5, an infinity and a NaN. *)
Definition sample_times : list pyfloat :=
  Eval vm_compute in
    [of_decimal 3661999 1000; of_decimal 9 1000; of_decimal (-5) 10;
     Inf false; NaN].

(** [math.isfinite(x)] *)
Definition is_finite (x : pyfloat) : bool :=
  match x with
  | Finite _ => true
  | _ => false
  end.

(** Both times of a segment are finite. *)
Definition finite_times (seg : segment) : bool :=
  is_finite (start seg) && is_finite (end_ seg).

(** Both times of a segment are binary64 values. *)
Definition double_times (seg : segment) : bool :=
  is_double (start seg) && is_double (end_ seg).

(** The line feed, and a text without one. *)
Definition lf : char := 10%N.

Definition single_line (s : str) : bool := negb (contains lf s).

(** The rows of a SubRip document: for each segment its counter, its
    timing line, its text and an empty row. *)
Fixpoint srt_rows (i : Z) (segments : list segment) : result (list str) :=
  match segments with
  | [] => Ok []
  | seg :: rest =>
      line <- timing_line seg true ;;
      rows <- srt_rows (i + 1) rest ;;
      Ok (str_of_int i :: line :: strip (text seg) :: [] :: rows)
  end.

(** The rows of a WebVTT document after its header: for each segment an
    empty row, its timing line and its text, and an empty row at the
    end. *)
Fixpoint vtt_rows (segments : list segment) : result (list str) :=
  match segments with
  | [] => Ok [[]]
  | seg :: rest =>
      line <- timing_line seg false ;;
      rows <- vtt_rows rest ;;
      Ok ([] :: line :: strip (text seg) :: rows)
  end.

(** Segments used as concrete inputs. *)
(** From 1.5 to 3.25, the text a space, a tab, a newline and an
    ideographic space. *)
Definition blank_segment : segment :=
  Eval vm_compute in
    mkSegment (of_decimal 15 10) (of_decimal 325 100)
      [32%N; 9%N; 10%N; 12288%N].



(** From 1.0015 to 2.0. *)
Definition drifting_segment : segment :=
  Eval vm_compute in
    mkSegment (of_decimal 10015 10000) (of_decimal 2 1) (u "x").

(* ================================================================= *)
(** ** More concrete inputs *)

(** -0.5 and 3.25 *)
Definition minus_half : pyfloat := Eval vm_compute in of_decimal (-5) 10.

Definition three_and_a_quarter : pyfloat := Eval vm_compute in of_decimal 325 100.

(** A segment that ends at an infinity, after the two of the scenario. *)
Definition open_ended : list segment :=
  Eval vm_compute in
    [ mkSegment (of_decimal 0 1) (of_decimal 15 10) (u "Hello");
      mkSegment (of_decimal 15 10) (Inf false) (u "World") ].

(* ================================================================= *)
(** * Properties *)

Module FloatFacts.

Lemma pow2_pos (k : Z) : 0 <= k -> 0 < 2 ^ k.
Proof. intros; apply Z.pow_pos_nonneg; lia. Qed.

Lemma pow2_le (j k : Z) : 0 <= j <= k -> 2 ^ j <= 2 ^ k.
Proof. intros; apply Z.pow_le_mono_r; lia. Qed.

Lemma pow2_split (j k : Z) : 0 <= j <= k -> 2 ^ k = 2 ^ (k - j) * 2 ^ j.
Proof. intros; rewrite <- Z.pow_add_r by lia; f_equal; lia. Qed.

Lemma bitlen_nonneg (n : Z) : 0 <= bitlen n.
Proof.
  unfold bitlen; destruct (n =? 0); [lia|].
  pose proof (Z.log2_nonneg n); lia.
Qed.

Lemma bitlen_lt (n : Z) : 0 <= n -> n < 2 ^ bitlen n.
Proof.
  intros Hn; unfold bitlen; destruct (Z.eqb_spec n 0) as [->|Hz]; [reflexivity|].
  apply Z.log2_spec; lia.
Qed.

Lemma bitlen_ge (n : Z) : 0 < n -> 2 ^ (bitlen n - 1) <= n.
Proof.
  intros Hn; unfold bitlen; destruct (Z.eqb_spec n 0) as [->|Hz]; [lia|].
  replace (Z.log2 n + 1 - 1) with (Z.log2 n) by lia.
  apply Z.log2_spec; lia.
Qed.

Lemma bitlen_le_of_lt (n k : Z) : 0 <= n -> 0 <= k -> n < 2 ^ k -> bitlen n <= k.
Proof.
  intros Hn Hk Hlt; unfold bitlen; destruct (Z.eqb_spec n 0) as [->|Hz]; [lia|].
  assert (Z.log2 n < k) by (apply Z.log2_lt_pow2; lia). lia.
Qed.

Lemma bitlen_mono (a b : Z) : 0 <= a <= b -> bitlen a <= bitlen b.
Proof.
  intros [Ha Hab]; unfold bitlen.
  destruct (Z.eqb_spec a 0) as [->|Hz].
  - destruct (b =? 0); [lia|]. pose proof (Z.log2_nonneg b); lia.
  - destruct (Z.eqb_spec b 0) as [->|Hz']; [lia|].
    pose proof (Z.log2_le_mono a b Hab); lia.
Qed.

Lemma bitlen_mul_pow2 (m k : Z) : 0 < m -> 0 <= k -> bitlen (m * 2 ^ k) = bitlen m + k.
Proof.
  intros Hm Hk; unfold bitlen.
  pose proof (pow2_pos k Hk).
  destruct (Z.eqb_spec (m * 2 ^ k) 0) as [E|_]; [nia|].
  destruct (Z.eqb_spec m 0) as [E|_]; [lia|].
  rewrite Z.log2_mul_pow2 by lia. lia.
Qed.

Lemma ulp_shift_nonneg (a : Z) : 0 <= ulp_shift a.
Proof. unfold ulp_shift; lia. Qed.

Lemma ulp_shift_mono (a b : Z) : 0 <= a <= b -> ulp_shift a <= ulp_shift b.
Proof. intros H; unfold ulp_shift; pose proof (bitlen_mono a b H); lia. Qed.

(** *** Rounding a quotient to the nearest integer *)

Lemma rhe_unfold (n d : Z) :
  round_half_even n d
  = if 2 * (n mod d) <? d then n / d
    else if d <? 2 * (n mod d) then n / d + 1
    else if Z.even (n / d) then n / d else n / d + 1.
Proof.
  unfold round_half_even, Z.div, Z.modulo.
  destruct (Z.div_eucl n d); reflexivity.
Qed.

Lemma rne_unfold (n d : Z) :
  rne n d
  = round_half_even n (d * 2 ^ ulp_shift (n / d)) * 2 ^ ulp_shift (n / d).
Proof. reflexivity. Qed.

Lemma rhe_cases (n d : Z) :
  round_half_even n d = n / d \/ round_half_even n d = n / d + 1.
Proof.
  rewrite rhe_unfold.
  destruct (2 * (n mod d) <? d); [now left|].
  destruct (d <? 2 * (n mod d)); [now right|].
  destruct (Z.even (n / d)); [now left|now right].
Qed.

Lemma rhe_exact (k d : Z) : 0 < d -> round_half_even (k * d) d = k.
Proof.
  intros Hd; rewrite rhe_unfold.
  rewrite Z.mod_mul, Z.div_mul by lia.
  destruct (Z.ltb_spec (2 * 0) d); [reflexivity|lia].
Qed.

Lemma rhe_mono (n1 n2 d : Z) :
  0 < d -> n1 <= n2 -> round_half_even n1 d <= round_half_even n2 d.
Proof.
  intros Hd Hle.
  pose proof (Z.div_le_mono n1 n2 d Hd Hle) as Hq.
  pose proof (Z.div_mod n1 d ltac:(lia)) as E1.
  pose proof (Z.div_mod n2 d ltac:(lia)) as E2.
  pose proof (Z.mod_pos_bound n1 d Hd) as B1.
  pose proof (Z.mod_pos_bound n2 d Hd) as B2.
  destruct (Z.eq_dec (n1 / d) (n2 / d)) as [Heq|Hne].
  - rewrite !rhe_unfold. rewrite Heq in *.
    assert (n1 mod d <= n2 mod d) by nia.
    destruct (Z.ltb_spec (2 * (n1 mod d)) d), (Z.ltb_spec (2 * (n2 mod d)) d),
      (Z.ltb_spec d (2 * (n1 mod d))), (Z.ltb_spec d (2 * (n2 mod d)));
      destruct (Z.even (n2 / d)); lia.
  - destruct (rhe_cases n1 d) as [-> | ->], (rhe_cases n2 d) as [-> | ->]; lia.
Qed.

Lemma rhe_scale (n d c : Z) :
  0 < d -> 0 < c -> round_half_even (n * c) (d * c) = round_half_even n d.
Proof.
  intros Hd Hc; rewrite !rhe_unfold.
  rewrite Z.div_mul_cancel_r by lia.
  rewrite Z.mul_mod_distr_r by lia.
  destruct (Z.ltb_spec (2 * (n mod d * c)) (d * c)), (Z.ltb_spec (2 * (n mod d)) d);
    try nia; try reflexivity.
  destruct (Z.ltb_spec (d * c) (2 * (n mod d * c))), (Z.ltb_spec d (2 * (n mod d)));
    try nia; reflexivity.
Qed.

Lemma rhe_cross (n1 d1 n2 d2 : Z) :
  0 < d1 -> 0 < d2 -> n1 * d2 <= n2 * d1 ->
  round_half_even n1 d1 <= round_half_even n2 d2.
Proof.
  intros H1 H2 Hle.
  rewrite <- (rhe_scale n1 d1 d2), <- (rhe_scale n2 d2 d1) by lia.
  replace (d2 * d1) with (d1 * d2) by lia.
  apply rhe_mono; nia.
Qed.

Lemma rhe_ge (k n d : Z) : 0 < d -> k * d <= n -> k <= round_half_even n d.
Proof.
  intros Hd H. rewrite <- (rhe_exact k d Hd). now apply rhe_mono.
Qed.

Lemma rhe_le (k n d : Z) : 0 < d -> n <= k * d -> round_half_even n d <= k.
Proof.
  intros Hd H. rewrite <- (rhe_exact k d Hd). now apply rhe_mono.
Qed.

(** *** Rounding to 53 significant bits *)

Lemma rne_nonneg (n d : Z) : 0 <= n -> 0 < d -> 0 <= rne n d.
Proof.
  intros Hn Hd; rewrite rne_unfold.
  pose proof (pow2_pos _ (ulp_shift_nonneg (n / d))) as Hp.
  assert (0 <= round_half_even n (d * 2 ^ ulp_shift (n / d))).
  { apply rhe_ge; nia. }
  nia.
Qed.

Lemma rne_scale (n d c : Z) : 0 < d -> 0 < c -> rne (n * c) (d * c) = rne n d.
Proof.
  intros Hd Hc; rewrite !rne_unfold.
  rewrite Z.div_mul_cancel_r by lia.
  set (s := ulp_shift (n / d)).
  pose proof (pow2_pos _ (ulp_shift_nonneg (n / d))) as Hp. fold s in Hp.
  replace (d * c * 2 ^ s) with (d * 2 ^ s * c) by lia.
  rewrite rhe_scale by nia. reflexivity.
Qed.

(** A value with at most 53 significant bits is not changed. *)
Lemma rne_exact (a : Z) : 0 <= a -> a mod 2 ^ ulp_shift a = 0 -> rne a 1 = a.
Proof.
  intros Ha Hm; rewrite rne_unfold. rewrite Z.div_1_r, Z.mul_1_l.
  set (s := ulp_shift a) in *.
  pose proof (pow2_pos _ (ulp_shift_nonneg a)) as Hp. fold s in Hp.
  pose proof (Z.div_mod a (2 ^ s) ltac:(lia)) as E. rewrite Hm in E.
  replace a with (a / 2 ^ s * 2 ^ s) at 1 by lia.
  rewrite rhe_exact by lia. lia.
Qed.

(** Rounding is monotone: the order of two exact values is kept. *)
Lemma rne_mono (n1 d1 n2 d2 : Z) :
  0 <= n1 -> 0 < d1 -> 0 < d2 -> n1 * d2 <= n2 * d1 -> rne n1 d1 <= rne n2 d2.
Proof.
  intros Hn1 Hd1 Hd2 Hle.
  assert (Hn2 : 0 <= n2) by nia.
  assert (Hf1 : 0 <= n1 / d1) by (apply Z.div_pos; lia).
  assert (Hf : n1 / d1 <= n2 / d2).
  { apply Z.div_le_lower_bound; [lia|].
    pose proof (Z.mul_div_le n1 d1 Hd1).
    assert (d1 * (d2 * (n1 / d1)) <= d1 * n2) by nia.
    nia. }
  pose proof (ulp_shift_mono _ _ (conj Hf1 Hf)) as Hs.
  rewrite !rne_unfold.
  set (s1 := ulp_shift (n1 / d1)) in *. set (s2 := ulp_shift (n2 / d2)) in *.
  assert (Hs1 : 0 <= s1) by apply ulp_shift_nonneg.
  pose proof (pow2_pos s1 Hs1) as Hp1.
  assert (Hp2 : 0 < 2 ^ s2) by (apply pow2_pos; lia).
  destruct (Z.eq_dec s1 s2) as [E|NE].
  - rewrite <- E. apply Z.mul_le_mono_nonneg_r; [lia|].
    apply rhe_cross; nia.
  - (* the two values lie in different binades *)
    assert (Hlt : s1 < s2) by lia.
    assert (Hb2 : bitlen (n2 / d2) = s2 + prec) by (unfold s2, ulp_shift in *; lia).
    assert (Hb1 : bitlen (n1 / d1) <= s1 + prec) by (unfold s1, ulp_shift; lia).
    assert (Hpos2 : 0 < n2 / d2).
    { destruct (Z.eq_dec (n2 / d2) 0) as [Z0|]; [|lia].
      rewrite Z0 in Hb2; unfold bitlen in Hb2; simpl in Hb2; unfold prec in *; lia. }
    pose proof (bitlen_ge _ Hpos2) as Hlow. rewrite Hb2 in Hlow.
    pose proof (bitlen_lt _ Hf1) as Hup.
    assert (Hup' : n1 / d1 < 2 ^ (s1 + prec)).
    { eapply Z.lt_le_trans; [exact Hup|]. apply pow2_le. pose proof (bitlen_nonneg (n1 / d1)). lia. }
    (* upper bound of the lower value *)
    assert (U1 : round_half_even n1 (d1 * 2 ^ s1) * 2 ^ s1 <= 2 ^ (s1 + prec)).
    { rewrite (pow2_split s1 (s1 + prec)) by (unfold prec; lia).
      apply Z.mul_le_mono_nonneg_r; [lia|].
      apply rhe_le; [nia|].
      replace (s1 + prec - s1) with prec by lia.
      assert (n1 < d1 * 2 ^ (s1 + prec)).
      { pose proof (Z.mul_succ_div_gt n1 d1 Hd1). nia. }
      rewrite (pow2_split s1 (s1 + prec)) in H by (unfold prec; lia).
      replace (s1 + prec - s1) with prec in H by lia. nia. }
    (* lower bound of the higher value *)
    assert (L2 : 2 ^ (s2 + prec - 1) <= round_half_even n2 (d2 * 2 ^ s2) * 2 ^ s2).
    { rewrite (pow2_split s2 (s2 + prec - 1)) by (unfold prec; lia).
      apply Z.mul_le_mono_nonneg_r; [lia|].
      apply rhe_ge; [nia|].
      replace (s2 + prec - 1 - s2) with (prec - 1) by lia.
      assert (d2 * 2 ^ (s2 + prec - 1) <= n2).
      { pose proof (Z.mul_div_le n2 d2 Hd2). nia. }
      rewrite (pow2_split s2 (s2 + prec - 1)) in H by (unfold prec; lia).
      replace (s2 + prec - 1 - s2) with (prec - 1) in H by lia. nia. }
    assert (2 ^ (s1 + prec) <= 2 ^ (s2 + prec - 1)) by (apply pow2_le; unfold prec; lia).
    lia.
Qed.

End FloatFacts.

Import FloatFacts.

Module RepFacts.

Lemma one_eq : one = 2 ^ 1074.
Proof. reflexivity. Qed.

Lemma one_pos : 0 < one.
Proof. unfold one, scale; apply pow2_pos; lia. Qed.

Lemma rep_nonneg (a : Z) : rep a -> 0 <= a.
Proof.
  intros (m & k & Hk & Hm & ->). pose proof (pow2_pos k Hk). nia.
Qed.

Lemma rep_0 : rep 0.
Proof. exists 0, 0; unfold prec; simpl; lia. Qed.

Lemma rep_mod_ulp (a : Z) : rep a -> a mod 2 ^ ulp_shift a = 0.
Proof.
  intros (m & k & Hk & Hm & ->).
  destruct (Z.eq_dec m 0) as [->|Hm0]; [rewrite Z.mul_0_l; apply Zmod_0_l|].
  assert (Hs : ulp_shift (m * 2 ^ k) <= k).
  { unfold ulp_shift. rewrite bitlen_mul_pow2 by lia.
    assert (bitlen m <= prec) by (apply bitlen_le_of_lt; unfold prec in *; lia).
    lia. }
  pose proof (ulp_shift_nonneg (m * 2 ^ k)) as Hs0.
  set (s := ulp_shift (m * 2 ^ k)) in *.
  rewrite (pow2_split s k) by lia.
  rewrite Z.mul_assoc. apply Z.mod_mul.
  pose proof (pow2_pos _ Hs0); lia.
Qed.

Lemma rep_rne (a : Z) : rep a -> rne a 1 = a.
Proof.
  intros H; apply rne_exact; [now apply rep_nonneg|now apply rep_mod_ulp].
Qed.

Lemma is_double_abs_rep (a : Z) : 0 <= a -> is_double_abs a = true -> rep a.
Proof.
  intros Ha H; unfold is_double_abs in H.
  apply andb_true_iff in H as [Hm _]. apply Z.eqb_eq in Hm.
  set (s := ulp_shift a) in *.
  assert (Hs : 0 <= s) by apply ulp_shift_nonneg.
  pose proof (pow2_pos s Hs) as Hp.
  exists (a / 2 ^ s), s. split; [lia|]. split.
  - split; [apply Z.div_pos; lia|].
    apply Z.div_lt_upper_bound; [lia|].
    pose proof (bitlen_lt a Ha) as Hlt.
    eapply Z.lt_le_trans; [exact Hlt|].
    rewrite <- Z.pow_add_r by (unfold prec; lia).
    apply pow2_le. pose proof (bitlen_nonneg a). unfold s, ulp_shift; lia.
  - pose proof (Z.div_mod a (2 ^ s) ltac:(lia)). lia.
Qed.

Lemma rep_is_double_abs (a : Z) :
  rep a -> a < overflow_threshold -> is_double_abs a = true.
Proof.
  intros H Hlt; unfold is_double_abs.
  rewrite (rep_mod_ulp a H). apply andb_true_iff; split; [reflexivity|].
  now apply Z.ltb_lt.
Qed.

(** The result of a rounding has a 53-bit significand. *)
Lemma rne_rep (n d : Z) : 0 <= n -> 0 < d -> rep (rne n d).
Proof.
  intros Hn Hd; rewrite rne_unfold.
  set (s := ulp_shift (n / d)).
  assert (Hs : 0 <= s) by apply ulp_shift_nonneg.
  pose proof (pow2_pos s Hs) as Hp.
  assert (Hf : 0 <= n / d) by (apply Z.div_pos; lia).
  assert (Hup : n < d * 2 ^ (s + prec)).
  { pose proof (bitlen_lt _ Hf) as Hlt.
    assert (2 ^ bitlen (n / d) <= 2 ^ (s + prec)).
    { apply pow2_le. pose proof (bitlen_nonneg (n / d)). unfold s, ulp_shift; lia. }
    pose proof (Z.mul_succ_div_gt n d Hd). nia. }
  assert (Hr : round_half_even n (d * 2 ^ s) <= 2 ^ prec).
  { apply rhe_le; [nia|].
    rewrite (pow2_split s (s + prec)) in Hup by (unfold prec; lia).
    replace (s + prec - s) with prec in Hup by lia. nia. }
  assert (Hr0 : 0 <= round_half_even n (d * 2 ^ s)) by (apply rhe_ge; nia).
  destruct (Z.eq_dec (round_half_even n (d * 2 ^ s)) (2 ^ prec)) as [E|NE].
  - rewrite E. exists 1, (prec + s). split; [unfold prec; lia|].
    split; [unfold prec; simpl; lia|].
    rewrite Z.pow_add_r by (unfold prec; lia). lia.
  - exists (round_half_even n (d * 2 ^ s)), s. repeat split; lia.
Qed.

Lemma rep_mul_one (n : Z) : 0 <= n < 2 ^ prec -> rep (n * one).
Proof. intros H; exists n, scale; unfold scale, one; repeat split; lia. Qed.

Lemma rep_floor (a : Z) : rep a -> rep (a / one * one).
Proof.
  intros (m & k & Hk & Hm & ->).
  destruct (Z.le_gt_cases scale k) as [Hge|Hlt].
  - replace (m * 2 ^ k / one * one) with (m * 2 ^ k).
    + exists m, k; repeat split; lia.
    + unfold one. rewrite (pow2_split scale k) by (unfold scale in *; lia).
      rewrite Z.mul_assoc, Z.div_mul by (pose proof one_pos; unfold one in *; lia).
      reflexivity.
  - exists (m / 2 ^ (scale - k)), scale.
    assert (Hp : 0 < 2 ^ (scale - k)) by (apply pow2_pos; lia).
    pose proof (pow2_pos k Hk) as Hpk.
    split; [unfold scale; lia|]. split.
    + split; [apply Z.div_pos; lia|].
      apply Z.div_lt_upper_bound; [lia|]. nia.
    + unfold one. rewrite (pow2_split k scale) by lia.
      rewrite Z.div_mul_cancel_r by lia. reflexivity.
Qed.

Lemma rep_frac (a : Z) : rep a -> rep (a mod one).
Proof.
  intros (m & k & Hk & Hm & ->).
  destruct (Z.le_gt_cases scale k) as [Hge|Hlt].
  - replace (m * 2 ^ k mod one) with 0; [apply rep_0|].
    unfold one. rewrite (pow2_split scale k) by (unfold scale in *; lia).
    rewrite Z.mul_assoc, Z.mod_mul by (pose proof one_pos; unfold one in *; lia).
    reflexivity.
  - exists (m mod 2 ^ (scale - k)), k.
    assert (Hp : 0 < 2 ^ (scale - k)) by (apply pow2_pos; lia).
    pose proof (pow2_pos k Hk) as Hpk.
    pose proof (Z.mod_pos_bound m _ Hp).
    pose proof (Z.mod_le m _ ltac:(lia) Hp).
    split; [lia|]. split; [lia|].
    unfold one. rewrite (pow2_split k scale) by lia.
    rewrite Z.mul_mod_distr_r by lia. reflexivity.
Qed.

(** *** Rounded results of non-negative exact values *)

Lemma rne_0 (d : Z) : 0 < d -> rne 0 d = 0.
Proof.
  intros Hd. pose proof (rne_nonneg 0 d ltac:(lia) Hd).
  pose proof (rne_mono 0 d 0 1 ltac:(lia) Hd ltac:(lia) ltac:(lia)).
  rewrite (rep_rne 0 rep_0) in H0. lia.
Qed.

Lemma round64_nonneg (n d : Z) :
  0 <= n -> 0 < d -> rne n d < overflow_threshold ->
  round64 n d = Finite (rne n d).
Proof.
  intros Hn Hd Hlt; unfold round64.
  rewrite (Z.abs_eq n Hn).
  destruct (Z.leb_spec overflow_threshold (rne n d)); [lia|].
  f_equal. destruct (Z.eq_dec n 0) as [->|Hnz].
  - rewrite rne_0 by lia. reflexivity.
  - rewrite Z.sgn_pos by lia. lia.
Qed.

Lemma round64_exact (a : Z) :
  rep a -> a < overflow_threshold -> round64 a 1 = Finite a.
Proof.
  intros Hr Hlt. rewrite round64_nonneg; rewrite ?(rep_rne a Hr); auto.
  - now apply rep_nonneg.
  - lia.
Qed.

Lemma round64_le (n d B : Z) :
  0 <= n -> 0 < d -> rep B -> B < overflow_threshold -> n <= B * d ->
  round64 n d = Finite (rne n d) /\ 0 <= rne n d <= B.
Proof.
  intros Hn Hd HB Hlt Hle.
  assert (rne n d <= B).
  { rewrite <- (rep_rne B HB). apply rne_mono; lia. }
  pose proof (rne_nonneg n d Hn Hd).
  split; [apply round64_nonneg; lia | lia].
Qed.

Lemma rne_ge (n d L : Z) : 0 < d -> rep L -> L * d <= n -> L <= rne n d.
Proof.
  intros Hd HL Hle. rewrite <- (rep_rne L HL) at 1.
  apply rne_mono; try lia. now apply rep_nonneg.
Qed.

Lemma rne_le (n d B : Z) : 0 <= n -> 0 < d -> rep B -> n <= B * d -> rne n d <= B.
Proof.
  intros Hn Hd HB Hle. rewrite <- (rep_rne B HB).
  apply rne_mono; lia.
Qed.

Lemma fsub_finite (a b : Z) : fsub (Finite a) (Finite b) = round64 (a - b) 1.
Proof. unfold fsub, fneg, fadd. now rewrite Z.add_opp_r. Qed.

Lemma small_lt_overflow (n : Z) : 0 <= n <= 2 ^ 54 -> n * one < overflow_threshold.
Proof.
  intros H. unfold overflow_threshold.
  replace (2 ^ (1024 + scale)) with (2 ^ 1024 * one)
    by (unfold one; rewrite <- Z.pow_add_r by (unfold scale; lia); reflexivity).
  pose proof one_pos.
  apply Z.mul_lt_mono_pos_r; [lia|].
  assert (2 ^ 54 < 2 ^ 1024) by (apply Z.pow_lt_mono_r; lia).
  lia.
Qed.

(** An integer below 2^53 is converted without rounding. *)
Lemma of_int_exact (n : Z) : 0 <= n < 2 ^ prec -> of_int n = Ok (Finite (n * one)).
Proof.
  intros H. unfold of_int, of_Z.
  rewrite round64_exact; [reflexivity|now apply rep_mul_one|].
  apply small_lt_overflow. unfold prec in H.
  assert (2 ^ 53 <= 2 ^ 54) by (apply pow2_le; lia). lia.
Qed.

End RepFacts.

Import RepFacts.

Module FormatFacts.

#[local] Opaque one overflow_threshold.

Lemma round64_scale (n d c : Z) :
  0 <= n -> 0 < d -> 0 < c -> round64 (n * c) (d * c) = round64 n d.
Proof.
  intros Hn Hd Hc; unfold round64.
  rewrite !Z.abs_eq by nia. rewrite rne_scale by lia.
  replace (n * c <? 0) with (n <? 0)
    by (destruct (Z.ltb_spec n 0), (Z.ltb_spec (n * c) 0); try reflexivity; nia).
  replace (Z.sgn (n * c)) with (Z.sgn n); [reflexivity|].
  rewrite Z.sgn_mul, (Z.sgn_pos c) by lia. lia.
Qed.

Lemma mod_int_nonneg (a n : Z) :
  0 <= a -> 0 < n < 2 ^ prec ->
  mod_int (Finite a) n = Ok (Finite (a mod (n * one))).
Proof.
  intros Ha Hn. pose proof one_pos as H1.
  assert (Hb : 0 < n * one) by nia.
  unfold mod_int. rewrite of_int_exact by lia. cbn [bind nonzero].
  destruct (Z.eqb_spec (n * one) 0) as [E|_]; [lia|]. cbn [negb fmod].
  destruct (Z.eqb_spec (n * one) 0) as [E|_]; [lia|].
  rewrite Z.rem_mod_nonneg by lia.
  pose proof (Z.mod_pos_bound a (n * one) Hb) as Hm.
  cbn [nonzero flt].
  destruct (Z.eqb_spec (a mod (n * one)) 0) as [E|NE]; cbn [negb].
  - now rewrite E.
  - destruct (Z.ltb_spec (n * one) 0); [lia|].
    destruct (Z.ltb_spec (a mod (n * one)) 0); [lia|]. reflexivity.
Qed.

(** The quotient is exact as long as it fits the significand. *)
Lemma floordiv_int_exact (a n : Z) :
  0 <= a -> 0 < n < 2 ^ prec -> a / (n * one) * n < 2 ^ prec ->
  floordiv_int (Finite a) n = Ok (Finite (a / (n * one) * one)).
Proof.
  intros Ha Hn Hq. pose proof one_pos as H1.
  assert (Hb : 0 < n * one) by nia.
  set (q := a / (n * one)) in *.
  assert (Hq0 : 0 <= q) by (apply Z.div_pos; lia).
  assert (Hqn : 0 <= q * n) by nia.
  assert (Hq53 : q < 2 ^ prec) by nia.
  assert (P54 : 2 ^ prec <= 2 ^ 54) by (apply pow2_le; unfold prec; lia).
  unfold floordiv_int. rewrite of_int_exact by lia. cbn [bind nonzero].
  destruct (Z.eqb_spec (n * one) 0) as [E|_]; [lia|]. cbn [negb].
  unfold float_div_mod. cbn [fmod].
  destruct (Z.eqb_spec (n * one) 0) as [E|_]; [lia|].
  rewrite Z.rem_mod_nonneg by lia.
  pose proof (Z.mod_pos_bound a (n * one) Hb) as Hm.
  pose proof (Z.div_mod a (n * one) ltac:(lia)) as Hdm. fold q in Hdm.
  rewrite fsub_finite.
  replace (a - a mod (n * one)) with (q * n * one) by lia.
  rewrite round64_exact;
    [| apply rep_mul_one; lia | apply small_lt_overflow; lia].
  cbn [fdiv].
  destruct (Z.eqb_spec (n * one) 0) as [E|_]; [lia|].
  rewrite Z.sgn_pos, Z.abs_eq, Z.mul_1_l by lia.
  replace (round64 (q * n * one * one) (n * one)) with (round64 (q * one) 1)
    by (rewrite <- (round64_scale (q * one) 1 (n * one)) by nia; f_equal; lia).
  rewrite round64_exact;
    [| apply rep_mul_one; lia | apply small_lt_overflow; lia].
  assert (Hsel : (if nonzero (Finite (a mod (n * one)))
                  then if xorb (flt (Finite (n * one)) (Finite 0))
                               (flt (Finite (a mod (n * one))) (Finite 0))
                       then (fadd (Finite (a mod (n * one))) (Finite (n * one)),
                             fsub (Finite (q * one)) (Finite one))
                       else (Finite (a mod (n * one)), Finite (q * one))
                  else (Finite 0, Finite (q * one)))
                 = (Finite (a mod (n * one)), Finite (q * one))).
  { cbn [nonzero flt].
    destruct (Z.eqb_spec (a mod (n * one)) 0) as [E|NE]; cbn [negb].
    - now rewrite E.
    - destruct (Z.ltb_spec (n * one) 0); [lia|].
      destruct (Z.ltb_spec (a mod (n * one)) 0); [lia|]. reflexivity. }
  rewrite Hsel. cbn [nonzero fst].
  destruct (Z.eqb_spec (q * one) 0) as [E|NE]; cbn [negb].
  - now rewrite E.
  - cbn [ffloor]. rewrite Z.div_mul by lia.
    rewrite fsub_finite, Z.sub_diag.
    rewrite round64_exact; [| apply rep_0 | apply (small_lt_overflow 0); lia].
    cbn [flt]. destruct (Z.ltb_spec (one / 2) 0) as [L|_]; [|reflexivity].
    pose proof (Z.div_pos one 2 ltac:(lia) ltac:(lia)). lia.
Qed.

End FormatFacts.

Import FormatFacts.

Module FieldFacts.

(** The largest product of a fraction of a second by 1000, rounded. *)
Lemma rne_top_frac :
  rne ((one - 2 ^ (scale - prec)) * 1000) 1 = 1000 * one - 2 ^ (scale - prec + 10).
Proof. vm_compute. reflexivity. Qed.

#[local] Opaque one overflow_threshold.

Lemma rep_below_pow2 (f K : Z) :
  rep f -> prec <= K -> f < 2 ^ K -> f <= 2 ^ K - 2 ^ (K - prec).
Proof.
  intros (m & k & Hk & Hm & ->) HK Hlt.
  pose proof (pow2_pos k Hk) as Hpk.
  assert (HP : 0 <= prec) by (unfold prec; lia).
  destruct (Z.le_gt_cases (K - prec) k) as [Hge|Hsmall].
  - destruct (Z.le_gt_cases k K) as [HkK|HkK].
    + rewrite (pow2_split k K) in * by lia.
      assert (0 < 2 ^ (K - k)) by (apply pow2_pos; lia).
      assert (m < 2 ^ (K - k)) by nia.
      assert (2 ^ (K - prec) <= 2 ^ k) by (apply pow2_le; lia).
      nia.
    + assert (2 ^ K <= 2 ^ k) by (apply pow2_le; lia).
      assert (m = 0) by nia. subst m.
      assert (2 ^ (K - prec) <= 2 ^ K) by (apply pow2_le; lia). lia.
  - assert (2 ^ (prec + k) <= 2 ^ (K - 1)) by (apply pow2_le; lia).
    rewrite Z.pow_add_r in H by lia.
    assert (2 ^ (K - prec) <= 2 ^ (K - 1)) by (apply pow2_le; unfold prec in *; lia).
    assert (2 ^ K = 2 * 2 ^ (K - 1)).
    { replace K with (1 + (K - 1)) at 1 by lia.
      rewrite Z.pow_add_r by (unfold prec in *; lia). reflexivity. }
    nia.
Qed.

Lemma rep_large_multiple (e : Z) : rep e -> 2 ^ prec * one <= e -> e mod one = 0.
Proof.
  intros (m & k & Hk & Hm & ->) Hge.
  pose proof (pow2_pos k Hk) as Hpk. pose proof one_pos as H1.
  destruct (Z.le_gt_cases k scale) as [Hle|Hgt].
  - exfalso. assert (2 ^ k <= one).
    { rewrite one_eq. apply pow2_le; unfold scale in *; lia. }
    nia.
  - rewrite one_eq.
    rewrite (pow2_split 1074 k) by (unfold scale in *; lia).
    rewrite Z.mul_assoc. apply Z.mod_mul.
    pose proof (pow2_pos 1074 ltac:(lia)). lia.
Qed.

Lemma one_lt_overflow : one < overflow_threshold.
Proof. pose proof (small_lt_overflow 1 ltac:(lia)). lia. Qed.

Lemma rep_pow2_one (j : Z) : 0 <= j -> rep (2 ^ j * one).
Proof.
  intros Hj. exists 1, (j + scale). split; [unfold scale; lia|].
  split; [unfold prec; simpl; lia|].
  rewrite one_eq. unfold scale.
  rewrite Z.pow_add_r by lia. lia.
Qed.

(** [int(x)] of a non-negative time. *)
Lemma to_int_nonneg (a : Z) : 0 <= a -> to_int (Finite a) = Ok (a / one).
Proof.
  intros Ha; unfold to_int. pose proof one_pos.
  now rewrite Z.quot_div_nonneg by lia.
Qed.

(** [seconds - int(seconds)] is the exact fraction. *)
Lemma sub_int_whole (a : Z) :
  rep a -> a < overflow_threshold ->
  sub_int (Finite a) (a / one) = Ok (Finite (a mod one)).
Proof.
  intros Hr Hlt. pose proof one_pos as H1. pose proof (rep_nonneg a Hr) as Ha.
  pose proof (Z.mod_pos_bound a one H1) as Hm.
  pose proof (Z.div_mod a one ltac:(lia)) as Hdm.
  unfold sub_int, of_int, of_Z.
  rewrite round64_exact; [| now apply rep_floor | nia].
  cbn [bind]. rewrite fsub_finite.
  replace (a - a / one * one) with (a mod one) by lia.
  rewrite round64_exact; [reflexivity | now apply rep_frac |].
  pose proof one_lt_overflow. lia.
Qed.

(** The product by 1000 stays below 1000. *)
Lemma mul_int_frac (f : Z) :
  rep f -> f < one ->
  mul_int (Finite f) 1000 = Ok (Finite (rne (f * 1000) 1))
  /\ 0 <= rne (f * 1000) 1 < 1000 * one.
Proof.
  intros Hr Hlt. pose proof one_pos as H1. pose proof (rep_nonneg f Hr) as Hf.
  assert (Hmax : f <= one - 2 ^ (scale - prec)).
  { rewrite one_eq in *. change (scale - prec) with (1074 - prec).
    apply rep_below_pow2; auto. unfold prec; lia. }
  assert (Hb : rne (f * 1000) 1 <= 1000 * one - 2 ^ (scale - prec + 10)).
  { rewrite <- rne_top_frac. apply rne_mono; lia. }
  assert (Hp : 0 < 2 ^ (scale - prec + 10)) by (apply pow2_pos; unfold scale, prec; lia).
  pose proof (rne_nonneg (f * 1000) 1 ltac:(lia) ltac:(lia)) as H0.
  split; [|lia].
  unfold mul_int. rewrite of_int_exact by (unfold prec; lia).
  cbn [bind fmul].
  replace (round64 (f * (1000 * one)) one) with (round64 (f * 1000) 1)
    by (rewrite <- (round64_scale (f * 1000) 1 one) by lia; f_equal; lia).
  rewrite round64_nonneg; [reflexivity | lia | lia |].
  pose proof (small_lt_overflow 1000 ltac:(lia)). lia.
Qed.

(** The quotient by 3600 of any non-negative double. *)
Lemma floordiv_3600 (a : Z) :
  rep a -> a < overflow_threshold ->
  exists h, floordiv_int (Finite a) 3600 = Ok (Finite h) /\ 0 <= h
            /\ (a < 2 ^ prec * one -> h = a / (3600 * one) * one)
            /\ (2 ^ prec * one <= a -> 2 ^ 40 * one <= h).
Proof.
  intros Hr Hlt. pose proof one_pos as H1. pose proof (rep_nonneg a Hr) as Ha.
  assert (P53 : 2 ^ prec = 9007199254740992) by reflexivity.
  assert (P40 : 2 ^ 40 = 1099511627776) by reflexivity.
  assert (P52 : 2 ^ 52 = 4503599627370496) by reflexivity.
  assert (P54 : 2 ^ 54 = 18014398509481984) by reflexivity.
  destruct (Z.lt_ge_cases a (2 ^ prec * one)) as [Hsmall|Hbig].
  - (* every step is exact *)
    assert (Hq : a / (3600 * one) * 3600 < 2 ^ prec).
    { pose proof (Z.mul_div_le a (3600 * one) ltac:(lia)). nia. }
    exists (a / (3600 * one) * one).
    rewrite floordiv_int_exact by lia.
    split; [reflexivity|]. split; [|split; [reflexivity|lia]].
    assert (0 <= a / (3600 * one)) by (apply Z.div_pos; lia). nia.
  - set (b := 3600 * one). assert (Hb : 0 < b) by (unfold b; lia).
    pose proof (Z.mod_pos_bound a b Hb) as Hm.
    pose proof (Z.mod_le a b Ha Hb) as Hml.
    unfold floordiv_int. rewrite of_int_exact by lia. fold b.
    cbn [bind nonzero].
    destruct (Z.eqb_spec b 0) as [E|_]; [lia|]. cbn [negb].
    unfold float_div_mod. cbn [fmod].
    destruct (Z.eqb_spec b 0) as [E|_]; [lia|].
    rewrite Z.rem_mod_nonneg by lia.
    rewrite fsub_finite.
    (* c = fl(a - r) *)
    destruct (round64_le (a - a mod b) 1 a) as [Ec Hc]; try lia; auto.
    set (c := rne (a - a mod b) 1) in *. rewrite Ec.
    assert (Hcr : rep c) by (apply rne_rep; lia).
    assert (Hclow : 2 ^ 52 * one <= c).
    { apply rne_ge; [lia | apply rep_mul_one; lia | unfold b in *; lia]. }
    (* e = fl(c / b) *)
    cbn [fdiv]. destruct (Z.eqb_spec b 0) as [E|_]; [lia|].
    rewrite Z.sgn_pos, Z.abs_eq, Z.mul_1_l by lia.
    assert (Hco : 0 <= c * one) by nia.
    destruct (round64_le (c * one) b c) as [Ee He];
      [lia | lia | assumption | lia | unfold b; lia |].
    set (e := rne (c * one) b) in *. rewrite Ee.
    assert (Her : rep e) by (apply rne_rep; lia).
    assert (Helow : 2 ^ 40 * one <= e).
    { apply rne_ge; [lia | apply rep_mul_one; lia |].
      assert (2 ^ 52 * one * one <= c * one) by (apply Z.mul_le_mono_nonneg_r; lia).
      unfold b. rewrite P40. rewrite P52 in H. lia. }
    assert (Hsel : (if nonzero (Finite (a mod b))
                    then if xorb (flt (Finite b) (Finite 0))
                                 (flt (Finite (a mod b)) (Finite 0))
                         then (fadd (Finite (a mod b)) (Finite b),
                               fsub (Finite e) (Finite one))
                         else (Finite (a mod b), Finite e)
                    else (Finite 0, Finite e))
                   = (Finite (a mod b), Finite e)).
    { cbn [nonzero flt].
      destruct (Z.eqb_spec (a mod b) 0) as [E|NE]; cbn [negb].
      - now rewrite E.
      - destruct (Z.ltb_spec b 0); [lia|].
        destruct (Z.ltb_spec (a mod b) 0); [lia|]. reflexivity. }
    rewrite Hsel. cbn [nonzero fst].
    destruct (Z.eqb_spec e 0) as [E|NE]; [lia|]. cbn [negb ffloor].
    pose proof (Z.mod_pos_bound e one H1) as Hem.
    pose proof (Z.div_mod e one ltac:(lia)) as Hedm.
    assert (Hfl : 2 ^ 40 * one <= e / one * one).
    { assert (2 ^ 40 <= e / one) by (apply Z.div_le_lower_bound; lia). nia. }
    rewrite fsub_finite.
    replace (e - e / one * one) with (e mod one) by lia.
    rewrite round64_exact;
      [| now apply rep_frac | pose proof one_lt_overflow; lia].
    cbn [flt].
    destruct (Z.ltb_spec (one / 2) (e mod one)) as [Hup|Hdown].
    + (* the quotient was not integral: it is below 2^53 *)
      assert (Hesmall : e < 2 ^ prec * one).
      { destruct (Z.lt_ge_cases e (2 ^ prec * one)); [assumption|].
        pose proof (rep_large_multiple e Her ltac:(lia)).
        pose proof (Z.div_pos one 2 ltac:(lia) ltac:(lia)). lia. }
      cbn [fadd].
      destruct (round64_le (e / one * one + one) 1 (2 ^ 54 * one)) as [Eh Hh];
        try lia.
      * apply rep_pow2_one; lia.
      * apply small_lt_overflow; lia.
      * exists (rne (e / one * one + one) 1). split; [now rewrite Eh|].
        split; [lia|]. split; [lia|]. intros _.
        assert (e / one * one <= rne (e / one * one + one) 1).
        { apply rne_ge; [lia | now apply rep_floor | lia]. }
        lia.
    + exists (e / one * one). split; [reflexivity|].
      split; [lia|]. split; [lia|]. intros _; lia.
Qed.

End FieldFacts.

Import FieldFacts.

Module TimestampFacts.

#[local] Opaque one overflow_threshold.

Lemma minutes_of_bound (a : Z) : 0 <= a -> 0 <= minutes_of a < 60.
Proof.
  intros Ha; unfold minutes_of. pose proof one_pos.
  pose proof (Z.mod_pos_bound a (3600 * one) ltac:(lia)).
  split; [apply Z.div_pos; lia|].
  apply Z.div_lt_upper_bound; lia.
Qed.

Lemma secs_of_bound (a : Z) : 0 <= a -> 0 <= secs_of a < 60.
Proof.
  intros Ha; unfold secs_of. pose proof one_pos.
  pose proof (Z.mod_pos_bound a (60 * one) ltac:(lia)).
  split; [apply Z.div_pos; lia|].
  apply Z.div_lt_upper_bound; lia.
Qed.

Lemma millis_of_bound (a : Z) : rep a -> 0 <= millis_of a < 1000.
Proof.
  intros Hr; unfold millis_of. pose proof one_pos.
  pose proof (Z.mod_pos_bound a one ltac:(lia)).
  destruct (mul_int_frac (a mod one)) as [_ Hb]; [now apply rep_frac | lia |].
  split; [apply Z.div_pos; lia|].
  apply Z.div_lt_upper_bound; lia.
Qed.

(** What [format_timestamp] computes on a non-negative double. *)
Lemma format_timestamp_fields (a : Z) (use_comma : bool) :
  rep a -> a < overflow_threshold ->
  exists h,
    floordiv_int (Finite a) 3600 = Ok (Finite h) /\ 0 <= h
    /\ (a < 2 ^ prec * one -> h / one = hours_of a)
    /\ (2 ^ prec * one <= a -> 2 ^ 40 <= h / one)
    /\ format_timestamp (Finite a) use_comma
       = Ok (fields_text (h / one) (minutes_of a) (secs_of a) (millis_of a)
                         use_comma).
Proof.
  intros Hr Hlt. pose proof one_pos as H1. pose proof (rep_nonneg a Hr) as Ha.
  destruct (floordiv_3600 a Hr Hlt) as (h & Eh & Hh & Hsmall & Hbig).
  exists h. split; [exact Eh|]. split; [exact Hh|].
  split; [|split].
  - intros Hs. rewrite (Hsmall Hs). unfold hours_of. now rewrite Z.div_mul by lia.
  - intros Hb. apply Z.div_le_lower_bound; [lia|]. specialize (Hbig Hb). lia.
  - unfold format_timestamp. rewrite Eh. cbn [bind].
    rewrite (to_int_nonneg h Hh). cbn [bind].
    rewrite mod_int_nonneg by (unfold prec; lia). cbn [bind].
    pose proof (Z.mod_pos_bound a (3600 * one) ltac:(lia)) as Hm.
    assert (Hj : 0 <= a mod (3600 * one) / (60 * one) < 60).
    { split; [apply Z.div_pos; lia|]. apply Z.div_lt_upper_bound; lia. }
    rewrite floordiv_int_exact by (unfold prec; lia). cbn [bind].
    rewrite to_int_nonneg by nia. cbn [bind].
    rewrite Z.div_mul by lia.
    rewrite mod_int_nonneg by (unfold prec; lia). cbn [bind].
    pose proof (Z.mod_pos_bound a (60 * one) ltac:(lia)) as Hm'.
    rewrite to_int_nonneg by lia. cbn [bind].
    rewrite (to_int_nonneg a Ha). cbn [bind].
    rewrite (sub_int_whole a Hr Hlt). cbn [bind].
    pose proof (Z.mod_pos_bound a one H1) as Hf.
    destruct (mul_int_frac (a mod one)) as [Em Hb]; [now apply rep_frac | lia |].
    rewrite Em. cbn [bind].
    rewrite to_int_nonneg by lia. cbn [bind].
    reflexivity.
Qed.

End TimestampFacts.

Import TimestampFacts.

Module TextFacts.

Lemma eqb_eq (s t : str) : eqb s t = true <-> s = t.
Proof.
  revert t; induction s as [|a s IH]; intros [|b t]; simpl; split;
    try congruence; try reflexivity.
  - intros H. apply andb_true_iff in H as [H1 H2].
    apply N.eqb_eq in H1. apply IH in H2. congruence.
  - intros H. injection H as -> ->. apply andb_true_iff; split.
    + apply N.eqb_refl.
    + now apply IH.
Qed.

Lemma eqb_refl (s : str) : eqb s s = true.
Proof. now apply eqb_eq. Qed.

Lemma in_below (k : nat) (n : Z) : 0 <= n < Z.of_nat k -> In n (below k).
Proof.
  intros H. unfold below. apply in_map_iff. exists (Z.to_nat n).
  split; [lia|]. apply in_seq. lia.
Qed.

Lemma is_digit_digit_char (d : Z) : 0 <= d < 10 -> is_digit (digit_char d) = true.
Proof.
  intros H; unfold is_digit, digit_char.
  apply andb_true_iff; split; apply N.leb_le; lia.
Qed.

Lemma digit_char_value (d : Z) : 0 <= d -> Z.of_N (digit_char d) - 48 = d.
Proof. intros H; unfold digit_char; lia. Qed.

Lemma decimal_digits_all (fuel : nat) : forall n acc,
  0 <= n -> all_digits acc = true -> all_digits (decimal_digits fuel n acc) = true.
Proof.
  induction fuel as [|fuel IH]; intros n acc Hn Hacc; simpl; [assumption|].
  assert (Hd : all_digits (digit_char (n mod 10) :: acc) = true).
  { simpl. rewrite is_digit_digit_char by (apply Z.mod_pos_bound; lia).
    exact Hacc. }
  destruct (n <? 10); [exact Hd|].
  apply IH; [apply Z.div_pos; lia | exact Hd].
Qed.

Lemma decimal_digits_value (fuel : nat) : forall n acc,
  0 <= n < 10 ^ Z.of_nat fuel ->
  fold_left (fun v c => 10 * v + (Z.of_N c - 48)) (decimal_digits fuel n acc) 0
  = fold_left (fun v c => 10 * v + (Z.of_N c - 48)) acc n.
Proof.
  induction fuel as [|fuel IH]; intros n acc Hn.
  - change (10 ^ Z.of_nat 0) with 1 in Hn. assert (n = 0) by lia. subst. reflexivity.
  - simpl decimal_digits.
    pose proof (Z.mod_pos_bound n 10 ltac:(lia)) as Hm.
    pose proof (Z.div_mod n 10 ltac:(lia)) as Hdm.
    destruct (Z.ltb_spec n 10) as [Hs|Hb].
    + cbn [fold_left]. rewrite digit_char_value by lia.
      rewrite Z.mod_small by lia. reflexivity.
    + rewrite IH.
      * cbn [fold_left]. rewrite digit_char_value by lia. f_equal. lia.
      * split; [apply Z.div_pos; lia|].
        apply Z.div_lt_upper_bound; [lia|].
        rewrite Nat2Z.inj_succ, Z.pow_succ_r in Hn by lia. lia.
Qed.

Lemma fuel_enough (n : Z) : 0 <= n -> n < 10 ^ Z.of_nat (S (Z.to_nat (Z.log2 n))).
Proof.
  intros Hn. destruct (Z.eq_dec n 0) as [->|Hnz]; [reflexivity|].
  pose proof (Z.log2_nonneg n) as Hl.
  pose proof (Z.log2_spec n ltac:(lia)) as [_ Hlt].
  rewrite Nat2Z.inj_succ, Z2Nat.id by lia.
  eapply Z.lt_le_trans; [exact Hlt|].
  apply Z.pow_le_mono_l. lia.
Qed.

Lemma str_of_nonneg_value (n : Z) : 0 <= n -> decimal_value (str_of_nonneg n) = n.
Proof.
  intros Hn. unfold decimal_value, str_of_nonneg.
  rewrite decimal_digits_value; [reflexivity|].
  split; [assumption | now apply fuel_enough].
Qed.

Lemma str_of_nonneg_digits (n : Z) : 0 <= n -> all_digits (str_of_nonneg n) = true.
Proof. intros Hn. now apply decimal_digits_all. Qed.

Lemma all_digits_app (s t : str) :
  all_digits (s ++ t) = all_digits s && all_digits t.
Proof. unfold all_digits. apply forallb_app. Qed.

Lemma all_digits_zeros (k : nat) : all_digits (repeat 48%N k) = true.
Proof. induction k; simpl; auto. Qed.

Lemma value_zeros (k : nat) (s : str) :
  decimal_value (repeat 48%N k ++ s) = decimal_value s.
Proof.
  unfold decimal_value. rewrite fold_left_app.
  replace (fold_left (fun v c => 10 * v + (Z.of_N c - 48)) (repeat 48%N k) 0) with 0;
    [reflexivity|].
  induction k; simpl; auto.
Qed.

Lemma value_bound (s : str) :
  all_digits s = true -> 0 <= decimal_value s < 10 ^ Z.of_nat (length s).
Proof.
  unfold decimal_value.
  assert (G : forall s v, all_digits s = true -> 0 <= v ->
     0 <= fold_left (fun v c => 10 * v + (Z.of_N c - 48)) s v
     /\ fold_left (fun v c => 10 * v + (Z.of_N c - 48)) s v
        < (v + 1) * 10 ^ Z.of_nat (length s)).
  { clear s. induction s as [|c s IH]; intros v Hs Hv.
    - simpl. lia.
    - simpl in Hs. apply andb_true_iff in Hs as [Hc Hs].
      unfold is_digit in Hc. apply andb_true_iff in Hc as [Hc1 Hc2].
      apply N.leb_le in Hc1, Hc2.
      cbn [fold_left length]. rewrite Nat2Z.inj_succ, Z.pow_succ_r by lia.
      assert (Hd : 0 <= Z.of_N c - 48 <= 9) by lia.
      set (d := Z.of_N c - 48) in *.
      destruct (IH (10 * v + d) Hs ltac:(lia)) as [I1 I2].
      split; [assumption|].
      assert (0 < 10 ^ Z.of_nat (length s)) by (apply Z.pow_pos_nonneg; lia).
      set (P := 10 ^ Z.of_nat (length s)) in *.
      assert ((10 * v + d + 1) * P <= (10 * v + 10) * P)
        by (apply Z.mul_le_mono_nonneg_r; lia).
      lia. }
  intros Hs. destruct (G s 0 Hs ltac:(lia)). lia.
Qed.

(** *** [format(n, "0<w>d")] of a non-negative integer *)

Lemma format_0d_nonneg (w : nat) (n : Z) :
  0 <= n ->
  format_0d w n = repeat 48%N (w - length (str_of_nonneg n)) ++ str_of_nonneg n.
Proof.
  intros Hn; unfold format_0d.
  destruct (Z.ltb_spec n 0); [lia|].
  rewrite Z.abs_eq by lia. simpl. now rewrite Nat.sub_0_r.
Qed.

Lemma format_0d_digits (w : nat) (n : Z) :
  0 <= n -> all_digits (format_0d w n) = true.
Proof.
  intros Hn. rewrite format_0d_nonneg by assumption.
  rewrite all_digits_app, all_digits_zeros, str_of_nonneg_digits by assumption.
  reflexivity.
Qed.

Lemma format_0d_value (w : nat) (n : Z) :
  0 <= n -> decimal_value (format_0d w n) = n.
Proof.
  intros Hn. rewrite format_0d_nonneg by assumption.
  rewrite value_zeros. now apply str_of_nonneg_value.
Qed.

Lemma format_0d_length (w : nat) (n : Z) :
  0 <= n -> (w <= length (format_0d w n))%nat.
Proof.
  intros Hn. rewrite format_0d_nonneg by assumption.
  rewrite length_app, repeat_length. lia.
Qed.

(** A field never loses digits: its length grows with the value. *)
Lemma format_0d_wide (w : nat) (n : Z) (k : nat) :
  0 <= n -> 10 ^ Z.of_nat k <= n -> (k < length (format_0d w n))%nat.
Proof.
  intros Hn Hk.
  pose proof (value_bound _ (format_0d_digits w n Hn)) as [_ Hb].
  rewrite format_0d_value in Hb by assumption.
  destruct (Nat.lt_ge_cases k (length (format_0d w n))) as [|Hge]; [assumption|].
  assert (10 ^ Z.of_nat (length (format_0d w n)) <= 10 ^ Z.of_nat k)
    by (apply Z.pow_le_mono_r; lia).
  lia.
Qed.

Lemma format_2_small (n : Z) : 0 <= n < 100 -> format_0d 2 n = two_digits n.
Proof.
  intros Hn.
  assert (H : forallb (fun n => eqb (format_0d 2 n) (two_digits n)) (below 100) = true)
    by (vm_compute; reflexivity).
  rewrite forallb_forall in H. apply eqb_eq, H, in_below. simpl; lia.
Qed.

Lemma format_3_small (n : Z) : 0 <= n < 1000 -> format_0d 3 n = three_digits n.
Proof.
  intros Hn.
  assert (H : forallb (fun n => eqb (format_0d 3 n) (three_digits n)) (below 1000) = true)
    by (vm_compute; reflexivity).
  rewrite forallb_forall in H. apply eqb_eq, H, in_below. simpl; lia.
Qed.

(** *** The pattern *)

Lemma span_digits_app (h rest : str) :
  all_digits h = true ->
  match rest with c :: _ => is_digit c = false | [] => True end ->
  span_digits (h ++ rest) = (h, rest).
Proof.
  intros Hh Hr. induction h as [|c h IH]; simpl.
  - destruct rest as [|c r]; [reflexivity|]. simpl. now rewrite Hr.
  - simpl in Hh. apply andb_true_iff in Hh as [Hc Hh].
    rewrite Hc, (IH Hh). reflexivity.
Qed.

Lemma fields_text_pattern (h m s ms : Z) (use_comma : bool) :
  0 <= h -> 0 <= m < 60 -> 0 <= s < 60 -> 0 <= ms < 1000 ->
  matches_timestamp_pattern (fields_text h m s ms use_comma) = true.
Proof.
  intros Hh Hm Hs Hms. unfold fields_text, matches_timestamp_pattern.
  rewrite (format_2_small m), (format_2_small s), (format_3_small ms) by lia.
  rewrite span_digits_app;
    [| now apply format_0d_digits | reflexivity].
  apply andb_true_iff; split.
  - apply Nat.leb_le. now apply format_0d_length.
  - unfold two_digits, three_digits.
    destruct use_comma; cbn [app u map list_ascii_of_string];
      rewrite !is_digit_digit_char by (Z.div_mod_to_equations; lia);
      reflexivity.
Qed.

(** *** Order of strings *)

Lemma leb_app_same (p s t : str) : leb (p ++ s) (p ++ t) = leb s t.
Proof.
  induction p as [|c p IH]; simpl; [reflexivity|].
  rewrite N.ltb_irrefl, N.eqb_refl. simpl. exact IH.
Qed.

Lemma leb_three_digits (a b : Z) :
  0 <= a <= b -> b < 1000 -> leb (three_digits a) (three_digits b) = true.
Proof.
  intros Ha Hb. unfold three_digits, digit_char. cbn [leb].
  assert (Da : 0 <= a / 100 < 10 /\ 0 <= a / 10 mod 10 < 10 /\ 0 <= a mod 10 < 10
               /\ a = 100 * (a / 100) + 10 * (a / 10 mod 10) + a mod 10)
    by (Z.div_mod_to_equations; lia).
  assert (Db : 0 <= b / 100 < 10 /\ 0 <= b / 10 mod 10 < 10 /\ 0 <= b mod 10 < 10
               /\ b = 100 * (b / 100) + 10 * (b / 10 mod 10) + b mod 10)
    by (Z.div_mod_to_equations; lia).
  generalize dependent (a / 100). generalize dependent (a / 10 mod 10).
  generalize dependent (a mod 10). generalize dependent (b / 100).
  generalize dependent (b / 10 mod 10). generalize dependent (b mod 10).
  intros b0 b1 b2 Db a0 a1 a2 Da.
  destruct (N.ltb_spec (48 + Z.to_N a2) (48 + Z.to_N b2)); [reflexivity|].
  destruct (N.eqb_spec (48 + Z.to_N a2) (48 + Z.to_N b2)); [|lia].
  destruct (N.ltb_spec (48 + Z.to_N a1) (48 + Z.to_N b1)); [reflexivity|].
  destruct (N.eqb_spec (48 + Z.to_N a1) (48 + Z.to_N b1)); [|lia].
  destruct (N.ltb_spec (48 + Z.to_N a0) (48 + Z.to_N b0)); [reflexivity|].
  destruct (N.eqb_spec (48 + Z.to_N a0) (48 + Z.to_N b0)); [reflexivity|lia].
Qed.

End TextFacts.

Import TextFacts.

Module ClockFacts.

#[local] Opaque one overflow_threshold.

Lemma mod_mul_div (a n : Z) : 0 < n -> a mod (n * one) / one = (a / one) mod n.
Proof.
  intros Hn. pose proof one_pos as H1.
  rewrite (Z.mul_comm n one), Z.rem_mul_r by lia.
  rewrite Z.mul_comm, Z.div_add by lia.
  rewrite Z.div_small by (apply Z.mod_pos_bound; lia). lia.
Qed.

Lemma hours_of_floor (a : Z) : 0 <= a -> hours_of a = a / one / 3600.
Proof.
  intros Ha; unfold hours_of. pose proof one_pos.
  rewrite Z.div_div by lia. f_equal; lia.
Qed.

Lemma minutes_of_floor (a : Z) : 0 <= a -> minutes_of a = (a / one) mod 3600 / 60.
Proof.
  intros Ha; unfold minutes_of. pose proof one_pos.
  rewrite <- mod_mul_div by lia.
  rewrite Z.div_div by lia. f_equal; lia.
Qed.

Lemma secs_of_floor (a : Z) : 0 <= a -> secs_of a = (a / one) mod 60.
Proof. intros Ha; unfold secs_of. now rewrite mod_mul_div by lia. Qed.

(** Hours, minutes and seconds add up to the whole seconds. *)
Lemma whole_seconds (a : Z) :
  0 <= a -> (hours_of a * 60 + minutes_of a) * 60 + secs_of a = a / one.
Proof.
  intros Ha. rewrite hours_of_floor, minutes_of_floor, secs_of_floor by assumption.
  set (N := a / one). Z.div_mod_to_equations. lia.
Qed.

Lemma millis_of_mono (a1 a2 : Z) :
  0 <= a1 mod one <= a2 mod one -> millis_of a1 <= millis_of a2.
Proof.
  intros H; unfold millis_of. pose proof one_pos.
  apply Z.div_le_mono; [lia|]. apply rne_mono; lia.
Qed.

Lemma leb_refl (s : str) : leb s s = true.
Proof.
  induction s as [|c s IH]; simpl; [reflexivity|].
  now rewrite N.eqb_refl, IH, orb_true_r.
Qed.

(** Two times of the same second are formatted in their order. *)
Lemma format_same_second (a1 a2 : Z) (use_comma : bool) :
  rep a1 -> rep a2 -> a2 < overflow_threshold -> a1 <= a2 ->
  a1 / one = a2 / one ->
  exists t1 t2,
    format_timestamp (Finite a1) use_comma = Ok t1
    /\ format_timestamp (Finite a2) use_comma = Ok t2
    /\ leb t1 t2 = true.
Proof.
  intros R1 R2 Hlt Hle Hfl. pose proof one_pos as H1.
  pose proof (rep_nonneg a1 R1) as Ha1.
  destruct (format_timestamp_fields a1 use_comma R1 ltac:(lia))
    as (h1 & _ & _ & Hs1 & _ & E1).
  destruct (format_timestamp_fields a2 use_comma R2 Hlt)
    as (h2 & _ & _ & Hs2 & _ & E2).
  exists (fields_text (h1 / one) (minutes_of a1) (secs_of a1) (millis_of a1) use_comma),
    (fields_text (h2 / one) (minutes_of a2) (secs_of a2) (millis_of a2) use_comma).
  split; [exact E1|]. split; [exact E2|].
  destruct (Z.lt_ge_cases a2 (2 ^ prec * one)) as [Hsmall|Hbig].
  - rewrite (Hs1 ltac:(lia)), (Hs2 Hsmall).
    rewrite !hours_of_floor, !minutes_of_floor, !secs_of_floor by lia.
    rewrite Hfl. unfold fields_text.
    rewrite !app_assoc. rewrite leb_app_same.
    pose proof (Z.div_mod a1 one ltac:(lia)) as D1.
    pose proof (Z.div_mod a2 one ltac:(lia)) as D2.
    pose proof (Z.mod_pos_bound a1 one H1) as B1.
    pose proof (millis_of_mono a1 a2 ltac:(rewrite Hfl in D1; lia)) as Hm.
    pose proof (millis_of_bound a1 R1). pose proof (millis_of_bound a2 R2).
    rewrite !format_3_small by lia.
    apply leb_three_digits; lia.
  - (* from 2^53 on a double is a whole number of seconds *)
    pose proof (rep_large_multiple a2 R2 Hbig) as Hz.
    pose proof (Z.div_mod a1 one ltac:(lia)) as D1.
    pose proof (Z.div_mod a2 one ltac:(lia)) as D2.
    pose proof (Z.mod_pos_bound a1 one H1) as B1.
    assert (a1 = a2) by (rewrite Hfl in D1; lia). subst a2.
    rewrite E1 in E2. injection E2 as <-. apply leb_refl.
Qed.

(** Below 2^53 seconds the clock time of the timestamp follows the time. *)
Lemma clock_of_fields (a : Z) :
  rep a ->
  clock_millis (hours_of a) (minutes_of a) (secs_of a) (millis_of a)
  = a / one * 1000 + millis_of a.
Proof.
  intros R. unfold clock_millis. rewrite whole_seconds by (now apply rep_nonneg).
  reflexivity.
Qed.


(** *** Reading the fields back *)

Lemma two_digits_value (n : Z) : 0 <= n < 100 -> decimal_value (two_digits n) = n.
Proof. intros H. rewrite <- format_2_small by lia. apply format_0d_value; lia. Qed.

Lemma three_digits_value (n : Z) :
  0 <= n < 1000 -> decimal_value (three_digits n) = n.
Proof. intros H. rewrite <- format_3_small by lia. apply format_0d_value; lia. Qed.

Lemma two_digits_all (n : Z) : 0 <= n < 100 -> all_digits (two_digits n) = true.
Proof. intros H. rewrite <- format_2_small by lia. apply format_0d_digits; lia. Qed.

Lemma three_digits_all (n : Z) : 0 <= n < 1000 -> all_digits (three_digits n) = true.
Proof. intros H. rewrite <- format_3_small by lia. apply format_0d_digits; lia. Qed.

Lemma parse_fields_text (h m s ms : Z) (use_comma : bool) :
  0 <= h -> 0 <= m < 60 -> 0 <= s < 60 -> 0 <= ms < 1000 ->
  parse_fields (fields_text h m s ms use_comma) = Some (h, m, s, ms).
Proof.
  intros Hh Hm Hs Hms. unfold fields_text, parse_fields.
  rewrite (format_2_small m), (format_2_small s), (format_3_small ms) by lia.
  rewrite span_digits_app; [| now apply format_0d_digits | reflexivity].
  pose proof (format_0d_length 2 h Hh) as Hl.
  destruct (format_0d 2 h) as [|c0 hs] eqn:Eh; [simpl in Hl; lia|].
  pose proof (two_digits_all m ltac:(lia)) as Am.
  pose proof (two_digits_all s ltac:(lia)) as As.
  pose proof (three_digits_all ms ltac:(lia)) as Ams.
  pose proof (two_digits_value m ltac:(lia)) as Vm.
  pose proof (two_digits_value s ltac:(lia)) as Vs.
  pose proof (three_digits_value ms ltac:(lia)) as Vms.
  pose proof (format_0d_value 2 h Hh) as Vh. rewrite Eh in Vh.
  unfold two_digits, three_digits in *.
  destruct use_comma; cbn [app u map list_ascii_of_string];
    change (N_of_ascii ":") with 58%N;
    change (N_of_ascii ",") with 44%N; change (N_of_ascii ".") with 46%N;
    cbn [char_eqb N.eqb Pos.eqb orb andb];
    rewrite Am, As, Ams, Vm, Vs, Vms, Vh; reflexivity.
Qed.

End ClockFacts.

Import ClockFacts.

Module RoundTripFacts.

Lemma one_split :
  one = 1048576 * 2 ^ 1054 /\ 2 ^ 1054 = 8589934592 * 2 ^ 1021
  /\ one = 2 * 2 ^ 1073.
Proof.
  split; [vm_compute; reflexivity|].
  split; vm_compute; reflexivity.
Qed.

#[local] Opaque one overflow_threshold.

(** The error of a rounding is at most one unit in the last place. *)
Lemma rne_error (n d : Z) :
  0 <= n -> 0 < d ->
  n - d * 2 ^ ulp_shift (n / d) <= d * rne n d <= n + d * 2 ^ ulp_shift (n / d).
Proof.
  intros Hn Hd; rewrite rne_unfold.
  set (s := ulp_shift (n / d)).
  pose proof (pow2_pos s (ulp_shift_nonneg _)) as Hp.
  assert (HD : 0 < d * 2 ^ s) by nia.
  pose proof (Z.div_mod n (d * 2 ^ s) ltac:(lia)) as E.
  pose proof (Z.mod_pos_bound n (d * 2 ^ s) HD) as B.
  destruct (rhe_cases n (d * 2 ^ s)) as [-> | ->]; nia.
Qed.

Lemma rep_grid (m k : Z) : 0 <= m < 2 ^ prec -> 0 <= k -> rep (m * 2 ^ k).
Proof. intros; exists m, k; repeat split; lia. Qed.

(** The spacings the analysis below rounds to: 2^-20, 2^-53 and 1/2. *)
Lemma grid_constants :
  exists G E Hf,
    one = 1048576 * G /\ G = 8589934592 * E /\ one = 2 * Hf /\ 0 < E
    /\ (forall m, 0 <= m < 2 ^ prec -> rep (m * G))
    /\ (forall m, 0 <= m < 2 ^ prec -> rep (m * Hf))
    /\ (forall s, 0 <= s <= 1021 -> 2 ^ s <= E).
Proof.
  destruct one_split as (S1 & S2 & S3).
  exists (2 ^ 1054), (2 ^ 1021), (2 ^ 1073).
  split; [exact S1|]. split; [exact S2|]. split; [exact S3|].
  split; [apply pow2_pos; lia|].
  split; [intros; apply rep_grid; lia|].
  split; [intros; apply rep_grid; lia|].
  intros s Hs. apply pow2_le; lia.
Qed.

(** Parsing the fields [N] seconds and [ms] milliseconds and formatting the
    sum again: the whole seconds are kept, the milliseconds may lose one. *)
Lemma reparse_fields (N ms : Z) :
  0 <= N < 2 ^ 32 -> 0 <= ms < 1000 ->
  exists y,
    (f <- int_truediv ms 1000 ;; int_add_float N f) = Ok (Finite y)
    /\ rep y /\ y < 2 ^ prec * one /\ y / one = N
    /\ ms - 1 <= millis_of y <= ms.
Proof.
  intros HN Hms. pose proof one_pos as H1.
  destruct grid_constants as (G & E & Hf & S1 & S2 & S3 & HE & RG & RH & PE).
  assert (P32 : 2 ^ 32 = 4294967296) by reflexivity.
  assert (P53 : 2 ^ prec = 9007199254740992) by reflexivity.
  rewrite P32 in HN.
  assert (M1 : 0 <= ms * one <= 999 * one) by nia.
  assert (N1 : 0 <= N * one <= 4294967295 * one) by nia.
  (* f = fl(ms / 1000) *)
  assert (RB : rep (one - G)).
  { replace (one - G) with (1048575 * G) by lia.
    apply RG; rewrite P53; lia. }
  destruct (round64_le (ms * one) 1000 (one - G)) as [Ef Bf];
    [lia | lia | exact RB | pose proof one_lt_overflow; lia | lia |].
  set (f := rne (ms * one) 1000) in *.
  assert (Rf : rep f) by (apply rne_rep; lia).
  (* y = fl(N + f) *)
  assert (RB2 : rep ((N + 1) * one - G)).
  { replace ((N + 1) * one - G) with (((N + 1) * 1048576 - 1) * G) by lia.
    apply RG; rewrite P53; lia. }
  assert (OB2 : (N + 1) * one - G < overflow_threshold).
  { pose proof (small_lt_overflow (N + 1) ltac:(split; [lia|]; change (2 ^ 54) with 18014398509481984; lia)). lia. }
  destruct (round64_le (N * one + f) 1 ((N + 1) * one - G)) as [Ey By];
    [lia | lia | exact RB2 | exact OB2 | lia |].
  set (y := rne (N * one + f) 1) in *.
  assert (Ry : rep y) by (apply rne_rep; lia).
  assert (Ly : N * one <= y).
  { apply rne_ge; [lia | apply rep_mul_one; lia | lia]. }
  assert (Dy : y / one = N).
  { symmetry. apply (Z.div_unique y one N (y - N * one)); lia. }
  exists y. split; [|split; [exact Ry|split; [nia|split; [exact Dy|]]]].
  { unfold int_truediv. cbn [Z.eqb Z.sgn Z.abs].
    rewrite Z.mul_1_l, Ef. cbn [bind].
    unfold int_add_float. rewrite of_int_exact by lia. cbn [bind fadd].
    now rewrite Ey. }
  (* the fraction of y lies within one grid step of f *)
  assert (Hy : y mod one = y - N * one).
  { pose proof (Z.div_mod y one ltac:(lia)). rewrite Dy in H. lia. }
  set (k := f / G).
  assert (HG : 0 < G) by lia.
  pose proof (Z.div_mod f G ltac:(lia)) as Dk. fold k in Dk.
  pose proof (Z.mod_pos_bound f G HG) as Bk.
  assert (Hk : 0 <= k < 1048576).
  { split; [apply Z.div_pos; lia|]. apply Z.div_lt_upper_bound; lia. }
  assert (Glow : N * one + k * G <= y).
  { apply rne_ge; [lia | | lia].
    replace (N * one + k * G) with ((N * 1048576 + k) * G) by lia.
    apply RG; rewrite P53; lia. }
  assert (Gup : y <= N * one + (k + 1) * G).
  { apply rne_le; [lia | lia | | lia].
    replace (N * one + (k + 1) * G) with ((N * 1048576 + (k + 1)) * G) by lia.
    apply RG; rewrite P53; lia. }
  (* f is within a rounding error of ms/1000 *)
  pose proof (rne_error (ms * one) 1000 ltac:(lia) ltac:(lia)) as Herr. fold f in Herr.
  assert (Hs : 2 ^ ulp_shift (ms * one / 1000) <= E).
  { apply PE. split; [apply ulp_shift_nonneg|].
    assert (Hq : 0 <= ms * one / 1000 < one).
    { split; [apply Z.div_pos; lia|]. apply Z.div_lt_upper_bound; lia. }
    assert (bitlen (ms * one / 1000) <= 1074).
    { apply bitlen_le_of_lt; [lia | lia |]. rewrite <- one_eq. lia. }
    unfold ulp_shift, prec. lia. }
  set (g := y mod one) in *.
  assert (Hg : ms * one - Hf <= 1000 * g <= ms * one + Hf) by lia.
  pose proof (millis_of_bound y Ry) as Mb.
  unfold millis_of. fold g.
  split.
  - destruct (Z.eq_dec ms 0) as [->|Hnz].
    + unfold millis_of in Mb; fold g in Mb. lia.
    + apply Z.div_le_lower_bound; [lia|].
      rewrite Z.mul_comm.
      apply rne_ge; [lia | apply rep_mul_one; lia | lia].
  - assert (rne (g * 1000) 1 <= ms * one + Hf).
    { apply rne_le; [lia | lia | | lia].
      replace (ms * one + Hf) with ((2 * ms + 1) * Hf) by lia.
      apply RH; rewrite P53; lia. }
    assert (rne (g * 1000) 1 / one < ms + 1); [|lia].
    apply Z.div_lt_upper_bound; lia.
Qed.

End RoundTripFacts.

Import RoundTripFacts.

Module SerialiserFacts.

Lemma srt_loop_step (i : Z) (seg : segment) (rest : list segment) (lines : list str) :
  srt_loop i (seg :: rest) lines
  = (b <- srt_block i seg ;; srt_loop (i + 1) rest (lines ++ [b])).
Proof.
  cbn [srt_loop]. unfold srt_block, timing_line.
  destruct (format_timestamp (start seg) true) as [s|e]; cbn [bind]; [|reflexivity].
  destruct (format_timestamp (end_ seg) true) as [t|e]; cbn [bind]; [|reflexivity].
  now rewrite <- !app_assoc.
Qed.

Lemma vtt_loop_step (seg : segment) (rest : list segment) (lines : list str) :
  vtt_loop (seg :: rest) lines
  = (c <- vtt_cue seg ;; vtt_loop rest (lines ++ [c])).
Proof.
  cbn [vtt_loop]. unfold vtt_cue, timing_line.
  destruct (format_timestamp (start seg) false) as [s|e]; cbn [bind]; [|reflexivity].
  destruct (format_timestamp (end_ seg) false) as [t|e]; cbn [bind]; [|reflexivity].
  now rewrite <- !app_assoc.
Qed.

Lemma srt_loop_blocks (segments : list segment) : forall i lines,
  srt_loop i segments lines = (bs <- srt_blocks i segments ;; Ok (lines ++ bs)).
Proof.
  induction segments as [|seg rest IH]; intros i lines.
  - cbn. now rewrite app_nil_r.
  - rewrite srt_loop_step. cbn [srt_blocks].
    destruct (srt_block i seg) as [b|e]; cbn [bind]; [|reflexivity].
    rewrite IH. destruct (srt_blocks (i + 1) rest) as [bs|e]; cbn [bind]; [|reflexivity].
    now rewrite <- app_assoc.
Qed.

Lemma vtt_loop_cues (segments : list segment) : forall lines,
  vtt_loop segments lines = (cs <- vtt_cues segments ;; Ok (lines ++ cs)).
Proof.
  induction segments as [|seg rest IH]; intros lines.
  - cbn. now rewrite app_nil_r.
  - rewrite vtt_loop_step. cbn [vtt_cues].
    destruct (vtt_cue seg) as [c|e]; cbn [bind]; [|reflexivity].
    rewrite IH. destruct (vtt_cues rest) as [cs|e]; cbn [bind]; [|reflexivity].
    now rewrite <- app_assoc.
Qed.

Lemma generate_srt_blocks (segments : list segment) :
  generate_srt segments = (bs <- srt_blocks 1 segments ;; Ok (join nl bs)).
Proof.
  unfold generate_srt. rewrite srt_loop_blocks.
  destruct (srt_blocks 1 segments); reflexivity.
Qed.

Lemma join_header (sep h : str) (cs : list str) :
  join sep (h :: cs) = h ++ concat (map (fun c => sep ++ c) cs).
Proof.
  revert h; induction cs as [|c cs IH]; intros h.
  - cbn. now rewrite app_nil_r.
  - change (join sep (h :: c :: cs)) with (h ++ sep ++ join sep (c :: cs)).
    rewrite IH. cbn [map concat]. now rewrite <- !app_assoc.
Qed.

Lemma generate_vtt_cues (segments : list segment) :
  generate_vtt segments
  = (cs <- vtt_cues segments ;;
     Ok (u "WEBVTT" ++ nl ++ concat (map (fun c => nl ++ c) cs))).
Proof.
  unfold generate_vtt. rewrite vtt_loop_cues.
  destruct (vtt_cues segments) as [cs|e]; cbn [bind]; [|reflexivity].
  change ([u "WEBVTT" ++ nl] ++ cs) with ((u "WEBVTT" ++ nl) :: cs).
  rewrite join_header. now rewrite <- app_assoc.
Qed.

Lemma join_snoc (sep : str) (l : list str) (b : str) :
  join sep (l ++ [b]) = match l with [] => b | _ => join sep l ++ sep ++ b end.
Proof.
  induction l as [|a l IH]; [reflexivity|].
  destruct l as [|a' l'].
  - reflexivity.
  - change (join sep ((a :: a' :: l') ++ [b]))
      with (a ++ sep ++ join sep ((a' :: l') ++ [b])).
    rewrite IH.
    change (join sep (a :: a' :: l')) with (a ++ sep ++ join sep (a' :: l')).
    now rewrite <- !app_assoc.
Qed.

Lemma srt_blocks_snoc (segments : list segment) (seg : segment) : forall i,
  srt_blocks i (segments ++ [seg])
  = (bs <- srt_blocks i segments ;;
     b <- srt_block (i + Z.of_nat (length segments)) seg ;;
     Ok (bs ++ [b])).
Proof.
  induction segments as [|s rest IH]; intros i.
  - cbn [app srt_blocks length bind]. rewrite Z.add_0_r.
    destruct (srt_block i seg); reflexivity.
  - cbn [app srt_blocks length].
    destruct (srt_block i s) as [b0|e]; cbn [bind]; [|reflexivity].
    rewrite IH.
    destruct (srt_blocks (i + 1) rest) as [bs|e]; cbn [bind]; [|reflexivity].
    replace (i + 1 + Z.of_nat (length rest)) with (i + Z.of_nat (S (length rest))) by lia.
    destruct (srt_block _ seg); reflexivity.
Qed.

Lemma srt_blocks_length (segments : list segment) : forall i bs,
  srt_blocks i segments = Ok bs -> length bs = length segments.
Proof.
  induction segments as [|s rest IH]; intros i bs H.
  - cbn in H. injection H as <-. reflexivity.
  - cbn [srt_blocks] in H.
    destruct (srt_block i s) as [b|e]; cbn [bind] in H; [|discriminate].
    destruct (srt_blocks (i + 1) rest) as [bs'|e] eqn:E; cbn [bind] in H; [|discriminate].
    injection H as <-. cbn [length]. f_equal. now apply (IH (i + 1)).
Qed.

(** *** Whitespace *)

Lemma lstrip_whitespace (s : str) : forallb isspace s = true -> lstrip s = [].
Proof.
  induction s as [|c s IH]; [reflexivity|].
  cbn [forallb lstrip]. intros H. apply andb_true_iff in H as [Hc Hs].
  rewrite Hc. now apply IH.
Qed.

Lemma strip_whitespace (s : str) : forallb isspace s = true -> strip s = [].
Proof.
  intros H; unfold strip. now rewrite (lstrip_whitespace s H).
Qed.

End SerialiserFacts.

Import SerialiserFacts.

Module PathFacts.

Lemma split_on_nonempty (sep : char) (s : str) : split_on sep s <> [].
Proof.
  destruct s as [|c s]; cbn [split_on]; [discriminate|].
  destruct (char_eqb c sep); [discriminate|].
  destruct (split_on sep s); discriminate.
Qed.

Lemma split_on_plain (sep : char) (w : str) :
  contains sep w = false -> split_on sep w = [w].
Proof.
  induction w as [|c w IH]; [reflexivity|].
  cbn [contains existsb split_on]. intros H. apply orb_false_iff in H as [Hc Hw].
  unfold char_eqb in *. rewrite N.eqb_sym in Hc. rewrite Hc.
  fold (contains sep w) in Hw. now rewrite (IH Hw).
Qed.

Lemma split_on_app (sep : char) (w rest : str) :
  contains sep w = false ->
  split_on sep (w ++ sep :: rest) = w :: split_on sep rest.
Proof.
  induction w as [|c w IH].
  - intros _. cbn [app split_on]. unfold char_eqb. now rewrite N.eqb_refl.
  - cbn [contains existsb app split_on]. intros H.
    apply orb_false_iff in H as [Hc Hw].
    unfold char_eqb in *. rewrite N.eqb_sym in Hc. rewrite Hc.
    fold (contains sep w) in Hw. now rewrite (IH Hw).
Qed.

Lemma split_join (sep : char) (comps : list str) :
  comps <> [] -> forallb (fun c => negb (contains sep c)) comps = true ->
  split_on sep (join [sep] comps) = comps.
Proof.
  induction comps as [|c comps IH]; [congruence|].
  intros _ H. cbn [forallb] in H. apply andb_true_iff in H as [Hc Hr].
  apply negb_true_iff in Hc.
  destruct comps as [|c' comps'].
  - cbn [join]. now apply split_on_plain.
  - change (join [sep] (c :: c' :: comps')) with (c ++ [sep] ++ join [sep] (c' :: comps')).
    cbn [app]. rewrite split_on_app by assumption.
    f_equal. apply IH; [discriminate | assumption].
Qed.

Lemma plain_all (comps : list str) :
  forallb plain_component comps = true ->
  forallb (fun c => negb (contains slash c)) comps = true
  /\ filter is_component comps = comps.
Proof.
  induction comps as [|c comps IH]; [now split|].
  cbn [forallb filter]. intros H. apply andb_true_iff in H as [Hc Hr].
  unfold plain_component in Hc. apply andb_true_iff in Hc as [Hc1 Hc2].
  destruct (IH Hr) as [I1 I2]. rewrite Hc1, Hc2, I1, I2. now split.
Qed.

Lemma join_plain_head (comps : list str) :
  comps <> [] -> forallb plain_component comps = true ->
  exists c s, join [slash] comps = c :: s /\ char_eqb c slash = false.
Proof.
  destruct comps as [|w comps]; [congruence|].
  intros _ H. cbn [forallb] in H. apply andb_true_iff in H as [Hw _].
  unfold plain_component in Hw. apply andb_true_iff in Hw as [H1 H2].
  destruct w as [|c w]; [discriminate|].
  apply negb_true_iff in H2. cbn [contains existsb] in H2.
  apply orb_false_iff in H2 as [Hc _].
  exists c. destruct comps as [|w' comps'].
  - exists w. split; [reflexivity|]. unfold char_eqb in *. now rewrite N.eqb_sym.
  - eexists. split; [reflexivity|]. unfold char_eqb in *. now rewrite N.eqb_sym.
Qed.

(** A relative path in normal form is kept as it is written. *)
Lemma Path_plain (comps : list str) :
  comps <> [] -> forallb plain_component comps = true ->
  Path (join [slash] comps) = mkPath [] comps
  /\ to_str (Path (join [slash] comps)) = join [slash] comps.
Proof.
  intros Hne Hp.
  destruct (plain_all comps Hp) as [Hs Hf].
  destruct (join_plain_head comps Hne Hp) as (c & s & Ej & Hc).
  assert (EP : Path (join [slash] comps) = mkPath [] comps).
  { unfold Path, splitroot. rewrite Ej, Hc, <- Ej.
    now rewrite split_join, Hf by assumption. }
  split; [exact EP|].
  rewrite EP. unfold to_str. cbn [root parts app]. now rewrite Ej.
Qed.

(** *** The last dot of a name *)

Lemma rfind_from_spec (c : char) (s : str) : forall i found,
  (contains c s = false /\ rfind_from i c s found = found)
  \/ (exists pre post, s = pre ++ c :: post /\ contains c post = false
                       /\ rfind_from i c s found = i + len pre).
Proof.
  induction s as [|d s IH]; intros i found.
  - left. now split.
  - cbn [rfind_from].
    destruct (IH (i + 1) (if char_eqb d c then i else found))
      as [[Hn Hr] | (pre & post & Es & Hpost & Hr)].
    + destruct (char_eqb d c) eqn:Edc.
      * right. exists [], s. unfold char_eqb in Edc. apply N.eqb_eq in Edc. subst d.
        repeat split; auto. rewrite Hr. unfold len. cbn. lia.
      * left. split; [|assumption].
        cbn [contains existsb]. unfold char_eqb in *.
        rewrite N.eqb_sym, Edc. exact Hn.
    + right. exists (d :: pre), post. subst s. repeat split; auto.
      rewrite Hr. unfold len. cbn [length]. lia.
Qed.

Lemma skipn_len_app (pre post : str) : skipn (Z.to_nat (len pre)) (pre ++ post) = post.
Proof.
  unfold len. rewrite Nat2Z.id. rewrite skipn_app, Nat.sub_diag, skipn_all.
  reflexivity.
Qed.

Lemma firstn_len_app (pre post : str) : firstn (Z.to_nat (len pre)) (pre ++ post) = pre.
Proof.
  unfold len. rewrite Nat2Z.id. rewrite firstn_app, Nat.sub_diag, firstn_all.
  cbn. now rewrite app_nil_r.
Qed.

(** The suffix is the last extension of the name: it starts at the last
    dot, which is neither the first nor the last character. *)
Lemma suffix_spec (p : path) :
  stem p ++ suffix p = name p
  /\ (suffix p = []
      \/ exists ext, suffix p = dot :: ext /\ ext <> []
                     /\ contains dot ext = false /\ stem p <> []).
Proof.
  unfold stem, suffix. generalize (name p) as n. intros n.
  unfold rfind.
  destruct (rfind_from_spec dot n 0 (-1)) as [[Hn Hr] | (pre & post & En & Hpost & Hr)].
  - rewrite Hr. cbn. split; [now rewrite app_nil_r | now left].
  - rewrite Hr, Z.add_0_l. subst n.
    assert (Hlen : len (pre ++ dot :: post) = len pre + 1 + len post).
    { unfold len. rewrite length_app. cbn [length]. lia. }
    assert (Hpre : 0 <= len pre) by (unfold len; lia).
    assert (Hpost' : 0 <= len post) by (unfold len; lia).
    destruct (Z.ltb_spec 0 (len pre)) as [Hp|Hp];
      destruct (Z.ltb_spec (len pre) (len (pre ++ dot :: post) - 1)) as [Hq|Hq];
      cbn [andb];
      try (split; [now rewrite app_nil_r | now left]).
    unfold slice_from, slice_to.
    rewrite skipn_len_app.
    replace (len (pre ++ dot :: post) - len (dot :: post)) with (len pre)
      by (unfold len; rewrite length_app; lia).
    rewrite firstn_len_app.
    split; [reflexivity|]. right. exists post. repeat split; auto.
    + destruct post; [unfold len in *; cbn in *; lia | discriminate].
    + destruct pre; [unfold len in *; cbn in *; lia | discriminate].
Qed.

(** [with_suffix] for the four formats of the program. *)
Lemma with_suffix_canonical (p : path) (fmt : str) :
  In fmt canonical_formats ->
  with_suffix p (u "." ++ fmt)
  = match name p with
    | [] => Raise (Builtin EmptyName)
    | _ => Ok (mkPath (root p) (removelast (parts p) ++ [stem p ++ u "." ++ fmt]))
    end.
Proof.
  intros Hin. unfold with_suffix, stem.
  assert (E : contains slash (u "." ++ fmt) = false
              /\ eqb (u "." ++ fmt) [dot] = false).
  { cbn in Hin. destruct Hin as [<-|[<-|[<-|[<-|[]]]]]; split; reflexivity. }
  destruct E as [-> E2].
  change (u "." ++ fmt) with (dot :: fmt) in *.
  rewrite E2. unfold char_eqb. rewrite N.eqb_refl. cbn [negb orb].
  destruct (name p); [reflexivity|].
  destruct (suffix p); reflexivity.
Qed.

End PathFacts.

Import PathFacts.

Module ClaimFacts.

#[local] Opaque one overflow_threshold.

Lemma nonneg_double_rep (a : Z) :
  nonneg_double (Finite a) = true -> 0 <= a /\ rep a /\ a < overflow_threshold.
Proof.
  cbn [nonneg_double]. intros H. apply andb_true_iff in H as [H0 Hd].
  apply Z.leb_le in H0. split; [assumption|].
  split; [now apply is_double_abs_rep|].
  unfold is_double_abs in Hd. apply andb_true_iff in Hd as [_ Hd].
  now apply Z.ltb_lt in Hd.
Qed.

Lemma short_time_rep (x : pyfloat) :
  short_time x = true ->
  exists a, x = Finite a /\ nonneg_double x = true /\ a < 2 ^ 32 * one.
Proof.
  destruct x as [a| |]; cbn [short_time]; try discriminate.
  intros H. apply andb_true_iff in H as [H1 H2]. apply Z.ltb_lt in H2.
  exists a. repeat split; assumption.
Qed.

Lemma pow32_lt_pow53 : 2 ^ 32 * one < 2 ^ prec * one.
Proof. pose proof one_pos. apply Z.mul_lt_mono_pos_r; [lia|reflexivity]. Qed.

Lemma below_53_lt_overflow (a : Z) : a < 2 ^ prec * one -> a < overflow_threshold.
Proof.
  intros H. pose proof (small_lt_overflow (2 ^ prec)
    ltac:(split; [apply Z.pow_nonneg; lia | apply pow2_le; unfold prec; lia])).
  lia.
Qed.

(** The digits of a number start with a zero only for zero itself. *)
Lemma decimal_digits_tight (fuel : nat) : forall n acc,
  0 <= n < 10 ^ Z.of_nat fuel -> (0 < fuel)%nat ->
  exists k, length (decimal_digits fuel n acc) = (length acc + k)%nat
            /\ (1 <= k)%nat /\ (k = 1%nat \/ 10 ^ (Z.of_nat k - 1) <= n).
Proof.
  induction fuel as [|fuel IH]; intros n acc Hn Hf; [lia|].
  cbn [decimal_digits]. destruct (Z.ltb_spec n 10) as [Hs|Hb].
  - exists 1%nat. cbn [length]. split; [lia|]. split; [lia|]. now left.
  - assert (Hp : 10 ^ Z.of_nat (S fuel) = 10 * 10 ^ Z.of_nat fuel)
      by (rewrite Nat2Z.inj_succ, Z.pow_succ_r by lia; reflexivity).
    assert (Hq : 1 <= n / 10 < 10 ^ Z.of_nat fuel).
    { split; [apply Z.div_le_lower_bound; lia|].
      apply Z.div_lt_upper_bound; lia. }
    assert (Hfuel : (0 < fuel)%nat).
    { destruct fuel; [cbn in Hq; lia | lia]. }
    destruct (IH (n / 10) (digit_char (n mod 10) :: acc) ltac:(lia) Hfuel)
      as (k & Hl & Hk & Ht).
    exists (S k). cbn [length] in Hl. split; [lia|]. split; [lia|]. right.
    replace (Z.of_nat (S k) - 1) with (Z.succ (Z.of_nat k - 1)) by lia.
    rewrite Z.pow_succ_r by lia.
    assert (10 ^ (Z.of_nat k - 1) <= n / 10).
    { destruct Ht as [->|Ht]; [cbn; lia | exact Ht]. }
    pose proof (Z.mul_div_le n 10 ltac:(lia)). lia.
Qed.

Lemma str_of_nonneg_tight (n : Z) :
  0 <= n ->
  (1 <= length (str_of_nonneg n))%nat
  /\ (length (str_of_nonneg n) = 1%nat
      \/ 10 ^ (Z.of_nat (length (str_of_nonneg n)) - 1) <= n).
Proof.
  intros Hn. unfold str_of_nonneg.
  destruct (decimal_digits_tight (S (Z.to_nat (Z.log2 n))) n [])
    as (k & Hl & Hk & Ht); [split; [lia | now apply fuel_enough] | lia |].
  cbn [length] in Hl. rewrite Hl. cbn [Nat.add]. split; [lia|]. exact Ht.
Qed.

(** What the formatter writes for a field is its zero-padded decimal
    writing. *)
Lemma format_0d_padded (w : nat) (n : Z) :
  (2 <= w)%nat -> 0 <= n -> padded w n (format_0d w n) = true.
Proof.
  intros Hw Hn. unfold padded.
  rewrite format_0d_digits, format_0d_value by assumption.
  rewrite Z.eqb_refl. cbn [andb].
  rewrite format_0d_nonneg by assumption.
  destruct (str_of_nonneg_tight n Hn) as [H1 Ht].
  rewrite length_app, repeat_length.
  set (L := length (str_of_nonneg n)) in *.
  destruct (Nat.le_gt_cases L w) as [Hle|Hgt].
  - replace (w - L + L)%nat with w by lia. now rewrite Nat.eqb_refl.
  - replace (w - L + L)%nat with L by lia.
    destruct (Nat.eqb_spec L w) as [E|_]; [lia|]. cbn [orb].
    destruct (Nat.ltb_spec w L) as [_|E]; [|lia]. cbn [andb].
    apply Z.leb_le. destruct Ht as [Ht|Ht]; [lia | exact Ht].
Qed.

Lemma timing_line_ok (seg : segment) (c : bool) :
  nonneg_double (start seg) = true -> nonneg_double (end_ seg) = true ->
  exists line, timing_line seg c = Ok line.
Proof.
  intros Hs He. unfold timing_line.
  destruct (start seg) as [a| |]; try discriminate.
  destruct (end_ seg) as [b| |]; try discriminate.
  destruct (nonneg_double_rep a Hs) as (_ & Ra & La).
  destruct (nonneg_double_rep b He) as (_ & Rb & Lb).
  destruct (format_timestamp_fields a c Ra La) as (h & _ & _ & _ & _ & ->).
  destruct (format_timestamp_fields b c Rb Lb) as (h' & _ & _ & _ & _ & ->).
  cbn [bind]. eexists; reflexivity.
Qed.

Lemma srt_blocks_ok (segments : list segment) :
  Forall (fun seg => nonneg_double (start seg) = true
                     /\ nonneg_double (end_ seg) = true) segments ->
  forall i, exists bs, srt_blocks i segments = Ok bs.
Proof.
  induction 1 as [|seg rest [Hs He] _ IH]; intros i.
  - exists []. reflexivity.
  - cbn [srt_blocks]. unfold srt_block.
    destruct (timing_line_ok seg true Hs He) as (line & ->). cbn [bind].
    destruct (IH (i + 1)) as (bs & ->). cbn [bind]. eexists; reflexivity.
Qed.

(** The two documents of the scenario. *)
Lemma hello_world_srt_document : generate_srt hello_world = Ok hello_world_srt.
Proof. vm_compute. reflexivity. Qed.

Lemma hello_world_vtt_document : generate_vtt hello_world = Ok hello_world_vtt.
Proof. vm_compute. reflexivity. Qed.

Lemma differs_by_final_newline (doc : str) : eqb doc (doc ++ nl) = false.
Proof.
  induction doc as [|c doc IH]; [reflexivity|].
  cbn [app eqb]. unfold char_eqb. now rewrite N.eqb_refl, IH.
Qed.

Lemma not_eqb_neq (s t : str) : eqb s t = false -> s <> t.
Proof. intros H E. apply eqb_eq in E. congruence. Qed.

End ClaimFacts.

Import ClaimFacts.

Module StdlibAgreement.

(** The operations of the model give the results of the Standard
    Library's [SFmul], [SFadd], [SFsub] and [SFdiv] on the values the
    formatter meets. *)
Example fmul_agrees :
  map (fun x => to_spec (fmul x sample_thousand)) sample_fractions
  = map (fun x => SFmul 53 1024 (to_spec x) (to_spec sample_thousand))
      sample_fractions.
Proof. vm_compute. reflexivity. Qed.

Example fadd_fsub_agree :
  map (fun p => (to_spec (fadd (fst p) (snd p)), to_spec (fsub (fst p) (snd p))))
      sample_sums
  = map (fun p => (SFadd 53 1024 (to_spec (fst p)) (to_spec (snd p)),
                   SFsub 53 1024 (to_spec (fst p)) (to_spec (snd p))))
      sample_sums.
Proof. vm_compute. reflexivity. Qed.

Example fdiv_agrees :
  map (fun p => to_spec (fdiv (fst p) (snd p))) sample_quotients
  = map (fun p => SFdiv 53 1024 (to_spec (fst p)) (to_spec (snd p)))
      sample_quotients.
Proof. vm_compute. reflexivity. Qed.

Example doubles_are_valid :
  forallb (fun x => valid_binary 53 1024 (to_spec x)) sample_fractions = true.
Proof. vm_compute. reflexivity. Qed.

(** Values of the formatter on a running interpreter: 3661.999 loses a
    millisecond to the binary fraction, 0.009 gains one by the rounding of
    the product, a negative time gives signed fields, and an infinity or a
    NaN is refused by [int]. *)
Example format_timestamp_samples :
  map (fun x => format_timestamp x true) sample_times
  = [Ok (u "01:01:01,998"); Ok (u "00:00:00,009"); Ok (u "-1:59:59,-500");
     Raise (Builtin NaNToInteger); Raise (Builtin NaNToInteger)].
Proof. vm_compute. reflexivity. Qed.

End StdlibAgreement.

Import StdlibAgreement.

Module NegativeFacts.

#[local] Opaque one overflow_threshold.

Lemma overflow_pos : 0 < overflow_threshold.
Proof. pose proof one_lt_overflow. pose proof one_pos. lia. Qed.

Lemma round64_opp (n d : Z) : 0 < d -> round64 (- n) d = fneg (round64 n d).
Proof.
  intros Hd. unfold round64. rewrite Z.abs_opp.
  destruct (Z.leb_spec overflow_threshold (rne (Z.abs n) d)) as [Hov|Hfin];
    cbn [fneg].
  - destruct (Z.eq_dec n 0) as [->|Hn].
    + cbn [Z.abs] in Hov. rewrite rne_0 in Hov by lia.
      pose proof overflow_pos. lia.
    + f_equal. destruct (Z.ltb_spec (- n) 0), (Z.ltb_spec n 0);
        cbn [negb]; try reflexivity; lia.
  - f_equal. rewrite Z.sgn_opp. lia.
Qed.

(** A rounded result between a double [L] and a double [B], on the side
    of zero the exact value is on. *)
Lemma round64_between (n d L B : Z) :
  0 < d -> rep L -> rep B -> B < overflow_threshold ->
  L * d <= Z.abs n <= B * d ->
  exists r, round64 n d = Finite r /\ L <= Z.abs r <= B
            /\ (0 <= n -> 0 <= r) /\ (n <= 0 -> r <= 0).
Proof.
  intros Hd HL HB Hlt Hn.
  assert (Hpos : forall m, 0 <= m -> L * d <= m <= B * d ->
            round64 m d = Finite (rne m d) /\ L <= rne m d <= B).
  { intros m Hm Hb.
    destruct (round64_le m d B) as [E Hr]; try lia; auto.
    split; [exact E|]. split; [|lia]. apply rne_ge; auto; lia. }
  pose proof (rep_nonneg L HL) as HL0.
  destruct (Z.le_gt_cases 0 n) as [Hs|Hs].
  - rewrite Z.abs_eq in Hn by lia.
    destruct (Hpos n Hs Hn) as [E Hr].
    exists (rne n d). split; [exact E|].
    rewrite Z.abs_eq by lia. split; [lia|]. split; [lia|].
    intros Hle. assert (n = 0) by lia. subst n.
    rewrite rne_0 by lia. lia.
  - rewrite Z.abs_neq in Hn by lia.
    destruct (Hpos (- n) ltac:(lia) Hn) as [E Hr].
    exists (- rne (- n) d).
    replace n with (- - n) at 1 by lia.
    rewrite round64_opp, E by lia. cbn [fneg].
    split; [reflexivity|]. rewrite Z.abs_neq by lia.
    split; [lia|]. split; lia.
Qed.

Lemma rep_pow2 (k : Z) : 0 <= k -> rep (2 ^ k).
Proof.
  intros Hk. exists 1, k. split; [lia|]. split; [|lia].
  split; [lia|]. change 1 with (2 ^ 0) at 1.
  apply Z.pow_lt_mono_r; unfold prec; lia.
Qed.

Lemma overflow_eq : overflow_threshold = 2 ^ 2098.
Proof. reflexivity. Qed.

Lemma pow2_lt_overflow (k : Z) : 0 <= k < 2098 -> 2 ^ k < overflow_threshold.
Proof. intros Hk. rewrite overflow_eq. apply Z.pow_lt_mono_r; lia. Qed.

Lemma fmul_opp (a b : Z) :
  fmul (Finite (- a)) (Finite b) = fneg (fmul (Finite a) (Finite b)).
Proof.
  cbn [fmul]. replace (- a * b) with (- (a * b)) by lia.
  apply round64_opp, one_pos.
Qed.

(** The last step of [_float_div_mod] on a quotient not above -1.0. *)
Lemma floor_quotient_negative (d T : Z) :
  d <= - one -> - d <= T -> rep T -> T < overflow_threshold ->
  exists h,
    (if nonzero (Finite d) then
       let fl := ffloor (Finite d) in
       if flt (Finite (one / 2)) (fsub (Finite d) fl) then fadd fl (Finite one)
       else fl
     else Finite 0) = Finite h
    /\ h <= - one.
Proof.
  intros Hd HT RT LT. pose proof one_pos as H1.
  assert (R0 : rep 0) by apply rep_0.
  assert (R1 : rep one) by (rewrite one_eq; apply rep_pow2; lia).
  pose proof one_lt_overflow as L1.
  cbn [nonzero]. destruct (Z.eqb_spec d 0) as [E|_]; [lia|]. cbn [negb].
  cbn zeta. cbn [ffloor]. rewrite fsub_finite.
  pose proof (Z.mod_pos_bound d one H1) as Hm.
  pose proof (Z.div_mod d one ltac:(lia)) as Hdm.
  replace (d - d / one * one) with (d mod one) by lia.
  destruct (round64_between (d mod one) 1 0 one) as (g & Eg & Hg & Hg0 & Hg1);
    auto; [rewrite Z.abs_eq by lia; lia|].
  rewrite Eg. cbn [flt].
  assert (Hq : d / one <= -1).
  { apply Z.lt_succ_r. apply Z.div_lt_upper_bound; lia. }
  pose proof (Z.div_pos one 2 ltac:(lia) ltac:(lia)) as Hhalf.
  destruct (Z.ltb_spec (one / 2) g) as [Hup|Hdown].
  - assert (Hne : d mod one <> 0).
    { intros E. specialize (Hg1 ltac:(lia)). specialize (Hg0 ltac:(lia)). lia. }
    assert (Hq2 : d / one <= -2).
    { destruct (Z.eq_dec (d / one) (-1)) as [E|NE]; [|lia].
      rewrite E in Hdm. lia. }
    cbn [fadd].
    destruct (round64_between (d / one * one + one) 1 one T)
      as (h & Eh & Hh & _ & Hh1); auto.
    { rewrite Z.abs_neq by nia. nia. }
    exists h. split; [exact Eh|]. specialize (Hh1 ltac:(nia)).
    rewrite Z.abs_neq in Hh by lia. lia.
  - exists (d / one * one). split; [reflexivity|]. nia.
Qed.

(** [x // 3600] of a negative double is a finite number not above -1.0. *)
Lemma floordiv_3600_negative (a : Z) :
  a < 0 -> rep (- a) -> - a < overflow_threshold ->
  exists h, floordiv_int (Finite a) 3600 = Ok (Finite h) /\ h <= - one.
Proof.
  intros Ha Hr Hlt. pose proof one_pos as H1.
  assert (P53 : 2 ^ prec = 9007199254740992) by reflexivity.
  set (b := 3600 * one). assert (Hb : 0 < b) by (unfold b; lia).
  assert (R0 : rep 0) by apply rep_0.
  assert (R1 : rep one) by (rewrite one_eq; apply rep_pow2; lia).
  assert (RG : rep (2 ^ 2087)) by (apply rep_pow2; lia).
  assert (RT : rep (2 ^ 2090)) by (apply rep_pow2; lia).
  assert (LT : 2 ^ 2090 < overflow_threshold) by (apply pow2_lt_overflow; lia).
  assert (S87 : 2 ^ 2090 = 8 * 2 ^ 2087) by reflexivity.
  assert (S98 : overflow_threshold = 2048 * 2 ^ 2087) by reflexivity.
  assert (Sone : one <= 2 ^ 2087) by (rewrite one_eq; apply pow2_le; lia).
  set (G := 2 ^ 2087) in *. clearbody G.
  set (T := 2 ^ 2090) in *. clearbody T.
  unfold floordiv_int. rewrite of_int_exact by lia. fold b.
  cbn [bind nonzero].
  destruct (Z.eqb_spec b 0) as [E|_]; [lia|]. cbn [negb].
  unfold float_div_mod. cbn [fmod].
  destruct (Z.eqb_spec b 0) as [E|_]; [lia|].
  (* the truncated remainder *)
  set (m := Z.rem a b).
  assert (Hm : - b < m <= 0).
  { pose proof (Z.rem_bound_pos_neg a b Hb ltac:(lia)) as H. fold m in H. lia. }
  assert (Hdm : a = b * Z.quot a b + m) by apply Z.quot_rem'.
  rewrite fsub_finite.
  (* c = fl(a - m) *)
  assert (Hq : Z.quot a b <= 0) by (apply Z.quot_le_upper_bound; lia).
  assert (Ham : a <= a - m <= 0) by nia.
  destruct (round64_between (a - m) 1 0 (- a)) as (c & Ec & Hc & _ & Hc0);
    auto; [rewrite Z.abs_neq by lia; lia|].
  rewrite Ec. specialize (Hc0 ltac:(lia)).
  rewrite Z.abs_neq in Hc by lia.
  assert (Hcm : m = 0 -> c <= - b).
  { intros Em. rewrite Em, Z.sub_0_r in Ec.
    destruct (round64_between a 1 (- a) (- a)) as (c' & Ec' & Hc' & _ & Hc'0);
      auto; [rewrite Z.abs_neq by lia; lia|].
    rewrite Ec in Ec'. injection Ec' as <-.
    specialize (Hc'0 ltac:(lia)). rewrite Z.abs_neq in Hc' by lia.
    rewrite Em in Hdm.
    assert (Z.quot a b <> 0) by (intros E0; rewrite E0 in Hdm; lia).
    assert (b * Z.quot a b <= b * -1) by (apply Z.mul_le_mono_nonneg_l; lia).
    lia. }
  (* e = fl(c / b) *)
  cbn [fdiv]. destruct (Z.eqb_spec b 0) as [E|_]; [lia|].
  rewrite Z.sgn_pos, Z.abs_eq, Z.mul_1_l by lia.
  assert (Hco : Z.abs (c * one) = - c * one) by (rewrite Z.abs_neq by nia; lia).
  assert (LG : G < overflow_threshold) by lia.
  destruct (round64_between (c * one) b 0 G) as (e & Ee & He & _ & He0); auto.
  { rewrite Hco. unfold b. nia. }
  rewrite Ee. specialize (He0 ltac:(nia)).
  rewrite Z.abs_neq in He by lia.
  assert (Hem : m = 0 -> e <= - one).
  { intros Em. specialize (Hcm Em).
    destruct (round64_between (c * one) b one G) as (e' & Ee' & He' & _ & He'0);
      auto.
    { rewrite Hco. unfold b in *. nia. }
    rewrite Ee in Ee'. injection Ee' as <-.
    rewrite Z.abs_neq in He' by lia. lia. }
  cbn [nonzero flt].
  destruct (Z.eqb_spec m 0) as [Em|NE]; cbn [negb].
  - cbn [fst].
    destruct (floor_quotient_negative e T) as (h & Eh & Hh); auto; try lia.
    exists h. split; [exact (f_equal Ok Eh) | exact Hh].
  - destruct (Z.ltb_spec b 0); [lia|].
    destruct (Z.ltb_spec m 0); [|lia]. cbn [xorb].
    rewrite fsub_finite.
    destruct (round64_between (e - one) 1 one T) as (d & Ed & Hd & _ & Hd0);
      auto; [rewrite Z.abs_neq by lia; lia|].
    rewrite Ed. specialize (Hd0 ltac:(lia)).
    rewrite Z.abs_neq in Hd by lia. cbn [fst].
    destruct (floor_quotient_negative d T) as (h & Eh & Hh); auto; try lia.
    exists h. split; [exact (f_equal Ok Eh) | exact Hh].
Qed.

(** [x % n] of a negative double lies between 0 and n, both included. *)
Lemma mod_int_negative (a n : Z) :
  a < 0 -> 0 < n < 2 ^ prec ->
  exists r, mod_int (Finite a) n = Ok (Finite r) /\ rep r /\ 0 <= r <= n * one.
Proof.
  intros Ha Hn. pose proof one_pos as H1.
  set (b := n * one). assert (Hb : 0 < b) by (unfold b; nia).
  assert (RB : rep b) by (apply rep_mul_one; lia).
  assert (LB : b < overflow_threshold).
  { assert (2 ^ prec <= 2 ^ 54) by (apply pow2_le; unfold prec; lia).
    apply small_lt_overflow; lia. }
  unfold mod_int. rewrite of_int_exact by lia. fold b. cbn [bind nonzero].
  destruct (Z.eqb_spec b 0) as [E|_]; [lia|]. cbn [negb fmod].
  destruct (Z.eqb_spec b 0) as [E|_]; [lia|].
  set (m := Z.rem a b).
  assert (Hm : - b < m <= 0).
  { pose proof (Z.rem_bound_pos_neg a b Hb ltac:(lia)) as H. fold m in H. lia. }
  cbn [nonzero flt].
  destruct (Z.eqb_spec m 0) as [Em|NE]; cbn [negb].
  - exists 0. split; [reflexivity|]. split; [apply rep_0 | lia].
  - destruct (Z.ltb_spec b 0); [lia|].
    destruct (Z.ltb_spec m 0); [|lia]. cbn [xorb fadd].
    destruct (round64_le (m + b) 1 b) as [E Hr]; try lia; auto.
    exists (rne (m + b) 1). split; [now rewrite E|].
    split; [apply rne_rep; lia | lia].
Qed.

(** What [format_timestamp] computes on a negative double: an hours field
    below zero, minutes and seconds fields up to 60 and the milliseconds
    of the opposite time with the sign changed. *)
Lemma format_timestamp_negative (a : Z) (use_comma : bool) :
  a < 0 -> rep (- a) -> - a < overflow_threshold ->
  exists h m s,
    format_timestamp (Finite a) use_comma
    = Ok (fields_text h m s (- millis_of (- a)) use_comma)
    /\ h <= -1 /\ 0 <= m <= 60 /\ 0 <= s <= 60.
Proof.
  intros Ha Hr Hlt. pose proof one_pos as H1.
  assert (P53 : 2 ^ prec = 9007199254740992) by reflexivity.
  destruct (floordiv_3600_negative a Ha Hr Hlt) as (q & Eq & Hq).
  destruct (mod_int_negative a 3600 Ha ltac:(lia)) as (r & Er & Rr & Hr3).
  destruct (mod_int_negative a 60 Ha ltac:(lia)) as (r' & Er' & Rr' & Hr6).
  assert (Hm : 0 <= r / (60 * one) <= 60).
  { split; [apply Z.div_pos; lia|].
    apply Z.lt_succ_r. apply Z.div_lt_upper_bound; lia. }
  assert (Hs : 0 <= r' / one <= 60).
  { split; [apply Z.div_pos; lia|].
    apply Z.lt_succ_r. apply Z.div_lt_upper_bound; lia. }
  exists (Z.quot q one), (r / (60 * one)), (r' / one).
  split; [|split; [|split; assumption]].
  - unfold format_timestamp. rewrite Eq. cbn [bind to_int].
    rewrite Er. cbn [bind].
    rewrite floordiv_int_exact by lia. cbn [bind].
    rewrite to_int_nonneg by nia. cbn [bind].
    rewrite Z.div_mul by lia.
    rewrite Er'. cbn [bind].
    rewrite to_int_nonneg by lia. cbn [bind].
    (* the whole part and the fraction *)
    set (p := - a) in *. assert (Ea : a = - p) by (unfold p; lia).
    assert (Hp : 0 < p) by lia.
    pose proof (Z.mod_pos_bound p one H1) as Hf.
    pose proof (Z.div_mod p one ltac:(lia)) as Hdm.
    assert (Equot : Z.quot a one = - (p / one)).
    { rewrite Ea, Z.quot_opp_l, Z.quot_div_nonneg by lia. reflexivity. }
    rewrite Equot.
    assert (Ewhole : of_int (- (p / one)) = Ok (Finite (- (p / one * one)))).
    { unfold of_int, of_Z.
      replace (- (p / one) * one) with (- (p / one * one)) by lia.
      rewrite round64_opp by lia.
      rewrite round64_exact; [reflexivity | now apply rep_floor | lia]. }
    unfold sub_int. rewrite Ewhole. cbn [bind].
    rewrite fsub_finite.
    replace (a - - (p / one * one)) with (- (p mod one)) by lia.
    rewrite round64_opp by lia.
    rewrite round64_exact;
      [| now apply rep_frac | pose proof one_lt_overflow; lia].
    cbn [fneg].
    destruct (mul_int_frac (p mod one)) as [Em Hb]; [now apply rep_frac | lia |].
    unfold mul_int in Em |- *. rewrite of_int_exact in Em |- * by lia.
    cbn [bind] in Em |- *.
    assert (Em' : fmul (Finite (p mod one)) (Finite (1000 * one))
                  = Finite (rne (p mod one * 1000) 1))
      by (injection Em as Em; exact Em).
    rewrite fmul_opp, Em'. cbn [fneg bind to_int].
    rewrite Z.quot_opp_l by lia.
    rewrite (Z.quot_div_nonneg (rne (p mod one * 1000) 1) one) by lia.
    reflexivity.
  - apply Z.quot_le_upper_bound; lia.
Qed.

(** The text of a negative hours field begins with a minus sign. *)
Lemma fields_text_negative (h m s ms : Z) (use_comma : bool) :
  h < 0 ->
  exists rest, fields_text h m s ms use_comma = 45%N :: rest.
Proof.
  intros Hh. unfold fields_text, format_0d.
  destruct (Z.ltb_spec h 0); [|lia].
  eexists. cbn [app]. reflexivity.
Qed.

(** An infinity or a NaN: the first quotient is a NaN, which [int]
    refuses. *)
Lemma format_timestamp_not_finite (x : pyfloat) (use_comma : bool) :
  is_finite x = false ->
  format_timestamp x use_comma = Raise (Builtin NaNToInteger).
Proof.
  intros Hx. pose proof one_pos as H1.
  assert (P53 : 2 ^ prec = 9007199254740992) by reflexivity.
  unfold format_timestamp, floordiv_int.
  rewrite of_int_exact by lia. cbn [bind nonzero].
  destruct (Z.eqb_spec (3600 * one) 0) as [E|_]; [lia|]. cbn [negb].
  destruct x as [a|s|]; [discriminate| |].
  - unfold float_div_mod. cbn [fmod fsub fneg fadd fdiv nonzero flt].
    destruct (Z.ltb_spec (3600 * one) 0); [lia|]. cbn [xorb].
    cbn [nonzero ffloor fsub fneg fadd flt fst bind to_int]. reflexivity.
  - unfold float_div_mod. cbn [fmod fsub fneg fadd fdiv nonzero flt].
    destruct (Z.ltb_spec (3600 * one) 0); [lia|]. cbn [xorb].
    cbn [nonzero ffloor fsub fneg fadd flt fst bind to_int]. reflexivity.
Qed.

(** Every finite double is formatted. *)
Lemma format_timestamp_finite (a : Z) (use_comma : bool) :
  is_double (Finite a) = true ->
  exists t, format_timestamp (Finite a) use_comma = Ok t.
Proof.
  cbn [is_double]. intros Hd.
  destruct (Z.le_gt_cases 0 a) as [Hs|Hs].
  - rewrite Z.abs_eq in Hd by lia.
    destruct (nonneg_double_rep a) as (_ & Hr & Hlt).
    { cbn [nonneg_double]. rewrite Hd.
      destruct (Z.leb_spec 0 a); [reflexivity|lia]. }
    destruct (format_timestamp_fields a use_comma Hr Hlt) as (h & _ & _ & _ & _ & E).
    eexists; exact E.
  - rewrite Z.abs_neq in Hd by lia.
    destruct (nonneg_double_rep (- a)) as (_ & Hr & Hlt).
    { cbn [nonneg_double]. rewrite Hd.
      destruct (Z.leb_spec 0 (- a)); [reflexivity|lia]. }
    destruct (format_timestamp_negative a use_comma Hs Hr Hlt)
      as (h & m & s & E & _).
    eexists; exact E.
Qed.

End NegativeFacts.

Import NegativeFacts.

Module AccuracyFacts.

#[local] Opaque one overflow_threshold.

(** The milliseconds field is the truncated fraction, or one more when
    the product by 1000 rounds up to a whole number. *)
Lemma millis_of_floor (a : Z) :
  0 <= a ->
  a mod one * 1000 / one <= millis_of a <= a mod one * 1000 / one + 1.
Proof.
  intros Ha. pose proof one_pos as H1. unfold millis_of.
  assert (P53 : 2 ^ prec = 9007199254740992) by reflexivity.
  pose proof (Z.mod_pos_bound a one H1) as Hf.
  set (f := a mod one) in *. set (k := f * 1000 / one).
  assert (Hk : 0 <= k < 1000).
  { unfold k. split; [apply Z.div_pos; lia|].
    apply Z.div_lt_upper_bound; lia. }
  pose proof (Z.div_mod (f * 1000) one ltac:(lia)) as Hdm. fold k in Hdm.
  pose proof (Z.mod_pos_bound (f * 1000) one H1) as Hr.
  assert (Lo : k * one <= rne (f * 1000) 1).
  { apply rne_ge; [lia | apply rep_mul_one; lia | lia]. }
  assert (Hi : rne (f * 1000) 1 <= (k + 1) * one).
  { apply rne_le; [lia | lia | apply rep_mul_one; lia | lia]. }
  split.
  - apply Z.div_le_lower_bound; lia.
  - apply Z.lt_succ_r. apply Z.div_lt_upper_bound; lia.
Qed.

(** A fraction that is a whole number of milliseconds is written as is. *)
Lemma millis_of_exact (a : Z) :
  0 <= a -> (a mod one * 1000) mod one = 0 ->
  millis_of a * one = a mod one * 1000.
Proof.
  intros Ha Hz. pose proof one_pos as H1. unfold millis_of.
  assert (P53 : 2 ^ prec = 9007199254740992) by reflexivity.
  pose proof (Z.mod_pos_bound a one H1) as Hf.
  set (f := a mod one) in *. set (k := f * 1000 / one).
  assert (Hk : 0 <= k < 1000).
  { unfold k. split; [apply Z.div_pos; lia|].
    apply Z.div_lt_upper_bound; lia. }
  pose proof (Z.div_mod (f * 1000) one ltac:(lia)) as Hdm. fold k in Hdm.
  rewrite Hz in Hdm.
  replace (f * 1000) with (k * one) by lia.
  rewrite rep_rne by (apply rep_mul_one; lia).
  now rewrite Z.div_mul by lia.
Qed.

(** The smaller of two different two-digit fields gives the smaller
    text, whatever follows. *)
Lemma leb_two_digits_lt (x y : Z) (s t : str) :
  0 <= x < y -> y < 100 -> leb (two_digits x ++ s) (two_digits y ++ t) = true.
Proof.
  intros Hx Hy. unfold two_digits, digit_char. cbn [app leb].
  assert (Dx : 0 <= x / 10 < 10 /\ 0 <= x mod 10 < 10 /\ x = 10 * (x / 10) + x mod 10)
    by (Z.div_mod_to_equations; lia).
  assert (Dy : 0 <= y / 10 < 10 /\ 0 <= y mod 10 < 10 /\ y = 10 * (y / 10) + y mod 10)
    by (Z.div_mod_to_equations; lia).
  generalize dependent (x / 10). generalize dependent (x mod 10).
  generalize dependent (y / 10). generalize dependent (y mod 10).
  intros y0 y1 Dy x0 x1 Dx.
  destruct (N.ltb_spec (48 + Z.to_N x1) (48 + Z.to_N y1)); [reflexivity|].
  destruct (N.eqb_spec (48 + Z.to_N x1) (48 + Z.to_N y1)); [|lia].
  destruct (N.ltb_spec (48 + Z.to_N x0) (48 + Z.to_N y0)); [reflexivity|lia].
Qed.

(** Texts of fields of fixed width compare as the fields do. *)
Lemma fields_text_leb (h1 m1 s1 ms1 h2 m2 s2 ms2 : Z) (use_comma : bool) :
  0 <= h1 < 100 -> 0 <= m1 < 100 -> 0 <= s1 < 100 -> 0 <= ms1 < 1000 ->
  0 <= h2 < 100 -> 0 <= m2 < 100 -> 0 <= s2 < 100 -> 0 <= ms2 < 1000 ->
  h1 < h2 \/ (h1 = h2 /\ (m1 < m2 \/ (m1 = m2 /\ (s1 < s2 \/ (s1 = s2 /\ ms1 <= ms2))))) ->
  leb (fields_text h1 m1 s1 ms1 use_comma) (fields_text h2 m2 s2 ms2 use_comma)
  = true.
Proof.
  intros Hh1 Hm1 Hs1 Hf1 Hh2 Hm2 Hs2 Hf2 Hord. unfold fields_text.
  rewrite !format_2_small, !format_3_small by lia.
  destruct Hord as [Hlt | [-> Hord]]; [apply leb_two_digits_lt; lia|].
  rewrite leb_app_same. rewrite leb_app_same.
  destruct Hord as [Hlt | [-> Hord]]; [apply leb_two_digits_lt; lia|].
  rewrite leb_app_same. rewrite leb_app_same.
  destruct Hord as [Hlt | [-> Hord]]; [apply leb_two_digits_lt; lia|].
  rewrite leb_app_same. rewrite leb_app_same.
  apply leb_three_digits; lia.
Qed.

(** A text of fields of fixed width has twelve characters. *)
Lemma fields_text_length (h m s ms : Z) (use_comma : bool) :
  0 <= h < 100 -> 0 <= m < 100 -> 0 <= s < 100 -> 0 <= ms < 1000 ->
  length (fields_text h m s ms use_comma) = 12%nat.
Proof.
  intros Hh Hm Hs Hf. unfold fields_text.
  rewrite !format_2_small, !format_3_small by lia.
  destruct use_comma; reflexivity.
Qed.

(** The fields of a number of whole seconds below 100 hours, and their
    order. *)
Lemma fields_ranges (n : Z) :
  0 <= n < 360000 ->
  0 <= n / 3600 < 100 /\ 0 <= n mod 3600 / 60 < 100 /\ 0 <= n mod 60 < 100.
Proof. intros Hn. Z.div_mod_to_equations. lia. Qed.

Lemma fields_lex (n1 n2 ms1 ms2 : Z) :
  0 <= n1 <= n2 -> (n1 = n2 -> ms1 <= ms2) ->
  n1 / 3600 < n2 / 3600
  \/ (n1 / 3600 = n2 / 3600
      /\ (n1 mod 3600 / 60 < n2 mod 3600 / 60
          \/ (n1 mod 3600 / 60 = n2 mod 3600 / 60
              /\ (n1 mod 60 < n2 mod 60
                  \/ (n1 mod 60 = n2 mod 60 /\ ms1 <= ms2))))).
Proof.
  intros Hn Hms. destruct (Z.eq_dec n1 n2) as [->|Hne].
  - right. split; [reflexivity|]. right. split; [reflexivity|].
    right. split; [reflexivity|]. now apply Hms.
  - clear Hms. Z.div_mod_to_equations. lia.
Qed.

End AccuracyFacts.

Import AccuracyFacts.

Module DocumentFacts.

#[local] Opaque one overflow_threshold.

Lemma format_timestamp_ok (x : pyfloat) (use_comma : bool) :
  is_double x = true -> is_ok (format_timestamp x use_comma) = is_finite x.
Proof.
  intros Hd. destruct x as [a|s|].
  - destruct (format_timestamp_finite a use_comma Hd) as (t & E).
    now rewrite E.
  - now rewrite format_timestamp_not_finite.
  - now rewrite format_timestamp_not_finite.
Qed.

Lemma timing_line_ok_iff (seg : segment) (use_comma : bool) :
  double_times seg = true ->
  is_ok (timing_line seg use_comma) = finite_times seg.
Proof.
  unfold double_times, finite_times, timing_line. intros Hd.
  apply andb_prop in Hd. destruct Hd as [H1 H2].
  rewrite <- (format_timestamp_ok (start seg) use_comma H1).
  rewrite <- (format_timestamp_ok (end_ seg) use_comma H2).
  destruct (format_timestamp (start seg) use_comma); cbn [bind is_ok andb];
    [|reflexivity].
  destruct (format_timestamp (end_ seg) use_comma); reflexivity.
Qed.

Lemma srt_blocks_ok_iff (segments : list segment) :
  forallb double_times segments = true ->
  forall i, is_ok (srt_blocks i segments) = forallb finite_times segments.
Proof.
  induction segments as [|seg rest IH]; intros Hd i; [reflexivity|].
  cbn [forallb] in Hd |- *. apply andb_prop in Hd. destruct Hd as [H1 H2].
  rewrite <- (timing_line_ok_iff seg true H1), <- (IH H2 (i + 1)).
  cbn [srt_blocks]. unfold srt_block.
  destruct (timing_line seg true); cbn [bind is_ok andb]; [|reflexivity].
  destruct (srt_blocks (i + 1) rest); reflexivity.
Qed.

Lemma vtt_cues_ok_iff (segments : list segment) :
  forallb double_times segments = true ->
  is_ok (vtt_cues segments) = forallb finite_times segments.
Proof.
  induction segments as [|seg rest IH]; intros Hd; [reflexivity|].
  cbn [forallb] in Hd |- *. apply andb_prop in Hd. destruct Hd as [H1 H2].
  rewrite <- (timing_line_ok_iff seg false H1), <- (IH H2).
  cbn [vtt_cues]. unfold vtt_cue.
  destruct (timing_line seg false); cbn [bind is_ok andb]; [|reflexivity].
  destruct (vtt_cues rest); reflexivity.
Qed.


(** Blocks of a concatenation: the counter goes on. *)
Lemma srt_blocks_app (xs ys : list segment) : forall i,
  srt_blocks i (xs ++ ys)
  = (bs <- srt_blocks i xs ;;
     cs <- srt_blocks (i + Z.of_nat (length xs)) ys ;;
     Ok (bs ++ cs)).
Proof.
  induction xs as [|x xs IH]; intros i.
  - cbn [app srt_blocks bind length Z.of_nat]. rewrite Z.add_0_r.
    destruct (srt_blocks i ys); reflexivity.
  - cbn [app srt_blocks length]. rewrite IH.
    replace (i + 1 + Z.of_nat (length xs)) with (i + Z.of_nat (S (length xs)))
      by lia.
    destruct (srt_block i x); cbn [bind]; [|reflexivity].
    destruct (srt_blocks (i + 1) xs); cbn [bind]; [|reflexivity].
    destruct (srt_blocks _ ys); reflexivity.
Qed.

Lemma vtt_cues_app (xs ys : list segment) :
  vtt_cues (xs ++ ys)
  = (cs <- vtt_cues xs ;; ds <- vtt_cues ys ;; Ok (cs ++ ds)).
Proof.
  induction xs as [|x xs IH].
  - cbn [app vtt_cues bind]. destruct (vtt_cues ys); reflexivity.
  - cbn [app vtt_cues]. rewrite IH.
    destruct (vtt_cue x); cbn [bind]; [|reflexivity].
    destruct (vtt_cues xs); cbn [bind]; [|reflexivity].
    destruct (vtt_cues ys); reflexivity.
Qed.

Lemma join_app (sep : str) (l l' : list str) :
  exists rest, join sep (l ++ l') = join sep l ++ rest.
Proof.
  induction l as [|a l IH].
  - exists (join sep l'). reflexivity.
  - destruct IH as (rest & E). destruct l as [|b l].
    + destruct l' as [|c l'].
      * exists []. cbn [app join]. now rewrite app_nil_r.
      * exists (sep ++ join sep (c :: l')). reflexivity.
    + exists rest. change ((a :: b :: l) ++ l') with (a :: (b :: l) ++ l').
      change (join sep (a :: (b :: l) ++ l'))
        with (a ++ sep ++ join sep ((b :: l) ++ l')).
      rewrite E. change (join sep (a :: b :: l)) with (a ++ sep ++ join sep (b :: l)).
      now rewrite <- !app_assoc.
Qed.

(** [lstrip] removes a run of whitespace and stops at the first other
    character. *)
Lemma lstrip_split (s : str) :
  exists l, s = l ++ lstrip s /\ forallb isspace l = true.
Proof.
  induction s as [|c s (l & E & Hl)].
  - exists []. split; reflexivity.
  - cbn [lstrip]. destruct (isspace c) eqn:Hc.
    + exists (c :: l). split; [cbn [app]; now rewrite <- E|].
      cbn [forallb]. now rewrite Hc, Hl.
    + exists []. split; reflexivity.
Qed.

Lemma lstrip_head (s : str) :
  match lstrip s with
  | c :: _ => isspace c = false
  | [] => True
  end.
Proof.
  induction s as [|c s IH]; [exact I|].
  cbn [lstrip]. destruct (isspace c) eqn:Hc; [exact IH | exact Hc].
Qed.

Lemma forallb_rev (f : N -> bool) (l : str) :
  forallb f (rev l) = forallb f l.
Proof.
  induction l as [|a l IH]; [reflexivity|].
  cbn [rev forallb]. rewrite forallb_app, IH. cbn [forallb].
  rewrite andb_true_r. apply andb_comm.
Qed.

(** [strip]: the text between a leading and a trailing run of whitespace;
    what is left is empty or begins and ends with another character. *)
Lemma strip_spec (s : str) :
  exists l r,
    s = l ++ strip s ++ r
    /\ forallb isspace l = true /\ forallb isspace r = true
    /\ match strip s with
       | c :: t => isspace c = false /\ isspace (last t c) = false
       | [] => True
       end.
Proof.
  destruct (lstrip_split s) as (l & El & Hl).
  destruct (lstrip_split (rev (lstrip s))) as (r & Er & Hr).
  pose proof (lstrip_head s) as Hh.
  pose proof (lstrip_head (rev (lstrip s))) as Ht.
  unfold strip, rstrip.
  remember (lstrip s) as t eqn:Dt. remember (lstrip (rev t)) as w eqn:Dw.
  clear Dt Dw.
  assert (Et : t = rev w ++ rev r).
  { rewrite <- rev_app_distr, <- Er. now rewrite rev_involutive. }
  exists l, (rev r). split; [now rewrite <- Et|].
  split; [exact Hl|]. split; [now rewrite forallb_rev|].
  destruct (rev w) as [|c u0] eqn:Ew; [exact I|].
  split.
  - rewrite Et in Hh. exact Hh.
  - destruct w as [|d w']; [discriminate|].
    cbn [rev] in Ew.
    assert (El' : last (c :: u0) c = d) by (rewrite <- Ew; apply last_last).
    destruct u0 as [|e u1]; [cbn [last] in El' |- *; now subst|].
    change (last (c :: e :: u1) c) with (last (e :: u1) c) in El'.
    now rewrite El'.
Qed.

End DocumentFacts.

Import DocumentFacts.

Module OutputPathFacts.

Lemma rfind_from_absent (c : char) (s : str) : forall i found,
  contains c s = false -> rfind_from i c s found = found.
Proof.
  induction s as [|d s IH]; intros i found Hn; [reflexivity|].
  cbn [contains existsb] in Hn. apply orb_false_elim in Hn.
  destruct Hn as [Hd Hs]. cbn [rfind_from].
  unfold char_eqb in *. rewrite N.eqb_sym, Hd. now apply IH.
Qed.

Lemma rfind_from_last (c : char) (post : str) :
  contains c post = false ->
  forall pre i found, rfind_from i c (pre ++ c :: post) found = i + len pre.
Proof.
  intros Hn. induction pre as [|d pre IH]; intros i found.
  - cbn [app rfind_from]. unfold char_eqb. rewrite N.eqb_refl.
    rewrite rfind_from_absent by assumption. unfold len. cbn. lia.
  - cbn [app rfind_from]. rewrite IH. unfold len. cbn [length]. lia.
Qed.

(** The suffix of a name made of a non-empty stem, a dot and an extension
    without a dot. *)
Lemma suffix_of_name (r : str) (dirs : list str) (st ext : str) :
  st <> [] -> ext <> [] -> contains dot ext = false ->
  name (mkPath r (dirs ++ [st ++ dot :: ext])) = st ++ dot :: ext
  /\ suffix (mkPath r (dirs ++ [st ++ dot :: ext])) = dot :: ext
  /\ stem (mkPath r (dirs ++ [st ++ dot :: ext])) = st.
Proof.
  intros Hst Hext Hn.
  assert (En : name (mkPath r (dirs ++ [st ++ dot :: ext])) = st ++ dot :: ext).
  { unfold name. cbn [parts]. apply last_last. }
  assert (Hlen : len (st ++ dot :: ext) = len st + 1 + len ext).
  { unfold len. rewrite length_app. cbn [length]. lia. }
  assert (H1 : 0 < len st) by (destruct st; [congruence | unfold len; cbn; lia]).
  assert (H2 : 0 < len ext) by (destruct ext; [congruence | unfold len; cbn; lia]).
  assert (Es : suffix (mkPath r (dirs ++ [st ++ dot :: ext])) = dot :: ext).
  { unfold suffix. rewrite En. unfold rfind.
    rewrite rfind_from_last by assumption. rewrite Z.add_0_l.
    destruct (Z.ltb_spec 0 (len st)); [|lia].
    destruct (Z.ltb_spec (len st) (len (st ++ dot :: ext) - 1)); [|lia].
    cbn [andb]. unfold slice_from. apply skipn_len_app. }
  split; [exact En|]. split; [exact Es|].
  unfold stem. rewrite Es, En. unfold slice_to.
  replace (len (st ++ dot :: ext) - len (dot :: ext)) with (len st)
    by (unfold len in *; cbn [length] in *; lia).
  apply firstn_len_app.
Qed.

Lemma canonical_format_plain (fmt : str) :
  In fmt canonical_formats -> fmt <> [] /\ contains dot fmt = false.
Proof.
  intros Hin. cbn in Hin.
  destruct Hin as [<-|[<-|[<-|[<-|[]]]]]; split; (discriminate || reflexivity).
Qed.

(** The stem of a path with a final component is not empty. *)
Lemma stem_nonempty (p : path) : name p <> [] -> stem p <> [].
Proof.
  intros Hn. destruct (suffix_spec p) as [E [Hs | (ext & _ & _ & _ & Hst)]];
    [|exact Hst].
  rewrite Hs, app_nil_r in E. now rewrite E.
Qed.

(** A path with a final component is its directories and that component:
    replacing the component gives the same path only for the same name. *)
Lemma same_path_iff (p : path) (x : str) :
  name p <> [] ->
  mkPath (root p) (removelast (parts p) ++ [x]) = p <-> x = name p.
Proof.
  intros Hn. destruct p as [r ps]. unfold name in *. cbn [root parts] in *.
  assert (Hps : ps <> []) by (intros ->; now apply Hn).
  pose proof (app_removelast_last [] Hps) as E. split.
  - intros H. injection H as H. rewrite E in H at 2.
    apply app_inv_head in H. now injection H.
  - intros ->. now rewrite <- E.
Qed.

(** A path with a final component is its directories and that component. *)
Lemma parts_split (p : path) :
  name p <> [] -> p = mkPath (root p) (removelast (parts p) ++ [name p]).
Proof.
  intros Hn. destruct p as [r ps]. unfold name in *. cbn [root parts] in *.
  f_equal. apply app_removelast_last. intros ->. now apply Hn.
Qed.

(** A final component that ends in an extension: [with_suffix] replaces
    the extension. *)
Lemma with_suffix_replaces (p : path) (base ext fmt : str) :
  In fmt canonical_formats ->
  name p = base ++ dot :: ext -> base <> [] -> ext <> [] ->
  contains dot ext = false ->
  with_suffix p (u "." ++ fmt)
  = Ok (mkPath (root p) (removelast (parts p) ++ [base ++ u "." ++ fmt])).
Proof.
  intros Hin En Hb He Hd.
  assert (Hn : name p <> []) by (rewrite En; destruct base; discriminate).
  destruct (suffix_of_name (root p) (removelast (parts p)) base ext Hb He Hd)
    as (_ & _ & Est).
  rewrite <- En, <- (parts_split p Hn) in Est.
  rewrite (with_suffix_canonical _ _ Hin), Est.
  destruct (name p); [congruence | reflexivity].
Qed.

(** A final component without an extension (no dot, or none but a first
    or a last one): [with_suffix] appends. *)
Lemma with_suffix_appends (p : path) (fmt : str) :
  In fmt canonical_formats -> name p <> [] ->
  (forall base ext, name p = base ++ dot :: ext ->
                    base = [] \/ ext = [] \/ contains dot ext = true) ->
  with_suffix p (u "." ++ fmt)
  = Ok (mkPath (root p) (removelast (parts p) ++ [name p ++ u "." ++ fmt])).
Proof.
  intros Hin Hn Hno.
  assert (Est : stem p = name p).
  { destruct (suffix_spec p) as [E [Hs | (ext & Hs & He & Hd & Hst)]].
    - rewrite Hs, app_nil_r in E. exact E.
    - rewrite Hs in E. symmetry in E.
      destruct (Hno _ _ E) as [H | [H | H]]; [contradiction | contradiction |].
      rewrite Hd in H. discriminate. }
  rewrite (with_suffix_canonical _ _ Hin), Est.
  destruct (name p); [congruence | reflexivity].
Qed.

Lemma canonical_format_no_slash (fmt : str) :
  In fmt canonical_formats -> contains slash fmt = false.
Proof.
  intros Hin. cbn in Hin. destruct Hin as [<-|[<-|[<-|[<-|[]]]]]; reflexivity.
Qed.

(** Renaming the final component of a path in normal form keeps the
    normal form. *)
Lemma plain_renamed (dirs : list str) (nm base : str) (fmt : str) :
  forallb plain_component (dirs ++ [nm]) = true ->
  In fmt canonical_formats -> base <> [] -> contains slash base = false ->
  forallb plain_component (dirs ++ [base ++ u "." ++ fmt]) = true.
Proof.
  intros Hp Hin Hb Hs. rewrite forallb_app in Hp |- *.
  apply andb_true_iff in Hp as [Hd _]. rewrite Hd. cbn [andb forallb].
  rewrite andb_true_r. unfold plain_component.
  destruct base as [|c base]; [congruence|].
  apply andb_true_iff. split.
  - cbn [app is_component eqb]. destruct (base ++ u "." ++ fmt) eqn:E.
    + destruct base; discriminate.
    + now rewrite andb_false_r.
  - unfold contains in *. rewrite existsb_app, Hs. cbn [orb].
    change (u "." ++ fmt) with (dot :: fmt). cbn [existsb].
    pose proof (canonical_format_no_slash fmt Hin) as Hf.
    unfold contains in Hf. rewrite Hf. reflexivity.
Qed.

Lemma to_str_plain (comps : list str) :
  comps <> [] -> forallb plain_component comps = true ->
  to_str (mkPath [] comps) = join [slash] comps.
Proof.
  intros Hne Hp. destruct (Path_plain comps Hne Hp) as [E1 E2].
  now rewrite E1 in E2.
Qed.

(** The default output path of a relative input path in normal form, as
    strings. *)
Lemma default_output_string (dirs : list str) (nm base fmt : str) :
  forallb plain_component (dirs ++ [nm]) = true ->
  In fmt canonical_formats -> base <> [] -> contains slash base = false ->
  with_suffix (Path (join [slash] (dirs ++ [nm]))) (u "." ++ fmt)
  = Ok (mkPath [] (dirs ++ [base ++ u "." ++ fmt])) ->
  exists p,
    resolve_output_path (Path (join [slash] (dirs ++ [nm]))) None fmt = Ok p
    /\ to_str p = join [slash] (dirs ++ [base ++ u "." ++ fmt]).
Proof.
  intros Hp Hin Hb Hs E.
  exists (mkPath [] (dirs ++ [base ++ u "." ++ fmt])).
  split; [exact E|].
  apply to_str_plain; [destruct dirs; discriminate|].
  now apply (plain_renamed dirs nm).
Qed.

(** Why [resolve_output_path] refuses a format that is empty or holds a
    slash. *)
Lemma with_suffix_invalid (p : path) (fmt : str) :
  fmt = [] \/ contains slash fmt = true ->
  with_suffix p (u "." ++ fmt) = Raise (Builtin (InvalidSuffix (u "." ++ fmt))).
Proof.
  intros [-> | Hs]; [reflexivity|].
  unfold with_suffix. change (u "." ++ fmt) with (dot :: fmt).
  cbn [contains existsb]. unfold contains in Hs. rewrite Hs.
  now rewrite orb_true_r.
Qed.

End OutputPathFacts.

Import OutputPathFacts.

Module RunFacts.

Section Runs.

Variable whisper_model : Type.
Variable whisper_result : Type.
Variable load_model : str -> result whisper_model.
Variable model_transcribe : whisper_model -> str -> result whisper_result.
Variable result_segments : whisper_result -> list segment.
Variable result_text : whisper_result -> str.
Variable json_dumps : whisper_result -> result str.
Variable path_exists : path -> bool.
Variable write_file : path -> str -> write_outcome.


End Runs.

End RunFacts.

Import RunFacts.

Module LineFacts.

Lemma contains_app (c : char) (s t : str) :
  contains c (s ++ t) = contains c s || contains c t.
Proof. unfold contains. apply existsb_app. Qed.

Lemma digit_char_not_lf (d : Z) : char_eqb lf (digit_char d) = false.
Proof.
  unfold char_eqb, lf, digit_char. apply N.eqb_neq. lia.
Qed.

Lemma decimal_digits_single_line (fuel : nat) : forall n acc,
  contains lf acc = false -> contains lf (decimal_digits fuel n acc) = false.
Proof.
  induction fuel as [|fuel IH]; intros n acc Hacc; [exact Hacc|].
  cbn [decimal_digits].
  assert (H : contains lf (digit_char (n mod 10) :: acc) = false).
  { cbn [contains existsb]. rewrite digit_char_not_lf. exact Hacc. }
  destruct (n <? 10); [exact H | now apply IH].
Qed.

Lemma str_of_nonneg_single_line (n : Z) : contains lf (str_of_nonneg n) = false.
Proof. unfold str_of_nonneg. now apply decimal_digits_single_line. Qed.

Lemma str_of_int_single_line (n : Z) : contains lf (str_of_int n) = false.
Proof.
  unfold str_of_int. destruct (n <? 0); [|apply str_of_nonneg_single_line].
  cbn [contains existsb]. apply str_of_nonneg_single_line.
Qed.

Lemma repeat_zero_single_line (k : nat) : contains lf (repeat 48%N k) = false.
Proof. induction k as [|k IH]; [reflexivity|exact IH]. Qed.

Lemma format_0d_single_line (w : nat) (n : Z) : contains lf (format_0d w n) = false.
Proof.
  unfold format_0d. rewrite !contains_app.
  rewrite repeat_zero_single_line, str_of_nonneg_single_line.
  destruct (n <? 0); reflexivity.
Qed.

Lemma fields_text_single_line (h m s ms : Z) (use_comma : bool) :
  contains lf (fields_text h m s ms use_comma) = false.
Proof.
  unfold fields_text. rewrite !contains_app, !format_0d_single_line.
  destruct use_comma; reflexivity.
Qed.

(** Whatever the time, a timestamp is the text of four fields. *)
Lemma format_timestamp_text (x : pyfloat) (use_comma : bool) (t : str) :
  format_timestamp x use_comma = Ok t ->
  exists h m s ms, t = fields_text h m s ms use_comma.
Proof.
  unfold format_timestamp.
  destruct (floordiv_int x 3600) as [q|]; cbn [bind]; [|discriminate].
  destruct (to_int q) as [hours|]; cbn [bind]; [|discriminate].
  destruct (mod_int x 3600) as [r|]; cbn [bind]; [|discriminate].
  destruct (floordiv_int r 60) as [q'|]; cbn [bind]; [|discriminate].
  destruct (to_int q') as [minutes|]; cbn [bind]; [|discriminate].
  destruct (mod_int x 60) as [r'|]; cbn [bind]; [|discriminate].
  destruct (to_int r') as [secs|]; cbn [bind]; [|discriminate].
  destruct (to_int x) as [whole|]; cbn [bind]; [|discriminate].
  destruct (sub_int x whole) as [frac|]; cbn [bind]; [|discriminate].
  destruct (mul_int frac 1000) as [p|]; cbn [bind]; [|discriminate].
  destruct (to_int p) as [millis|]; cbn [bind]; [|discriminate].
  intros E. injection E as <-. now exists hours, minutes, secs, millis.
Qed.

Lemma timing_line_single_line (seg : segment) (use_comma : bool) (line : str) :
  timing_line seg use_comma = Ok line -> contains lf line = false.
Proof.
  unfold timing_line.
  destruct (format_timestamp (start seg) use_comma) as [ts|] eqn:Es;
    cbn [bind]; [|discriminate].
  destruct (format_timestamp (end_ seg) use_comma) as [te|] eqn:Ee;
    cbn [bind]; [|discriminate].
  intros E. injection E as <-.
  assert (Hs : contains lf ts = false).
  { destruct (format_timestamp_text _ _ _ Es) as (h & m & s & ms & ->).
    apply fields_text_single_line. }
  assert (He : contains lf te = false).
  { destruct (format_timestamp_text _ _ _ Ee) as (h & m & s & ms & ->).
    apply fields_text_single_line. }
  rewrite contains_app, Hs. exact He.
Qed.

Lemma split_row (w rest : str) :
  contains lf w = false -> split_on lf (w ++ nl ++ rest) = w :: split_on lf rest.
Proof. intros Hw. now apply split_on_app. Qed.

(** The blocks and the rows of the same segments: both fail, with the
    same error, or the rows are the lines of the joined blocks. *)
Lemma srt_blocks_rows (segments : list segment) : forall i,
  forallb (fun seg => single_line (strip (text seg))) segments = true ->
  match srt_blocks i segments, srt_rows i segments with
  | Ok bs, Ok rows => segments <> [] -> split_on lf (join nl bs) = rows
  | Raise e, Raise e' => e = e'
  | _, _ => False
  end.
Proof.
  induction segments as [|seg rest IH]; intros i Hs; [now intros []|].
  cbn [forallb] in Hs. apply andb_prop in Hs. destruct Hs as [Ht Hs].
  unfold single_line in Ht. apply negb_true_iff in Ht.
  specialize (IH (i + 1) Hs).
  pose proof (srt_blocks_length rest (i + 1)) as Hlen.
  cbn [srt_blocks srt_rows]. unfold srt_block.
  destruct (timing_line seg true) as [line|e] eqn:El; cbn [bind]; [|reflexivity].
  pose proof (timing_line_single_line _ _ _ El) as Hl.
  destruct rest as [|seg' rest'].
  - cbn [srt_blocks srt_rows bind join]. intros _.
    rewrite split_row by apply str_of_int_single_line.
    rewrite split_row by exact Hl.
    replace (strip (text seg) ++ nl) with (strip (text seg) ++ nl ++ [])
      by now rewrite app_nil_r.
    rewrite split_row by exact Ht. reflexivity.
  - revert IH Hlen.
    destruct (srt_blocks (i + 1) (seg' :: rest')) as [bs|e],
      (srt_rows (i + 1) (seg' :: rest')) as [rows|e'];
      intros IH Hlen; cbn [bind]; try contradiction; [|exact IH].
    intros _. specialize (Hlen bs eq_refl).
    destruct bs as [|b' bs']; [discriminate|].
    change (join nl (?b :: b' :: bs')) with (b ++ nl ++ join nl (b' :: bs')).
    rewrite <- !app_assoc.
    rewrite split_row by apply str_of_int_single_line.
    rewrite split_row by exact Hl.
    rewrite split_row by exact Ht.
    change (nl ++ join nl (b' :: bs')) with ([] ++ nl ++ join nl (b' :: bs')).
    rewrite split_row by reflexivity.
    now rewrite IH by discriminate.
Qed.

(** The same for the cues after the header of a WebVTT document. *)
Lemma vtt_cues_rows (segments : list segment) :
  forallb (fun seg => single_line (strip (text seg))) segments = true ->
  match vtt_cues segments, vtt_rows segments with
  | Ok cs, Ok rows => split_on lf (concat (map (fun c => nl ++ c) cs)) = rows
  | Raise e, Raise e' => e = e'
  | _, _ => False
  end.
Proof.
  induction segments as [|seg rest IH]; intros Hs; [reflexivity|].
  cbn [forallb] in Hs. apply andb_prop in Hs. destruct Hs as [Ht Hs].
  unfold single_line in Ht. apply negb_true_iff in Ht.
  specialize (IH Hs).
  cbn [vtt_cues vtt_rows]. unfold vtt_cue.
  destruct (timing_line seg false) as [line|e] eqn:El; cbn [bind]; [|reflexivity].
  pose proof (timing_line_single_line _ _ _ El) as Hl.
  revert IH.
  destruct (vtt_cues rest) as [cs|e], (vtt_rows rest) as [rows|e'];
    intros IH; cbn [bind]; try contradiction; [|exact IH].
  cbn [map concat]. rewrite <- !app_assoc.
  change (nl ++ line ++ ?r) with ([] ++ nl ++ line ++ r).
  rewrite split_row by reflexivity.
  rewrite split_row by exact Hl.
  rewrite split_row by exact Ht.
  now rewrite IH.
Qed.

End LineFacts.

Import LineFacts.

#[local] Opaque one overflow_threshold.

(* ================================================================= *)
(** ** The SubRip and WebVTT documents *)

(** C1, as the code has it: the two segments of the scenario give the
    document ending in one newline after the last text, and for every
    sequence the document is the blocks in order with one newline between
    two blocks; a block ends in the newline after its text, so the blocks
    are a blank line apart and nothing follows the last block. *)
Theorem srt_blocks_joined :
  generate_srt hello_world = Ok hello_world_srt
  /\ (forall segments,
        generate_srt segments
        = (blocks <- srt_blocks 1 segments ;; Ok (join nl blocks)))
  /\ (forall segments seg,
        generate_srt (segments ++ [seg])
        = (doc <- generate_srt segments ;;
           b <- srt_block (1 + Z.of_nat (length segments)) seg ;;
           Ok (match segments with [] => b | _ => doc ++ nl ++ b end)))
  /\ (forall i seg,
        srt_block i seg
        = (s <- format_timestamp (start seg) true ;;
           e <- format_timestamp (end_ seg) true ;;
           Ok (str_of_int i ++ nl ++ s ++ u " --> " ++ e ++ nl
               ++ strip (text seg) ++ nl))).
Proof.
  split; [exact hello_world_srt_document|].
  split; [exact generate_srt_blocks|].
  split.
  - intros segments seg. rewrite !generate_srt_blocks, srt_blocks_snoc.
    destruct (srt_blocks 1 segments) as [bs|e] eqn:E; cbn [bind]; [|reflexivity].
    destruct (srt_block _ seg) as [b|e]; cbn [bind]; [|reflexivity].
    rewrite join_snoc.
    pose proof (srt_blocks_length _ _ _ E) as Hl. clear E.
    destruct segments, bs; cbn [length] in Hl; try lia; reflexivity.
  - intros i seg. unfold srt_block, timing_line.
    destruct (format_timestamp (start seg) true); cbn [bind]; [|reflexivity].
    destruct (format_timestamp (end_ seg) true); cbn [bind]; [|reflexivity].
    now rewrite <- !app_assoc.
Qed.

(** C1: the document of the scenario is not the one with a trailing blank
    line. *)
Lemma srt_no_trailing_blank_line :
  exists doc, generate_srt hello_world = Ok doc
              /\ eqb doc (hello_world_srt ++ nl) = false
              /\ doc <> hello_world_srt ++ nl.
Proof.
  exists hello_world_srt. split; [exact hello_world_srt_document|].
  split; [apply differs_by_final_newline|].
  apply not_eqb_neq, differs_by_final_newline.
Qed.

(** C2, as the code has it: no segment gives the empty SubRip document and
    the WebVTT document made of the header line alone. *)
Theorem empty_documents :
  generate_srt [] = Ok [] /\ generate_vtt [] = Ok (u "WEBVTT" ++ nl).
Proof. split; reflexivity. Qed.

(** C2: the empty WebVTT document has no blank line after the header. *)
Lemma vtt_empty_is_header_line_only :
  exists doc, generate_vtt [] = Ok doc
              /\ eqb doc (u "WEBVTT" ++ nl ++ nl) = false
              /\ doc <> u "WEBVTT" ++ nl ++ nl.
Proof.
  exists (u "WEBVTT" ++ nl). split; [reflexivity|].
  split; [reflexivity|]. discriminate.
Qed.

(** C3, as the code has it: the scenario gives the document ending in one
    newline after the last text; every document is the header line, then
    for each segment an empty line, the timing line with dots, the trimmed
    text and a newline; no cue is numbered. *)
Theorem vtt_header_and_cues :
  generate_vtt hello_world = Ok hello_world_vtt
  /\ (forall segments,
        generate_vtt segments
        = (cues <- vtt_cues segments ;;
           Ok (u "WEBVTT" ++ nl ++ concat (map (fun c => nl ++ c) cues))))
  /\ (forall seg,
        vtt_cue seg
        = (s <- format_timestamp (start seg) false ;;
           e <- format_timestamp (end_ seg) false ;;
           Ok (s ++ u " --> " ++ e ++ nl ++ strip (text seg) ++ nl))).
Proof.
  split; [exact hello_world_vtt_document|].
  split; [exact generate_vtt_cues|].
  intros seg. unfold vtt_cue, timing_line.
  destruct (format_timestamp (start seg) false); cbn [bind]; [|reflexivity].
  destruct (format_timestamp (end_ seg) false); cbn [bind]; [|reflexivity].
  now rewrite <- !app_assoc.
Qed.

(** C3: the WebVTT document of the scenario is not the one with a
    trailing blank line. *)
Lemma vtt_no_trailing_blank_line :
  exists doc, generate_vtt hello_world = Ok doc
              /\ eqb doc (hello_world_vtt ++ nl) = false
              /\ doc <> hello_world_vtt ++ nl.
Proof.
  exists hello_world_vtt. split; [exact hello_world_vtt_document|].
  split; [apply differs_by_final_newline|].
  apply not_eqb_neq, differs_by_final_newline.
Qed.

(* ================================================================= *)
(** ** The timestamp formatter *)

(** C4, as the code has it: below 2^53 seconds the formatter returns the
    hours, minutes and seconds of the description's formulas, on the exact
    value of the time, each written in decimal and zero-padded to width 2,
    then the separator (a comma exactly when the flag is set, else a dot),
    then the milliseconds zero-padded to width 3; the milliseconds are
    floor((seconds - floor(seconds)) * 1000) or one more, being the floor
    of the product as rounded to binary64, and they are that floor
    whenever 1000 * seconds is a whole number. *)
Theorem format_timestamp_formula (a : Z) (use_comma : bool) :
  nonneg_double (Finite a) = true -> a < 2 ^ 53 * one ->
  exists hf mf sf msf ms,
    format_timestamp (Finite a) use_comma
    = Ok (hf ++ u ":" ++ mf ++ u ":" ++ sf
          ++ (if use_comma then u "," else u ".") ++ msf)
    /\ padded 2 (hours_of a) hf = true
    /\ padded 2 (minutes_of a) mf = true /\ length mf = 2%nat
    /\ padded 2 (secs_of a) sf = true /\ length sf = 2%nat
    /\ padded 3 ms msf = true /\ length msf = 3%nat
    /\ floor_millis a <= ms <= floor_millis a + 1
    /\ ms = millis_of a
    /\ ((1000 * a) mod one = 0 -> ms = floor_millis a).
Proof.
  intros Hd Hs. destruct (nonneg_double_rep a Hd) as (Ha & Hr & Hlt).
  destruct (format_timestamp_fields a use_comma Hr Hlt)
    as (h & _ & _ & Hsmall & _ & E).
  pose proof one_pos as H1.
  pose proof (minutes_of_bound a Ha) as Bm. pose proof (secs_of_bound a Ha) as Bs.
  pose proof (millis_of_bound a Hr) as Bf.
  assert (Bh : 0 <= hours_of a) by (unfold hours_of; apply Z.div_pos; lia).
  rewrite (Hsmall Hs) in E.
  exists (format_0d 2 (hours_of a)), (format_0d 2 (minutes_of a)),
    (format_0d 2 (secs_of a)), (format_0d 3 (millis_of a)), (millis_of a).
  split; [exact E|].
  split; [apply format_0d_padded; lia|].
  split; [apply format_0d_padded; lia|].
  split; [rewrite format_2_small by lia; reflexivity|].
  split; [apply format_0d_padded; lia|].
  split; [rewrite format_2_small by lia; reflexivity|].
  split; [apply format_0d_padded; lia|].
  split; [rewrite format_3_small by lia; reflexivity|].
  split; [exact (millis_of_floor a Ha)|]. split; [reflexivity|].
  intros Hz. unfold floor_millis.
  pose proof (Z.div_mod a one ltac:(lia)) as Hdm.
  assert (Hz' : (a mod one * 1000) mod one = 0).
  { replace (1000 * a) with (a mod one * 1000 + a / one * 1000 * one) in Hz
      by lia.
    now rewrite Z.mod_add in Hz by lia. }
  rewrite <- (millis_of_exact a Ha Hz'). now rewrite Z.div_mul by lia.
Qed.

Lemma format_timestamp_formula_witness :
  nonneg_double (Finite (units one_and_a_half)) = true
  /\ units one_and_a_half < 2 ^ 53 * one
  /\ exists hf mf sf msf ms,
       format_timestamp (Finite (units one_and_a_half)) true
       = Ok (hf ++ u ":" ++ mf ++ u ":" ++ sf ++ u "," ++ msf)
       /\ padded 2 (hours_of (units one_and_a_half)) hf = true
       /\ padded 2 (minutes_of (units one_and_a_half)) mf = true
       /\ length mf = 2%nat
       /\ padded 2 (secs_of (units one_and_a_half)) sf = true
       /\ length sf = 2%nat
       /\ padded 3 ms msf = true /\ length msf = 3%nat
       /\ floor_millis (units one_and_a_half) <= ms
          <= floor_millis (units one_and_a_half) + 1
       /\ ms = millis_of (units one_and_a_half)
       /\ ((1000 * units one_and_a_half) mod one = 0 ->
           ms = floor_millis (units one_and_a_half)).
Proof.
  split; [vm_compute; reflexivity|].
  split; [vm_compute; reflexivity|].
  apply (format_timestamp_formula (units one_and_a_half) true);
    vm_compute; reflexivity.
Defined.

(** C4: the milliseconds of the description's formula are not always
    those written.  The double nearest to 0.009 lies below 0.009, so that
    floor((seconds - floor(seconds)) * 1000) is 8 and the text of the
    description 00:00:00,008; its product by 1000 rounds to 9.0 and the
    formatter writes 00:00:00,009. *)
Lemma formula_misses_rounded_millisecond :
  nonneg_double nine_thousandths = true
  /\ format_timestamp nine_thousandths true = Ok (u "00:00:00,009")
  /\ hours_of (units nine_thousandths) = 0
  /\ minutes_of (units nine_thousandths) = 0
  /\ secs_of (units nine_thousandths) = 0
  /\ floor_millis (units nine_thousandths) = 8
  /\ padded 3 (floor_millis (units nine_thousandths)) (u "009") = false.
Proof.
  split; [vm_compute; reflexivity|].
  split; [vm_compute; reflexivity|].
  split; [vm_compute; reflexivity|].
  split; [vm_compute; reflexivity|].
  split; [vm_compute; reflexivity|].
  split; vm_compute; reflexivity.
Qed.

(** C8: for every non-negative double the text matches
    \d{2,}:\d{2}:\d{2}[,.]\d{3}; its hour field is a run of at least two
    digits, of at least three from 100 hours on, and below 2^53 seconds it
    is the decimal writing of floor(seconds/3600); and of two times of the
    same whole second the smaller one gives the smaller or equal text. *)
Theorem timestamp_pattern_and_order (a1 a2 : Z) (use_comma : bool) :
  nonneg_double (Finite a1) = true -> nonneg_double (Finite a2) = true ->
  exists hf rest t2,
    format_timestamp (Finite a1) use_comma = Ok (hf ++ rest)
    /\ format_timestamp (Finite a2) use_comma = Ok t2
    /\ matches_timestamp_pattern (hf ++ rest) = true
    /\ all_digits hf = true /\ (2 <= length hf)%nat /\ length rest = 10%nat
    /\ (360000 * one <= a1 -> (3 <= length hf)%nat)
    /\ (a1 < 2 ^ 53 * one -> decimal_value hf = hours_of a1)
    /\ (a1 <= a2 -> a1 / one = a2 / one -> leb (hf ++ rest) t2 = true).
Proof.
  intros Hd1 Hd2.
  destruct (nonneg_double_rep a1 Hd1) as (Ha1 & Hr1 & Hlt1).
  destruct (nonneg_double_rep a2 Hd2) as (Ha2 & Hr2 & Hlt2).
  destruct (format_timestamp_fields a1 use_comma Hr1 Hlt1)
    as (h & Eh & Hh & Hsmall & Hbig & E).
  destruct (format_timestamp_fields a2 use_comma Hr2 Hlt2)
    as (h2 & _ & _ & _ & _ & E2).
  pose proof one_pos as H1.
  pose proof (minutes_of_bound a1 Ha1) as Bm. pose proof (secs_of_bound a1 Ha1) as Bs.
  pose proof (millis_of_bound a1 Hr1) as Bf.
  assert (Hq : 0 <= h / one) by (apply Z.div_pos; lia).
  exists (format_0d 2 (h / one)),
    (u ":" ++ format_0d 2 (minutes_of a1) ++ u ":" ++ format_0d 2 (secs_of a1)
     ++ (if use_comma then u "," else u ".") ++ format_0d 3 (millis_of a1)),
    (fields_text (h2 / one) (minutes_of a2) (secs_of a2) (millis_of a2) use_comma).
  split; [exact E|]. split; [exact E2|].
  split; [apply (fields_text_pattern (h / one)); lia|].
  split; [now apply format_0d_digits|].
  split; [now apply format_0d_length|].
  split.
  { rewrite (format_2_small (minutes_of a1)), (format_2_small (secs_of a1)),
      (format_3_small (millis_of a1)) by lia.
    destruct use_comma; reflexivity. }
  split.
  { intros Hlarge.
    assert (100 <= h / one).
    { destruct (Z.lt_ge_cases a1 (2 ^ prec * one)) as [Hs|Hb].
      - rewrite (Hsmall Hs). unfold hours_of.
        apply Z.div_le_lower_bound; lia.
      - specialize (Hbig Hb). change (2 ^ 40) with 1099511627776 in Hbig. lia. }
    apply (format_0d_wide 2 (h / one) 2); [lia|]. change (10 ^ Z.of_nat 2) with 100. lia. }
  split.
  { intros Hs. rewrite format_0d_value by lia. now apply Hsmall. }
  intros Hle Hfl.
  destruct (format_same_second a1 a2 use_comma Hr1 Hr2 Hlt2 Hle Hfl)
    as (t1 & t2' & F1 & F2 & L).
  rewrite E in F1. rewrite E2 in F2. injection F1 as <-. injection F2 as <-.
  exact L.
Qed.

Lemma timestamp_pattern_and_order_witness :
  nonneg_double (Finite (units hundred_hours)) = true
  /\ nonneg_double (Finite (units hundred_hours_later)) = true
  /\ exists hf rest t2,
       format_timestamp (Finite (units hundred_hours)) true
       = Ok (hf ++ rest)
       /\ format_timestamp (Finite (units hundred_hours_later)) true
          = Ok t2
       /\ matches_timestamp_pattern (hf ++ rest) = true
       /\ all_digits hf = true /\ (2 <= length hf)%nat /\ length rest = 10%nat
       /\ (360000 * one <= units hundred_hours ->
           (3 <= length hf)%nat)
       /\ (units hundred_hours < 2 ^ 53 * one ->
           decimal_value hf = hours_of (units hundred_hours))
       /\ (units hundred_hours
           <= units hundred_hours_later ->
           units hundred_hours / one
           = units hundred_hours_later / one ->
           leb (hf ++ rest) t2 = true).
Proof.
  split; [vm_compute; reflexivity|].
  split; [vm_compute; reflexivity|].
  apply (timestamp_pattern_and_order
           (units hundred_hours)
           (units hundred_hours_later) true);
    vm_compute; reflexivity.
Defined.

(* ================================================================= *)
(** ** Segments with blank text or reversed times *)

(** C9: a segment whose text is empty or all whitespace is kept: the loop
    of either serialiser appends its block, in which the timing line is
    followed by an empty text line. *)
Theorem blank_text_block_kept (seg : segment) (ts te ts' te' : str) :
  forallb isspace (text seg) = true ->
  format_timestamp (start seg) true = Ok ts ->
  format_timestamp (end_ seg) true = Ok te ->
  format_timestamp (start seg) false = Ok ts' ->
  format_timestamp (end_ seg) false = Ok te' ->
  (forall i rest lines,
     srt_loop i (seg :: rest) lines
     = srt_loop (i + 1) rest
         (lines ++ [str_of_int i ++ nl ++ ts ++ u " --> " ++ te ++ nl ++ nl]))
  /\ (forall rest lines,
        vtt_loop (seg :: rest) lines
        = vtt_loop rest (lines ++ [ts' ++ u " --> " ++ te' ++ nl ++ nl]))
  /\ generate_srt [seg] = Ok (u "1" ++ nl ++ ts ++ u " --> " ++ te ++ nl ++ nl)
  /\ generate_vtt [seg]
     = Ok (u "WEBVTT" ++ nl ++ nl ++ ts' ++ u " --> " ++ te' ++ nl ++ nl).
Proof.
  intros Hw Es Ee Es' Ee'.
  pose proof (strip_whitespace _ Hw) as Hstrip.
  assert (S1 : forall i rest lines,
     srt_loop i (seg :: rest) lines
     = srt_loop (i + 1) rest
         (lines ++ [str_of_int i ++ nl ++ ts ++ u " --> " ++ te ++ nl ++ nl])).
  { intros. cbn [srt_loop]. rewrite Es, Ee. cbn [bind]. now rewrite Hstrip. }
  assert (S2 : forall rest lines,
        vtt_loop (seg :: rest) lines
        = vtt_loop rest (lines ++ [ts' ++ u " --> " ++ te' ++ nl ++ nl])).
  { intros. cbn [vtt_loop]. rewrite Es', Ee'. cbn [bind]. now rewrite Hstrip. }
  split; [exact S1|]. split; [exact S2|]. split.
  - unfold generate_srt. rewrite S1. reflexivity.
  - unfold generate_vtt. rewrite S2. cbn [vtt_loop bind app join].
    now rewrite <- !app_assoc.
Qed.

Lemma blank_text_block_kept_witness :
  forallb isspace (text blank_segment) = true
  /\ generate_srt [blank_segment]
     = Ok (u "1" ++ nl ++ u "00:00:01,500" ++ u " --> " ++ u "00:00:03,250"
           ++ nl ++ nl).
Proof.
  split; [reflexivity|].
  apply (blank_text_block_kept blank_segment (u "00:00:01,500") (u "00:00:03,250")
           (u "00:00:01.500") (u "00:00:03.250"));
    vm_compute; reflexivity.
Defined.




(* ================================================================= *)
(** ** Reading a timestamp back *)

(** C7, as the code has it: for segments of times below 2^32 seconds the
    SubRip document is produced, and reading a timestamp of it back into
    seconds and formatting that value again gives the same hours, minutes
    and seconds and the same milliseconds or one millisecond less. *)
Theorem reparsed_timestamp_keeps_seconds (segments : list segment) :
  Forall (fun seg => short_time (start seg) = true
                     /\ short_time (end_ seg) = true) segments ->
  (exists blocks, srt_blocks 1 segments = Ok blocks
                  /\ generate_srt segments = Ok (join nl blocks))
  /\ forall seg x, In seg segments -> x = start seg \/ x = end_ seg ->
     exists h m s ms ms' y,
       format_timestamp x true = Ok (fields_text h m s ms true)
       /\ spec_parse_timestamp (fields_text h m s ms true) = Ok y
       /\ format_timestamp y true = Ok (fields_text h m s ms' true)
       /\ ms - 1 <= ms' <= ms.
Proof.
  intros Hall. split.
  - destruct (srt_blocks_ok segments) with (i := 1) as (bs & E).
    { eapply Forall_impl; [|exact Hall]. intros seg [H1 H2].
      destruct (short_time_rep _ H1) as (a & _ & Ha & _).
      destruct (short_time_rep _ H2) as (b & _ & Hb & _). now split. }
    exists bs. split; [exact E|]. rewrite generate_srt_blocks, E. reflexivity.
  - intros seg x Hin Hx. rewrite Forall_forall in Hall.
    destruct (Hall seg Hin) as [H1 H2].
    assert (Hs : short_time x = true) by (destruct Hx; subst; assumption).
    destruct (short_time_rep x Hs) as (a & -> & Hd & H32).
    destruct (nonneg_double_rep a Hd) as (Ha & Hr & Hlt).
    pose proof one_pos as Hone. pose proof pow32_lt_pow53 as H53.
    destruct (format_timestamp_fields a true Hr Hlt) as (h & _ & _ & Hsm & _ & E).
    rewrite (Hsm ltac:(lia)) in E.
    pose proof (minutes_of_bound a Ha) as Bm. pose proof (secs_of_bound a Ha) as Bs.
    pose proof (millis_of_bound a Hr) as Bf.
    assert (Bh : 0 <= hours_of a) by (unfold hours_of; apply Z.div_pos; lia).
    pose proof (whole_seconds a Ha) as Hw.
    assert (HN : 0 <= a / one < 2 ^ 32).
    { split; [apply Z.div_pos; lia | apply Z.div_lt_upper_bound; lia]. }
    destruct (reparse_fields (a / one) (millis_of a) HN Bf)
      as (y & Ey & Ry & Y53 & Dy & Hms).
    pose proof (rep_nonneg y Ry) as Hy.
    destruct (format_timestamp_fields y true Ry (below_53_lt_overflow y Y53))
      as (h' & _ & _ & Hsm' & _ & E').
    rewrite (Hsm' Y53) in E'.
    exists (hours_of a), (minutes_of a), (secs_of a), (millis_of a), (millis_of y),
      (Finite y).
    split; [exact E|]. split.
    + unfold spec_parse_timestamp. rewrite parse_fields_text by lia.
      replace (hours_of a * 3600 + minutes_of a * 60 + secs_of a) with (a / one) by lia.
      exact Ey.
    + split; [|exact Hms].
      rewrite E'. f_equal. f_equal.
      * rewrite !hours_of_floor by lia. now rewrite Dy.
      * rewrite !minutes_of_floor by lia. now rewrite Dy.
      * rewrite !secs_of_floor by lia. now rewrite Dy.
Qed.

Lemma reparsed_timestamp_keeps_seconds_witness :
  Forall (fun seg => short_time (start seg) = true
                     /\ short_time (end_ seg) = true) [drifting_segment]
  /\ ((exists blocks, srt_blocks 1 [drifting_segment] = Ok blocks
                      /\ generate_srt [drifting_segment] = Ok (join nl blocks))
      /\ forall seg x, In seg [drifting_segment] ->
         x = start seg \/ x = end_ seg ->
         exists h m s ms ms' y,
           format_timestamp x true = Ok (fields_text h m s ms true)
           /\ spec_parse_timestamp (fields_text h m s ms true) = Ok y
           /\ format_timestamp y true = Ok (fields_text h m s ms' true)
           /\ ms - 1 <= ms' <= ms).
Proof.
  assert (H : Forall (fun seg => short_time (start seg) = true
                                 /\ short_time (end_ seg) = true)
                [drifting_segment]).
  { constructor; [|constructor]. split; vm_compute; reflexivity. }
  split; [exact H|].
  exact (reparsed_timestamp_keeps_seconds [drifting_segment] H).
Defined.

(** C7: the start 1.0015 of this segment is written 00:00:01,001 in the
    document; read back it is the double nearest to 1.001, which lies
    below 1.001 and is formatted 00:00:01,000. *)
Lemma round_trip_loses_millisecond :
  generate_srt [drifting_segment]
  = Ok (u "1" ++ nl ++ u "00:00:01,001 --> 00:00:02,000" ++ nl ++ u "x" ++ nl)
  /\ (y <- spec_parse_timestamp (u "00:00:01,001") ;; format_timestamp y true)
     = Ok (u "00:00:01,000")
  /\ eqb (u "00:00:01,000") (u "00:00:01,001") = false.
Proof.
  split; [vm_compute; reflexivity|].
  split; vm_compute; reflexivity.
Qed.

(* ================================================================= *)
(** ** The output path *)

(** C5, as the code has it: a non-empty override gives the path object
    made from it, whatever the input path and the format; as a string that
    is the override itself when the override is in normal form (components
    without slash, none empty or a single dot, joined by single slashes),
    other overrides are normalised.  With no override (or an empty one) and
    one of the four formats: a final component that reads base, dot,
    extension (base and extension not empty, no dot in the extension) is
    replaced by base, dot, format, so that the last extension is stripped;
    a final component that has no such reading (no dot, or none but a
    first or a last one) gets a dot and the format appended; root and
    directories are kept; an input path with no final component is
    refused.  For a relative input path in normal form the string of the
    result is the input string with the final component so renamed.
    clip.mp4 gives clip.srt, and the override out.vtt wins over a.b.mp4. *)
Theorem output_path_resolution :
  (forall input_path c o output_format,
     resolve_output_path input_path (Some (c :: o)) output_format
     = Ok (Path (c :: o)))
  /\ (forall comps, comps <> [] -> forallb plain_component comps = true ->
        to_str (Path (join [slash] comps)) = join [slash] comps)
  /\ (forall input_path output_path output_format,
        output_path = None \/ output_path = Some [] ->
        In output_format canonical_formats ->
        (forall base ext,
           name input_path = base ++ dot :: ext ->
           base <> [] -> ext <> [] -> contains dot ext = false ->
           resolve_output_path input_path output_path output_format
           = Ok (mkPath (root input_path)
                   (removelast (parts input_path)
                    ++ [base ++ u "." ++ output_format])))
        /\ (name input_path <> [] ->
            (forall base ext,
               name input_path = base ++ dot :: ext ->
               base = [] \/ ext = [] \/ contains dot ext = true) ->
            resolve_output_path input_path output_path output_format
            = Ok (mkPath (root input_path)
                    (removelast (parts input_path)
                     ++ [name input_path ++ u "." ++ output_format])))
        /\ (name input_path <> [] ->
            resolve_output_path input_path output_path output_format
            = Ok (mkPath (root input_path)
                    (removelast (parts input_path)
                     ++ [stem input_path ++ u "." ++ output_format])))
        /\ (name input_path = [] ->
            resolve_output_path input_path output_path output_format
            = Raise (Builtin EmptyName))
        /\ stem input_path ++ suffix input_path = name input_path
        /\ (suffix input_path = []
            \/ exists ext, suffix input_path = dot :: ext /\ ext <> []
                           /\ contains dot ext = false
                           /\ stem input_path <> []))
  /\ (forall dirs base ext output_format,
        In output_format canonical_formats ->
        forallb plain_component (dirs ++ [base ++ dot :: ext]) = true ->
        base <> [] -> ext <> [] -> contains dot ext = false ->
        exists p,
          resolve_output_path (Path (join [slash] (dirs ++ [base ++ dot :: ext])))
            None output_format = Ok p
          /\ to_str p = join [slash] (dirs ++ [base ++ u "." ++ output_format]))
  /\ (forall dirs nm output_format,
        In output_format canonical_formats ->
        forallb plain_component (dirs ++ [nm]) = true ->
        contains dot nm = false ->
        exists p,
          resolve_output_path (Path (join [slash] (dirs ++ [nm]))) None
            output_format = Ok p
          /\ to_str p = join [slash] (dirs ++ [nm ++ u "." ++ output_format]))
  /\ (exists p, resolve_output_path (Path (u "clip.mp4")) None (u "srt") = Ok p
                /\ to_str p = u "clip.srt")
  /\ (exists p, resolve_output_path (Path (u "a.b.mp4")) (Some (u "out.vtt"))
                  (u "vtt") = Ok p
                /\ to_str p = u "out.vtt").
Proof.
  split; [reflexivity|].
  split; [intros comps Hne Hp; now apply Path_plain|].
  split.
  { intros input_path output_path output_format Ho Hin.
    assert (E : resolve_output_path input_path output_path output_format
                = with_suffix input_path (u "." ++ output_format))
      by (destruct Ho as [-> | ->]; reflexivity).
    rewrite E.
    destruct (suffix_spec input_path) as [S1 S2].
    split; [intros base ext; now apply with_suffix_replaces|].
    split; [intros Hn Hno; now apply with_suffix_appends|].
    rewrite (with_suffix_canonical _ _ Hin).
    split; [|split; [|split; assumption]].
    - intros Hn. destruct (name input_path); [congruence|reflexivity].
    - intros ->. reflexivity. }
  split.
  { intros dirs base ext output_format Hin Hp Hb He Hd.
    assert (Hne : dirs ++ [base ++ dot :: ext] <> [])
      by (destruct dirs; discriminate).
    destruct (Path_plain _ Hne Hp) as [EP _].
    assert (Hs : contains slash base = false).
    { rewrite forallb_app in Hp. apply andb_true_iff in Hp as [_ Hl].
      cbn [forallb] in Hl. rewrite andb_true_r in Hl.
      unfold plain_component in Hl. apply andb_true_iff in Hl as [_ Hl].
      apply negb_true_iff in Hl. unfold contains in *.
      rewrite existsb_app in Hl. now apply orb_false_iff in Hl as [Hl _]. }
    apply (default_output_string dirs (base ++ dot :: ext) base); auto.
    rewrite EP.
    rewrite (with_suffix_replaces _ base ext output_format Hin);
      [| unfold name; cbn [parts]; apply last_last | assumption | assumption
       | assumption].
    cbn [root parts]. now rewrite removelast_last. }
  split.
  { intros dirs nm output_format Hin Hp Hd.
    assert (Hne : dirs ++ [nm] <> []) by (destruct dirs; discriminate).
    destruct (Path_plain _ Hne Hp) as [EP _].
    assert (Hl : plain_component nm = true).
    { rewrite forallb_app in Hp. apply andb_true_iff in Hp as [_ Hl].
      cbn [forallb] in Hl. now rewrite andb_true_r in Hl. }
    unfold plain_component in Hl. apply andb_true_iff in Hl as [Hc Hs].
    apply negb_true_iff in Hs.
    assert (Hnm : nm <> []) by (destruct nm; [discriminate | discriminate]).
    assert (En : name (mkPath [] (dirs ++ [nm])) = nm)
      by (unfold name; cbn [parts]; apply last_last).
    apply (default_output_string dirs nm nm); auto.
    rewrite EP. rewrite with_suffix_appends; [| assumption | now rewrite En |].
    - cbn [root parts]. now rewrite En, removelast_last.
    - intros base ext E. rewrite En in E. right. right.
      rewrite E in Hd. unfold contains in *. rewrite existsb_app in Hd.
      apply orb_false_iff in Hd as [_ Hd]. cbn [existsb] in Hd.
      unfold char_eqb in Hd. now rewrite N.eqb_refl in Hd. }
  split.
  - exists (mkPath [] [u "clip.srt"]). split; vm_compute; reflexivity.
  - exists (mkPath [] [u "out.vtt"]). split; vm_compute; reflexivity.
Qed.

Lemma output_path_resolution_witness :
  In (u "srt") canonical_formats
  /\ name (Path (u "talks/a.b.mp4")) = u "a.b" ++ dot :: u "mp4"
  /\ resolve_output_path (Path (u "talks/a.b.mp4")) None (u "srt")
     = Ok (mkPath [] [u "talks"; u "a.b.srt"]).
Proof.
  assert (Hin : In (u "srt") canonical_formats) by (left; reflexivity).
  assert (Hn : name (Path (u "talks/a.b.mp4")) = u "a.b" ++ dot :: u "mp4")
    by (vm_compute; reflexivity).
  split; [exact Hin|]. split; [exact Hn|].
  destruct output_path_resolution as (_ & _ & H & _).
  destruct (H (Path (u "talks/a.b.mp4")) None (u "srt") (or_introl eq_refl) Hin)
    as (H1 & _).
  rewrite (H1 (u "a.b") (u "mp4") Hn ltac:(discriminate) ltac:(discriminate)
             eq_refl).
  vm_compute. reflexivity.
Defined.

(** C5: the override ./out.vtt is not kept verbatim: the resolved path
    reads out.vtt. *)
Lemma override_is_normalised :
  exists p, resolve_output_path (Path (u "clip.mp4")) (Some (u "./out.vtt"))
              (u "vtt") = Ok p
            /\ to_str p = u "out.vtt"
            /\ eqb (to_str p) (u "./out.vtt") = false.
Proof.
  exists (mkPath [] [u "out.vtt"]).
  split; [vm_compute; reflexivity|].
  split; vm_compute; reflexivity.
Qed.

(* ================================================================= *)
(** ** The format selector *)

Section UnsupportedFormat.

Variable model : Type.
Variable whisper_result : Type.
Variable load_model : str -> result model.
Variable model_transcribe : model -> str -> result whisper_result.
Variable result_segments : whisper_result -> list segment.
Variable result_text : whisper_result -> str.
Variable json_dumps : whisper_result -> result str.
Variable path_exists : path -> bool.
Variable write_file : path -> str -> write_outcome.

Local Abbreviation render' :=
  (render whisper_result result_segments result_text json_dumps).
Local Abbreviation transcribe' :=
  (transcribe model whisper_result load_model model_transcribe result_segments
     result_text json_dumps path_exists write_file).

(** C6: for a format selector outside srt, vtt, txt and json the dispatch
    raises the error whose message is the text Unsupported format: followed
    by the selector; it returns no document; a call of [transcribe] with
    such a selector fails and writes no file; and when the input exists,
    the output path is resolved and the recogniser returns, its error is
    that one. *)
Theorem unsupported_format_fails_before_output (output_format : str) :
  ~ In output_format canonical_formats ->
  (forall res,
     render' res output_format
     = Raise (ValueError (u "Unsupported format: " ++ output_format)))
  /\ (forall input_file model_name output_path w,
        written (fst (transcribe' input_file model_name output_path
                        output_format w)) = written w
        /\ is_ok (snd (transcribe' input_file model_name output_path
                         output_format w)) = false)
  /\ (forall input_file model_name output_path w out m res,
        path_exists (Path input_file) = true ->
        resolve_output_path (Path input_file) output_path output_format = Ok out ->
        load_model model_name = Ok m ->
        model_transcribe m (to_str (Path input_file)) = Ok res ->
        snd (transcribe' input_file model_name output_path output_format w)
        = Raise (ValueError (u "Unsupported format: " ++ output_format))).
Proof.
  intros Hnot.
  assert (Hr : forall res,
     render' res output_format
     = Raise (ValueError (u "Unsupported format: " ++ output_format))).
  { intros res. unfold render.
    assert (N : forall f, In f canonical_formats -> eqb output_format f = false).
    { intros f Hf. destruct (eqb output_format f) eqn:E; [|reflexivity].
      apply eqb_eq in E. subst f. contradiction. }
    rewrite (N (u "srt")), (N (u "vtt")), (N (u "txt")), (N (u "json"));
      [reflexivity | | | |]; unfold canonical_formats; cbn [In]; auto. }
  split; [exact Hr|]. split.
  - intros input_file model_name output_path w.
    unfold transcribe.
    destruct (path_exists (Path input_file)); cbn [negb]; [|split; reflexivity].
    unfold bindM, lift, print, raise, ret.
    destruct (resolve_output_path (Path input_file) output_path output_format);
      [|split; reflexivity].
    cbn [stdout written].
    destruct (load_model model_name) as [m|e]; [|split; reflexivity].
    cbn [stdout written].
    destruct (model_transcribe m (to_str (Path input_file))) as [res|e];
      [|split; reflexivity].
    rewrite Hr. split; reflexivity.
  - intros input_file model_name output_path w out m res He Ho Hm Ht.
    unfold transcribe. rewrite He. cbn [negb].
    unfold bindM, lift, print, raise, ret. rewrite Ho. cbn [stdout written].
    rewrite Hm. cbn [stdout written]. rewrite Ht.
    now rewrite Hr.
Qed.

End UnsupportedFormat.

Lemma unsupported_format_fails_before_output_witness :
  ~ In (u "docx") canonical_formats
  /\ forall w,
       written (fst (transcribe unit unit (fun _ => Ok tt) (fun _ _ => Ok tt)
                       (fun _ => hello_world) (fun _ => u "Hello World")
                       (fun _ => Ok (u "{}")) (fun _ => true) (fun _ _ => Written)
                       (u "clip.mp4") (u "turbo") None (u "docx") w))
       = written w
       /\ snd (transcribe unit unit (fun _ => Ok tt) (fun _ _ => Ok tt)
                 (fun _ => hello_world) (fun _ => u "Hello World")
                 (fun _ => Ok (u "{}")) (fun _ => true) (fun _ _ => Written)
                 (u "clip.mp4") (u "turbo") None (u "docx") w)
          = Raise (ValueError (u "Unsupported format: docx")).
Proof.
  assert (Hnot : ~ In (u "docx") canonical_formats).
  { unfold canonical_formats. cbn [In]. intros [H|[H|[H|[H|[]]]]];
      vm_compute in H; discriminate. }
  split; [exact Hnot|]. intros w.
  destruct (unsupported_format_fails_before_output unit unit (fun _ => Ok tt)
              (fun _ _ => Ok tt) (fun _ => hello_world) (fun _ => u "Hello World")
              (fun _ => Ok (u "{}")) (fun _ => true) (fun _ _ => Written)
              (u "docx") Hnot) as (_ & H2 & H3).
  split.
  - apply H2.
  - apply (H3 (u "clip.mp4") (u "turbo") None w
             (mkPath [] [u "clip.docx"]) tt tt); reflexivity.
Defined.

(* ================================================================= *)
(** ** Further properties of the timestamp formatter *)

(** X1: [format_timestamp] returns a text exactly for the finite doubles,
    negative ones included; for an infinity or a NaN it raises the error
    of [int] on a NaN, because the first quotient [seconds // 3600] is
    already a NaN. *)
Theorem format_timestamp_defined_iff_finite (x : pyfloat) (use_comma : bool) :
  is_double x = true ->
  is_ok (format_timestamp x use_comma) = is_finite x
  /\ (is_finite x = false ->
      format_timestamp x use_comma = Raise (Builtin NaNToInteger)).
Proof.
  intros Hd. split; [now apply format_timestamp_ok|].
  apply format_timestamp_not_finite.
Qed.

Lemma format_timestamp_defined_iff_finite_witness :
  is_double minus_half = true
  /\ (is_ok (format_timestamp minus_half true) = is_finite minus_half
      /\ (is_finite minus_half = false ->
          format_timestamp minus_half true = Raise (Builtin NaNToInteger))).
Proof.
  split; [vm_compute; reflexivity|].
  apply (format_timestamp_defined_iff_finite minus_half true).
  vm_compute; reflexivity.
Defined.

(** X2: a negative time is not written as a timestamp: the hours field
    is negative, so the text begins with a minus sign and does not match
    the timestamp pattern; the minutes and seconds fields lie between 0
    and 60, both included, and the milliseconds field between -999 and
    0. *)
Theorem negative_time_is_signed (a : Z) (use_comma : bool) :
  a < 0 -> is_double (Finite a) = true ->
  exists h m s ms rest,
    format_timestamp (Finite a) use_comma = Ok (fields_text h m s ms use_comma)
    /\ h <= -1 /\ 0 <= m <= 60 /\ 0 <= s <= 60 /\ -999 <= ms <= 0
    /\ fields_text h m s ms use_comma = 45%N :: rest
    /\ matches_timestamp_pattern (fields_text h m s ms use_comma) = false.
Proof.
  intros Ha Hd. cbn [is_double] in Hd. rewrite Z.abs_neq in Hd by lia.
  destruct (nonneg_double_rep (- a)) as (_ & Hr & Hlt).
  { cbn [nonneg_double]. rewrite Hd.
    destruct (Z.leb_spec 0 (- a)); [reflexivity|lia]. }
  destruct (format_timestamp_negative a use_comma Ha Hr Hlt)
    as (h & m & s & E & Hh & Hm & Hs).
  pose proof (millis_of_bound (- a) Hr) as Hf.
  destruct (fields_text_negative h m s (- millis_of (- a)) use_comma ltac:(lia))
    as (rest & Et).
  exists h, m, s, (- millis_of (- a)), rest.
  split; [exact E|]. split; [exact Hh|]. split; [exact Hm|].
  split; [exact Hs|]. split; [lia|]. split; [exact Et|].
  rewrite Et. reflexivity.
Qed.

Lemma negative_time_is_signed_witness :
  units minus_half < 0 /\ is_double (Finite (units minus_half)) = true
  /\ exists h m s ms rest,
       format_timestamp (Finite (units minus_half)) true
       = Ok (fields_text h m s ms true)
       /\ h <= -1 /\ 0 <= m <= 60 /\ 0 <= s <= 60 /\ -999 <= ms <= 0
       /\ fields_text h m s ms true = 45%N :: rest
       /\ matches_timestamp_pattern (fields_text h m s ms true) = false.
Proof.
  split; [vm_compute; reflexivity|].
  split; [vm_compute; reflexivity|].
  apply (negative_time_is_signed (units minus_half) true);
    vm_compute; reflexivity.
Defined.

(** X3: for every non-negative finite double the fields written are in
    the range of a clock: minutes and seconds below 60, milliseconds below
    1000, hours not negative; below 100 hours the text has exactly twelve
    characters. *)
Theorem timestamp_fields_in_range (a : Z) (use_comma : bool) :
  nonneg_double (Finite a) = true ->
  exists h m s ms,
    format_timestamp (Finite a) use_comma = Ok (fields_text h m s ms use_comma)
    /\ 0 <= h /\ 0 <= m < 60 /\ 0 <= s < 60 /\ 0 <= ms < 1000
    /\ (a < 360000 * one ->
        h < 100 /\ length (fields_text h m s ms use_comma) = 12%nat).
Proof.
  intros Hd. destruct (nonneg_double_rep a Hd) as (Ha & Hr & Hlt).
  destruct (format_timestamp_fields a use_comma Hr Hlt)
    as (h & _ & Hh & Hsmall & _ & E).
  pose proof one_pos as H1.
  pose proof (minutes_of_bound a Ha) as Bm. pose proof (secs_of_bound a Ha) as Bs.
  pose proof (millis_of_bound a Hr) as Bf.
  assert (Hq : 0 <= h / one) by (apply Z.div_pos; lia).
  exists (h / one), (minutes_of a), (secs_of a), (millis_of a).
  split; [exact E|]. split; [exact Hq|]. split; [exact Bm|].
  split; [exact Bs|]. split; [exact Bf|].
  intros Hlow.
  assert (P53 : 2 ^ prec = 9007199254740992) by reflexivity.
  assert (Hh100 : h / one < 100).
  { rewrite (Hsmall ltac:(lia)). unfold hours_of.
    apply Z.div_lt_upper_bound; lia. }
  split; [exact Hh100|]. apply fields_text_length; lia.
Qed.

Lemma timestamp_fields_in_range_witness :
  nonneg_double (Finite (units three_and_a_quarter)) = true
  /\ exists h m s ms,
       format_timestamp (Finite (units three_and_a_quarter)) true
       = Ok (fields_text h m s ms true)
       /\ 0 <= h /\ 0 <= m < 60 /\ 0 <= s < 60 /\ 0 <= ms < 1000
       /\ (units three_and_a_quarter < 360000 * one ->
           h < 100 /\ length (fields_text h m s ms true) = 12%nat).
Proof.
  split; [vm_compute; reflexivity|].
  apply (timestamp_fields_in_range (units three_and_a_quarter) true).
  vm_compute; reflexivity.
Defined.

(** X4: below 2^53 seconds the timestamp is the time cut to the
    millisecond, or one millisecond more when the product of the fraction
    by 1000 rounds up to a whole number: its hours, minutes and seconds
    are those of the whole seconds of the time, and its value in
    milliseconds is floor(1000 * seconds) or that plus one. *)
Theorem timestamp_within_a_millisecond (a : Z) (use_comma : bool) :
  nonneg_double (Finite a) = true -> a < 2 ^ 53 * one ->
  exists h m s ms,
    format_timestamp (Finite a) use_comma = Ok (fields_text h m s ms use_comma)
    /\ 0 <= m < 60 /\ 0 <= s < 60 /\ 0 <= ms < 1000
    /\ h * 3600 + m * 60 + s = a / one
    /\ 1000 * a / one <= clock_millis h m s ms <= 1000 * a / one + 1.
Proof.
  intros Hd Hs. destruct (nonneg_double_rep a Hd) as (Ha & Hr & Hlt).
  destruct (format_timestamp_fields a use_comma Hr Hlt)
    as (h & _ & Hh & Hsmall & _ & E).
  pose proof one_pos as H1.
  pose proof (minutes_of_bound a Ha) as Bm. pose proof (secs_of_bound a Ha) as Bs.
  pose proof (millis_of_bound a Hr) as Bf.
  rewrite (Hsmall Hs) in E.
  exists (hours_of a), (minutes_of a), (secs_of a), (millis_of a).
  split; [exact E|]. split; [exact Bm|]. split; [exact Bs|].
  split; [exact Bf|].
  pose proof (whole_seconds a Ha) as Hw.
  split; [lia|].
  rewrite (clock_of_fields a Hr).
  pose proof (millis_of_floor a Ha) as Hfl.
  assert (Efl : 1000 * a / one = a / one * 1000 + a mod one * 1000 / one).
  { pose proof (Z.div_mod a one ltac:(lia)) as Hdm.
    replace (1000 * a) with (a mod one * 1000 + a / one * 1000 * one) by lia.
    rewrite Z.div_add by lia. lia. }
  rewrite Efl. lia.
Qed.

Lemma timestamp_within_a_millisecond_witness :
  nonneg_double (Finite (units three_and_a_quarter)) = true
  /\ units three_and_a_quarter < 2 ^ 53 * one
  /\ exists h m s ms,
       format_timestamp (Finite (units three_and_a_quarter)) true
       = Ok (fields_text h m s ms true)
       /\ 0 <= m < 60 /\ 0 <= s < 60 /\ 0 <= ms < 1000
       /\ h * 3600 + m * 60 + s = units three_and_a_quarter / one
       /\ 1000 * units three_and_a_quarter / one <= clock_millis h m s ms
          <= 1000 * units three_and_a_quarter / one + 1.
Proof.
  split; [vm_compute; reflexivity|].
  split; [vm_compute; reflexivity|].
  apply (timestamp_within_a_millisecond (units three_and_a_quarter) true);
    vm_compute; reflexivity.
Defined.

(** X5: a time below 2^53 seconds that is a whole number of milliseconds
    as a binary number (a whole number of seconds, of halves, of eighths)
    is written exactly: the value of the timestamp in milliseconds is
    1000 * seconds. *)
Theorem binary_fraction_is_exact (a : Z) (use_comma : bool) :
  nonneg_double (Finite a) = true -> a < 2 ^ 53 * one ->
  (1000 * a) mod one = 0 ->
  exists h m s ms,
    format_timestamp (Finite a) use_comma = Ok (fields_text h m s ms use_comma)
    /\ 0 <= h /\ 0 <= m < 60 /\ 0 <= s < 60 /\ 0 <= ms < 1000
    /\ clock_millis h m s ms * one = 1000 * a.
Proof.
  intros Hd Hs Hz. destruct (nonneg_double_rep a Hd) as (Ha & Hr & Hlt).
  destruct (format_timestamp_fields a use_comma Hr Hlt)
    as (h & _ & Hh & Hsmall & _ & E).
  pose proof one_pos as H1.
  pose proof (minutes_of_bound a Ha) as Bm. pose proof (secs_of_bound a Ha) as Bs.
  pose proof (millis_of_bound a Hr) as Bf.
  rewrite (Hsmall Hs) in E.
  exists (hours_of a), (minutes_of a), (secs_of a), (millis_of a).
  split; [exact E|].
  split; [unfold hours_of; apply Z.div_pos; lia|].
  split; [exact Bm|]. split; [exact Bs|]. split; [exact Bf|].
  rewrite (clock_of_fields a Hr).
  pose proof (Z.div_mod a one ltac:(lia)) as Hdm.
  assert (Hz' : (a mod one * 1000) mod one = 0).
  { replace (1000 * a) with (a mod one * 1000 + a / one * 1000 * one) in Hz
      by lia.
    now rewrite Z.mod_add in Hz by lia. }
  pose proof (millis_of_exact a Ha Hz') as Hm.
  lia.
Qed.

Lemma binary_fraction_is_exact_witness :
  nonneg_double (Finite (units one_and_a_half)) = true
  /\ units one_and_a_half < 2 ^ 53 * one
  /\ (1000 * units one_and_a_half) mod one = 0
  /\ exists h m s ms,
       format_timestamp (Finite (units one_and_a_half)) true
       = Ok (fields_text h m s ms true)
       /\ 0 <= h /\ 0 <= m < 60 /\ 0 <= s < 60 /\ 0 <= ms < 1000
       /\ clock_millis h m s ms * one = 1000 * units one_and_a_half.
Proof.
  split; [vm_compute; reflexivity|].
  split; [vm_compute; reflexivity|].
  split; [vm_compute; reflexivity|].
  apply (binary_fraction_is_exact (units one_and_a_half) true);
    vm_compute; reflexivity.
Defined.

(** X6: below 100 hours the texts sort as the times do: of two
    non-negative times the earlier one gives the smaller or equal text in
    the order of strings. *)
Theorem timestamps_sort_as_times (a1 a2 : Z) (use_comma : bool) :
  nonneg_double (Finite a1) = true -> nonneg_double (Finite a2) = true ->
  a1 <= a2 -> a2 < 360000 * one ->
  exists t1 t2,
    format_timestamp (Finite a1) use_comma = Ok t1
    /\ format_timestamp (Finite a2) use_comma = Ok t2
    /\ leb t1 t2 = true.
Proof.
  intros Hd1 Hd2 Hle Hlow.
  destruct (nonneg_double_rep a1 Hd1) as (Ha1 & Hr1 & Hlt1).
  destruct (nonneg_double_rep a2 Hd2) as (Ha2 & Hr2 & Hlt2).
  pose proof one_pos as H1.
  assert (P53 : 2 ^ prec = 9007199254740992) by reflexivity.
  destruct (format_timestamp_fields a1 use_comma Hr1 Hlt1)
    as (h1 & _ & _ & Hs1 & _ & E1).
  destruct (format_timestamp_fields a2 use_comma Hr2 Hlt2)
    as (h2 & _ & _ & Hs2 & _ & E2).
  rewrite (Hs1 ltac:(lia)) in E1. rewrite (Hs2 ltac:(lia)) in E2.
  exists (fields_text (hours_of a1) (minutes_of a1) (secs_of a1) (millis_of a1)
            use_comma),
    (fields_text (hours_of a2) (minutes_of a2) (secs_of a2) (millis_of a2)
       use_comma).
  split; [exact E1|]. split; [exact E2|].
  pose proof (minutes_of_bound a1 Ha1). pose proof (secs_of_bound a1 Ha1).
  pose proof (millis_of_bound a1 Hr1).
  pose proof (minutes_of_bound a2 Ha2). pose proof (secs_of_bound a2 Ha2).
  pose proof (millis_of_bound a2 Hr2).
  assert (N1 : 0 <= a1 / one) by (apply Z.div_pos; lia).
  assert (N12 : a1 / one <= a2 / one) by (apply Z.div_le_mono; lia).
  assert (N2 : a2 / one < 360000) by (apply Z.div_lt_upper_bound; lia).
  assert (Hms : a1 / one = a2 / one -> millis_of a1 <= millis_of a2).
  { intros Hfl. apply millis_of_mono.
    pose proof (Z.div_mod a1 one ltac:(lia)) as D1.
    pose proof (Z.div_mod a2 one ltac:(lia)) as D2.
    pose proof (Z.mod_pos_bound a1 one H1). rewrite Hfl in D1. lia. }
  rewrite !hours_of_floor, !minutes_of_floor, !secs_of_floor by lia.
  destruct (fields_ranges (a1 / one) ltac:(lia)) as (R1 & R2 & R3).
  destruct (fields_ranges (a2 / one) ltac:(lia)) as (R4 & R5 & R6).
  apply fields_text_leb; try lia.
  apply fields_lex; [lia | exact Hms].
Qed.

Lemma timestamps_sort_as_times_witness :
  nonneg_double (Finite (units one_and_a_half)) = true
  /\ nonneg_double (Finite (units three_and_a_quarter)) = true
  /\ units one_and_a_half <= units three_and_a_quarter
  /\ units three_and_a_quarter < 360000 * one
  /\ exists t1 t2,
       format_timestamp (Finite (units one_and_a_half)) true = Ok t1
       /\ format_timestamp (Finite (units three_and_a_quarter)) true = Ok t2
       /\ leb t1 t2 = true.
Proof.
  split; [vm_compute; reflexivity|].
  split; [vm_compute; reflexivity|].
  split; [vm_compute; discriminate|].
  split; [vm_compute; reflexivity|].
  apply (timestamps_sort_as_times (units one_and_a_half)
           (units three_and_a_quarter) true);
    vm_compute; (reflexivity || discriminate).
Defined.

(* ================================================================= *)
(** ** Further properties of the serialisers *)

(** X7: a document is produced exactly when every start and every end is
    finite: one infinity or NaN among the times makes [generate_srt] and
    [generate_vtt] raise, and no part of the document is returned. *)
Theorem serialisers_defined_iff_times_finite (segments : list segment) :
  forallb double_times segments = true ->
  is_ok (generate_srt segments) = forallb finite_times segments
  /\ is_ok (generate_vtt segments) = forallb finite_times segments.
Proof.
  intros Hd. split.
  - rewrite generate_srt_blocks, <- (srt_blocks_ok_iff segments Hd 1).
    destruct (srt_blocks 1 segments); reflexivity.
  - rewrite generate_vtt_cues, <- (vtt_cues_ok_iff segments Hd).
    destruct (vtt_cues segments); reflexivity.
Qed.

Lemma serialisers_defined_iff_times_finite_witness :
  forallb double_times open_ended = true
  /\ (is_ok (generate_srt open_ended) = forallb finite_times open_ended
      /\ is_ok (generate_vtt open_ended) = forallb finite_times open_ended).
Proof.
  split; [vm_compute; reflexivity|].
  apply (serialisers_defined_iff_times_finite open_ended).
  vm_compute; reflexivity.
Defined.

(** X8: the WebVTT document of a concatenation of two segment lists is
    the document of the first list followed by the document of the second
    without its header line (its first seven characters); an error of the
    first list comes before one of the second. *)
Theorem vtt_of_concatenation (xs ys : list segment) :
  generate_vtt (xs ++ ys)
  = (d1 <- generate_vtt xs ;;
     d2 <- generate_vtt ys ;;
     Ok (d1 ++ slice_from 7 d2)).
Proof.
  rewrite !generate_vtt_cues, vtt_cues_app.
  destruct (vtt_cues xs) as [cs|e]; cbn [bind]; [|reflexivity].
  destruct (vtt_cues ys) as [ds|e]; cbn [bind]; [|reflexivity].
  f_equal. rewrite map_app, concat_app.
  change (slice_from 7 (u "WEBVTT" ++ nl ++ concat (map (fun c => nl ++ c) ds)))
    with (concat (map (fun c => nl ++ c) ds)).
  now rewrite <- !app_assoc.
Qed.

(** X9: the SubRip document of the first segments of a list is the
    beginning of the document of the whole list: appending segments
    changes neither the counters nor the text of the blocks before
    them. *)
Theorem srt_document_grows (xs ys : list segment) (d : str) :
  generate_srt (xs ++ ys) = Ok d ->
  exists d1 rest, generate_srt xs = Ok d1 /\ d = d1 ++ rest.
Proof.
  rewrite !generate_srt_blocks, srt_blocks_app.
  destruct (srt_blocks 1 xs) as [bs|e]; cbn [bind]; [|discriminate].
  destruct (srt_blocks _ ys) as [cs|e]; cbn [bind]; [|discriminate].
  intros E. injection E as <-.
  destruct (join_app nl bs cs) as (rest & Er).
  exists (join nl bs), rest. split; [reflexivity | exact Er].
Qed.

Lemma srt_document_grows_witness :
  generate_srt (firstn 1 hello_world ++ skipn 1 hello_world) = Ok hello_world_srt
  /\ exists d1 rest,
       generate_srt (firstn 1 hello_world) = Ok d1
       /\ hello_world_srt = d1 ++ rest.
Proof.
  assert (H : generate_srt (firstn 1 hello_world ++ skipn 1 hello_world)
              = Ok hello_world_srt) by exact hello_world_srt_document.
  split; [exact H|].
  exact (srt_document_grows (firstn 1 hello_world) (skipn 1 hello_world)
           hello_world_srt H).
Defined.

(** X10: the text line of a block or cue is the text of the segment
    without the whitespace at its two ends and with everything between
    kept: the text is a run of whitespace, the line, and a run of
    whitespace, and the line is empty or begins and ends with a character
    that is not whitespace. *)
Theorem block_text_is_trimmed (seg : segment) :
  exists l t r,
    text seg = l ++ t ++ r
    /\ forallb isspace l = true /\ forallb isspace r = true
    /\ match t with
       | c :: t' => isspace c = false /\ isspace (last t' c) = false
       | [] => True
       end
    /\ generate_srt [seg]
       = (ts <- format_timestamp (start seg) true ;;
          te <- format_timestamp (end_ seg) true ;;
          Ok (u "1" ++ nl ++ ts ++ u " --> " ++ te ++ nl ++ t ++ nl))
    /\ generate_vtt [seg]
       = (ts <- format_timestamp (start seg) false ;;
          te <- format_timestamp (end_ seg) false ;;
          Ok (u "WEBVTT" ++ nl ++ nl ++ ts ++ u " --> " ++ te ++ nl ++ t ++ nl)).
Proof.
  destruct (strip_spec (text seg)) as (l & r & E & Hl & Hr & Ht).
  exists l, (strip (text seg)), r.
  split; [exact E|]. split; [exact Hl|]. split; [exact Hr|].
  split; [exact Ht|]. split.
  - unfold generate_srt. cbn [srt_loop].
    destruct (format_timestamp (start seg) true); cbn [bind]; [|reflexivity].
    destruct (format_timestamp (end_ seg) true); reflexivity.
  - unfold generate_vtt. cbn [vtt_loop].
    destruct (format_timestamp (start seg) false); cbn [bind]; [|reflexivity].
    destruct (format_timestamp (end_ seg) false); cbn [bind vtt_loop app join];
      [|reflexivity].
    now rewrite <- !app_assoc.
Qed.

(* ================================================================= *)
(** ** The lines of the documents *)

(** X20: when no text, once trimmed, holds a line feed, the lines of the
    SubRip document of a non-empty segment list are, segment after
    segment, four rows: the counter, the timing line, the text and an
    empty line; a failure of the rendering is the failure of the first
    timing line that cannot be made. *)
Theorem srt_document_lines (segments : list segment) :
  segments <> [] ->
  forallb (fun seg => single_line (strip (text seg))) segments = true ->
  (d <- generate_srt segments ;; Ok (split_on lf d)) = srt_rows 1 segments.
Proof.
  intros Hne Hs. rewrite generate_srt_blocks.
  pose proof (srt_blocks_rows segments 1 Hs) as H.
  destruct (srt_blocks 1 segments) as [bs|e], (srt_rows 1 segments) as [rows|e'];
    cbn [bind]; try contradiction.
  - now rewrite (H Hne).
  - now rewrite H.
Qed.

Lemma srt_document_lines_witness :
  hello_world <> []
  /\ forallb (fun seg => single_line (strip (text seg))) hello_world = true
  /\ (d <- generate_srt hello_world ;; Ok (split_on lf d))
     = srt_rows 1 hello_world.
Proof.
  assert (Hne : hello_world <> []) by discriminate.
  split; [exact Hne|]. split; [vm_compute; reflexivity|].
  apply (srt_document_lines hello_world Hne). vm_compute; reflexivity.
Defined.

(** X21: when no text, once trimmed, holds a line feed, the lines of the
    WebVTT document are the header WEBVTT, then for each segment an empty
    line, the timing line and the text, and an empty line at the end. *)
Theorem vtt_document_lines (segments : list segment) :
  forallb (fun seg => single_line (strip (text seg))) segments = true ->
  (d <- generate_vtt segments ;; Ok (split_on lf d))
  = (rows <- vtt_rows segments ;; Ok (u "WEBVTT" :: rows)).
Proof.
  intros Hs. rewrite generate_vtt_cues.
  pose proof (vtt_cues_rows segments Hs) as H.
  destruct (vtt_cues segments) as [cs|e], (vtt_rows segments) as [rows|e'];
    cbn [bind]; try contradiction.
  - rewrite split_row by reflexivity. now rewrite H.
  - now rewrite H.
Qed.

Lemma vtt_document_lines_witness :
  forallb (fun seg => single_line (strip (text seg))) hello_world = true
  /\ (d <- generate_vtt hello_world ;; Ok (split_on lf d))
     = (rows <- vtt_rows hello_world ;; Ok (u "WEBVTT" :: rows)).
Proof.
  split; [vm_compute; reflexivity|].
  apply (vtt_document_lines hello_world). vm_compute; reflexivity.
Defined.

(* ================================================================= *)
(** ** Further properties of the output path *)

(** X11: with no output path given, the output file is the input file
    itself exactly when the input already carries the extension of the
    format: [notes.txt] transcribed as txt is written over. *)
Theorem default_output_is_input_iff_same_suffix (input_path : path) (fmt : str) :
  In fmt canonical_formats -> name input_path <> [] ->
  exists out,
    resolve_output_path input_path None fmt = Ok out
    /\ (out = input_path <-> suffix input_path = u "." ++ fmt).
Proof.
  intros Hin Hn.
  exists (mkPath (root input_path)
            (removelast (parts input_path) ++ [stem input_path ++ u "." ++ fmt])).
  split.
  - cbn [resolve_output_path]. rewrite (with_suffix_canonical _ _ Hin).
    destruct (name input_path); [congruence | reflexivity].
  - destruct (suffix_spec input_path) as [Es _].
    rewrite (same_path_iff input_path _ Hn). rewrite <- Es at 1. split.
    + intros E. apply app_inv_head in E. now symmetry.
    + intros E. now rewrite E.
Qed.

Lemma default_output_is_input_iff_same_suffix_witness :
  In (u "txt") canonical_formats /\ name (Path (u "notes.txt")) <> []
  /\ exists out,
       resolve_output_path (Path (u "notes.txt")) None (u "txt") = Ok out
       /\ (out = Path (u "notes.txt")
           <-> suffix (Path (u "notes.txt")) = u "." ++ u "txt").
Proof.
  assert (Hin : In (u "txt") canonical_formats)
    by (right; right; left; reflexivity).
  assert (Hn : name (Path (u "notes.txt")) <> []) by (vm_compute; discriminate).
  split; [exact Hin|]. split; [exact Hn|].
  exact (default_output_is_input_iff_same_suffix (Path (u "notes.txt")) (u "txt")
           Hin Hn).
Defined.

(** X12: with no output path given and one of the four formats, the
    output file lies beside the input (same root, same directories), has
    the stem of the input and the extension of the format, and resolving
    again from the output path gives the same path. *)
Theorem default_output_has_format_suffix (input_path : path) (fmt : str) :
  In fmt canonical_formats -> name input_path <> [] ->
  exists out,
    resolve_output_path input_path None fmt = Ok out
    /\ root out = root input_path
    /\ removelast (parts out) = removelast (parts input_path)
    /\ stem out = stem input_path
    /\ suffix out = u "." ++ fmt
    /\ resolve_output_path out None fmt = Ok out.
Proof.
  intros Hin Hn.
  destruct (canonical_format_plain fmt Hin) as [Hf Hd].
  pose proof (stem_nonempty input_path Hn) as Hst.
  destruct (suffix_of_name (root input_path) (removelast (parts input_path))
              (stem input_path) fmt Hst Hf Hd) as (En & Es & Et).
  set (out := mkPath (root input_path)
                (removelast (parts input_path)
                 ++ [stem input_path ++ dot :: fmt])) in *.
  assert (E : resolve_output_path input_path None fmt = Ok out).
  { cbn [resolve_output_path]. rewrite (with_suffix_canonical _ _ Hin).
    destruct (name input_path); [congruence | reflexivity]. }
  exists out. split; [exact E|]. split; [reflexivity|].
  split; [unfold out; cbn [parts]; apply removelast_last|].
  split; [exact Et|]. split; [exact Es|].
  cbn [resolve_output_path]. rewrite (with_suffix_canonical _ _ Hin).
  rewrite En, Et.
  destruct (stem input_path ++ dot :: fmt) eqn:Ek;
    [destruct (stem input_path); discriminate|].
  unfold out. cbn [root parts]. rewrite removelast_last.
  change (u "." ++ fmt) with (dot :: fmt). now rewrite Ek.
Qed.

Lemma default_output_has_format_suffix_witness :
  In (u "vtt") canonical_formats /\ name (Path (u "talks/a.b.mp4")) <> []
  /\ exists out,
       resolve_output_path (Path (u "talks/a.b.mp4")) None (u "vtt") = Ok out
       /\ root out = root (Path (u "talks/a.b.mp4"))
       /\ removelast (parts out) = removelast (parts (Path (u "talks/a.b.mp4")))
       /\ stem out = stem (Path (u "talks/a.b.mp4"))
       /\ suffix out = u "." ++ u "vtt"
       /\ resolve_output_path out None (u "vtt") = Ok out.
Proof.
  assert (Hin : In (u "vtt") canonical_formats) by (right; left; reflexivity).
  assert (Hn : name (Path (u "talks/a.b.mp4")) <> [])
    by (vm_compute; discriminate).
  split; [exact Hin|]. split; [exact Hn|].
  exact (default_output_has_format_suffix (Path (u "talks/a.b.mp4")) (u "vtt")
           Hin Hn).
Defined.

(* ================================================================= *)
(** ** Further properties of [transcribe] *)

Section TranscribeRuns.

Variable whisper_model : Type.
Variable whisper_result : Type.
Variable load_model : str -> result whisper_model.
Variable model_transcribe : whisper_model -> str -> result whisper_result.
Variable result_segments : whisper_result -> list segment.
Variable result_text : whisper_result -> str.
Variable json_dumps : whisper_result -> result str.
Variable path_exists : path -> bool.
Variable write_file : path -> str -> write_outcome.

Local Abbreviation render' :=
  (render whisper_result result_segments result_text json_dumps).
Local Abbreviation transcribe' :=
  (transcribe whisper_model whisper_result load_model model_transcribe
     result_segments result_text json_dumps path_exists write_file).




(** X16: a format that is empty or holds a slash is not reported as an
    unsupported format when no output path is given: the call fails while
    the output path is made from it, with the error of [with_suffix] on an
    invalid suffix, before anything is printed and before the model is
    loaded. *)
Theorem format_without_suffix_is_refused
    (input_file model_name : str) (output_path : option str)
    (output_format : str) (w : world) :
  output_format = [] \/ contains slash output_format = true ->
  output_path = None \/ output_path = Some [] ->
  path_exists (Path input_file) = true ->
  transcribe' input_file model_name output_path output_format w
  = (w, Raise (Builtin (InvalidSuffix (u "." ++ output_format)))).
Proof.
  intros Hf Ho He. unfold transcribe. rewrite He. cbn [negb].
  unfold bindM, lift.
  assert (E : resolve_output_path (Path input_file) output_path output_format
              = with_suffix (Path input_file) (u "." ++ output_format))
    by (destruct Ho as [-> | ->]; reflexivity).
  now rewrite E, (with_suffix_invalid _ _ Hf).
Qed.

End TranscribeRuns.


Lemma format_without_suffix_is_refused_witness :
  (u "mp3/srt" = [] \/ contains slash (u "mp3/srt") = true)
  /\ forall w,
       transcribe unit unit (fun _ => Ok tt) (fun _ _ => Ok tt)
         (fun _ => hello_world) (fun _ => u "Hello World")
         (fun _ => Ok (u "{}")) (fun _ => true) (fun _ _ => Written)
         (u "clip.mp4") (u "turbo") None (u "mp3/srt") w
       = (w, Raise (Builtin (InvalidSuffix (u ".mp3/srt")))).
Proof.
  assert (Hf : u "mp3/srt" = [] \/ contains slash (u "mp3/srt") = true)
    by (right; reflexivity).
  split; [exact Hf|]. intros w.
  exact (format_without_suffix_is_refused unit unit (fun _ => Ok tt)
           (fun _ _ => Ok tt) (fun _ => hello_world) (fun _ => u "Hello World")
           (fun _ => Ok (u "{}")) (fun _ => true) (fun _ _ => Written)
           (u "clip.mp4") (u "turbo") None (u "mp3/srt") w
           Hf (or_introl eq_refl) eq_refl).
Defined.

(* ================================================================= *)
(** ** Properties of [main] *)

Section MainRuns.

Variable whisper_model : Type.
Variable whisper_result : Type.
Variable load_model : str -> result whisper_model.
Variable model_transcribe : whisper_model -> str -> result whisper_result.
Variable result_segments : whisper_result -> list segment.
Variable result_text : whisper_result -> str.
Variable json_dumps : whisper_result -> result str.
Variable path_exists : path -> bool.
Variable write_file : path -> str -> write_outcome.
Variable library_text : exn -> str.

Local Abbreviation render' :=
  (render whisper_result result_segments result_text json_dumps).
Local Abbreviation transcribe' :=
  (transcribe whisper_model whisper_result load_model model_transcribe
     result_segments result_text json_dumps path_exists write_file).
Local Abbreviation main' :=
  (main whisper_model whisper_result load_model model_transcribe
     result_segments result_text json_dumps path_exists write_file
     library_text).


(** X18: a missing input file gives status 1 and the line Error: Input
    file not found: followed by the input as given, on the error stream;
    nothing is printed on the output stream and nothing is written,
    whatever the other arguments are. *)
Theorem main_reports_missing_input (args : namespace) (w : world)
    (stderr : list str) :
  path_exists (Path (args_input args)) = false ->
  main' args w stderr
  = (w, stderr ++ [u "Error: Input file not found: " ++ args_input args], 1).
Proof.
  intros He. unfold main, transcribe. rewrite He. reflexivity.
Qed.


End MainRuns.

Lemma main_reports_missing_input_witness :
  main unit unit (fun _ => Ok tt) (fun _ _ => Ok tt)
    (fun _ => hello_world) (fun _ => u "Hello World")
    (fun _ => Ok (u "{}")) (fun _ => false) (fun _ _ => Written) (fun _ => u "?")
    (mkNamespace (u "clip.mp4") (u "turbo") None (u "srt")) (mkWorld [] []) []
  = (mkWorld [] [], [u "Error: Input file not found: clip.mp4"], 1).
Proof.
  exact (main_reports_missing_input unit unit (fun _ => Ok tt) (fun _ _ => Ok tt)
           (fun _ => hello_world) (fun _ => u "Hello World")
           (fun _ => Ok (u "{}")) (fun _ => false) (fun _ _ => Written)
           (fun _ => u "?")
           (mkNamespace (u "clip.mp4") (u "turbo") None (u "srt"))
           (mkWorld [] []) [] eq_refl).
Defined.

